(** * pdf-lib: the standard security handler and the indirect object graph

    A shallow embedding of [src/core/security/PDFSecurity.ts] and
    [src/core/PDFContext.ts], and the properties their specification states
    about them.

    Conventions of the embedding.
    - A JavaScript number that the code uses as an integer is a [Z]; the
      32-bit coercion of the bitwise operators is written out ([ToInt32]).
    - A JavaScript string is the list of its UTF-16 code units.
    - A [Uint8Array] is the list of its elements, each in [0, 255].
    - An optional property ([x?: T]) is an [option]; truthiness tests
      ([!x], [if (x)]) are the functions [truthy_*].
    - An exception is the [Throw] result of the monad [M]; the clock and the
      random source the code reads are the state [World] it threads. *)

From Stdlib Require Import String Ascii DecimalString.
From Stdlib Require Import ZArith List Bool Lia.
From Stdlib Require Import Permutation Sorted.
Import ListNotations.

Set Warnings "-register-all".

Local Open Scope Z_scope.

(* ================================================================== *)
(** * JavaScript primitives used by the code *)
(* ================================================================== *)

Module JS.

(** [ToInt32]: the coercion every bitwise operator applies to its
    operands and that its result lies in. *)
Definition ToInt32 (z : Z) : Z := (z + 2 ^ 31) mod 2 ^ 32 - 2 ^ 31.

(** [a | b], [a & b], [a ^ b] *)
Definition bor (a b : Z) : Z := ToInt32 (Z.lor (ToInt32 a) (ToInt32 b)).
Definition band (a b : Z) : Z := ToInt32 (Z.land (ToInt32 a) (ToInt32 b)).
Definition bxor (a b : Z) : Z := ToInt32 (Z.lxor (ToInt32 a) (ToInt32 b)).

(** [a << n] and the sign-propagating [a >> n]; the shift count is taken
    modulo 32. *)
Definition shl (a n : Z) : Z := ToInt32 (Z.shiftl (ToInt32 a) (n mod 32)).
Definition shr (a n : Z) : Z := Z.shiftr (ToInt32 a) (n mod 32).

(** A string: its UTF-16 code units. *)
Definition jsstring := list Z.

(** [s.charCodeAt(i)] for an index inside the string. *)
Definition charCodeAt (s : jsstring) (i : nat) : Z := nth i s 0.

(** [a[i]] as an operand of a store into a typed array: an index outside
    the array reads [undefined], which is stored as 0. *)
Definition index (a : list Z) (i : Z) : Z :=
  if i <? 0 then 0 else nth (Z.to_nat i) a 0.

(** Truthiness of an optional string: [undefined] and [''] are falsy. *)
Definition truthy_string (s : option jsstring) : bool :=
  match s with
  | None => false
  | Some [] => false
  | Some (_ :: _) => true
  end.

(** Truthiness of an optional boolean. *)
Definition truthy_bool (b : option bool) : bool :=
  match b with
  | Some true => true
  | _ => false
  end.

(** The code units of a string literal of the source. *)
Definition lit (s : string) : jsstring :=
  map (fun c => Z.of_nat (nat_of_ascii c)) (list_ascii_of_string s).

(** A [Uint8Array] element store keeps the low eight bits. *)
Definition toUint8 (z : Z) : Z := z mod 256.

(** [a[i] = v] on a typed array of fixed length: a store outside the
    array is ignored. *)
Fixpoint store {A} (l : list A) (i : nat) (v : A) : list A :=
  match l, i with
  | [], _ => []
  | _ :: t, O => v :: t
  | h :: t, S j => h :: store t j v
  end.

(** A number is an IEEE 754 double.  An integral number is carried as the
    integer it is, and the exact integer result of an operation is rounded
    to the 53 significant bits of a double, to the nearest double and to
    the even significand on a tie: up to 2^53 in magnitude every integer is
    a double, from there to 2^54 every second one, and so on.  (Integers of
    2^1024 and more in magnitude, which no double holds, are not meant.) *)
Definition roundToDouble (z : Z) : Z :=
  let a := Z.abs z in
  let e := Z.log2 a - 52 in
  if e <=? 0 then z
  else
    let q := a / 2 ^ e in
    let r := a mod 2 ^ e in
    let half := 2 ^ (e - 1) in
    Z.sgn z * ((if (r <? half) || ((r =? half) && Z.even q) then q else q + 1)
               * 2 ^ e).

(** [a + b] on integral numbers. *)
Definition add (a b : Z) : Z := roundToDouble (a + b).

(** [Number.isSafeInteger]: the integers up to 2^53 - 1 in magnitude. *)
Definition isSafeInteger (z : Z) : bool := Z.abs z <=? 2 ^ 53 - 1.

(** The array index a property key is, if it is one: the canonical decimal
    text of an integer from 0 to 2^32 - 2.  An object lists its own keys
    that are array indices first, in ascending order, and its other keys
    after them in the order in which they were created. *)
Definition isDigit (c : Z) : bool := (48 <=? c) && (c <=? 57).

Definition digitsValue (s : jsstring) : Z :=
  fold_left (fun a c => 10 * a + (c - 48)) s 0.

Definition arrayIndex (key : jsstring) : option Z :=
  match key with
  | [] => None
  | c :: rest =>
      if forallb isDigit key
         && negb ((c =? 48) && negb (length rest =? 0)%nat)
         && (digitsValue key <=? 2 ^ 32 - 2)
      then Some (digitsValue key)
      else None
  end.

End JS.

(* ================================================================== *)
(** * Results, exceptions and the ambient world *)
(* ================================================================== *)

(** The errors the two classes raise.  [TypeError] is the engine's own
    error for a property read on [undefined]. *)
Inductive Error : Type :=
| ConfigurationError      (* 'Either an owner password or a user password must be specified.' *)
| UnsupportedAlgorithm (v : Z)
| InvalidPasswordCharacter (* 'Password contains one or more invalid characters.' *)
| TypeError.

Inductive Result (A : Type) : Type :=
| Ok (a : A)
| Throw (e : Error).
Arguments Ok {A} a.
Arguments Throw {A} e.

(** What the code reads from outside: the clock ([Date.now()]) and the
    cryptographically strong source behind [WordArray.random], an
    arbitrary sequence of 32-bit words of which [drawn] have been used. *)
Record World : Type := mkWorld {
  now : Z;
  entropy : nat -> Z;
  drawn : nat
}.

(** State and exception monad over a state [S]. *)
Definition M (S A : Type) : Type := S -> Result A * S.

Definition ret {S A} (a : A) : M S A := fun s => (Ok a, s).
Definition throw {S A} (e : Error) : M S A := fun s => (Throw e, s).
Definition bind {S A B} (m : M S A) (k : A -> M S B) : M S B :=
  fun s => match m s with
           | (Ok a, s') => k a s'
           | (Throw e, s') => (Throw e, s')
           end.
Definition get {S} : M S S := fun s => (Ok s, s).
Definition put {S} (s : S) : M S unit := fun _ => (Ok tt, s).
Definition modify {S} (f : S -> S) : M S unit := fun s => (Ok tt, f s).
Definition liftR {S A} (r : Result A) : M S A := fun s => (r, s).

Declare Scope js_scope.
Delimit Scope js_scope with js.
Notation "x <- c1 ;; c2" := (bind c1 (fun x => c2))
  (at level 100, c1 at next level, right associativity) : js_scope.
Notation "c1 ;;; c2" := (bind c1 (fun _ => c2))
  (at level 100, right associativity) : js_scope.

(* ================================================================== *)
(** * PDFSecurity.ts: permissions *)
(* ================================================================== *)

(** [printing?: boolean | 'lowResolution' | 'highResolution'] *)
Inductive Printing : Type :=
| PrintingBool (b : bool)
| LowResolution
| HighResolution.

Record UserPermissions : Type := mkUserPermissions {
  printing : option Printing;
  modifying : option bool;
  copying : option bool;
  annotating : option bool;
  fillingForms : option bool;
  contentAccessibility : option bool;
  documentAssembly : option bool
}.

(** The default argument [permissions: UserPermissions = {}]. *)
Definition noPermissions : UserPermissions :=
  mkUserPermissions None None None None None None None.

(** Truthiness of [permissions.printing]: the two strings are non-empty. *)
Definition truthy_printing (p : option Printing) : bool :=
  match p with
  | None => false
  | Some (PrintingBool b) => b
  | Some LowResolution => true
  | Some HighResolution => true
  end.

Definition is_lowResolution (p : option Printing) : bool :=
  match p with Some LowResolution => true | _ => false end.
Definition is_highResolution (p : option Printing) : bool :=
  match p with Some HighResolution => true | _ => false end.

Definition getPermissionsR2 (permissions : option UserPermissions) : Z :=
  let permissions := match permissions with Some p => p | None => noPermissions end in
  let flags := JS.shr 0xffffffc0 0 in
  let flags := if truthy_printing (printing permissions)
               then JS.bor flags 0x004 (* 0b000000000100 *) else flags in
  let flags := if JS.truthy_bool (modifying permissions)
               then JS.bor flags 0x008 (* 0b000000001000 *) else flags in
  let flags := if JS.truthy_bool (copying permissions)
               then JS.bor flags 0x010 (* 0b000000010000 *) else flags in
  let flags := if JS.truthy_bool (annotating permissions)
               then JS.bor flags 0x020 (* 0b000000100000 *) else flags in
  flags.

Definition getPermissionsR3 (permissions : option UserPermissions) : Z :=
  let permissions := match permissions with Some p => p | None => noPermissions end in
  let flags := JS.shr 0xfffff0c0 0 in
  let flags := if is_lowResolution (printing permissions)
                  || truthy_printing (printing permissions)
               then JS.bor flags 0x004 (* 0b000000000100 *) else flags in
  let flags := if is_highResolution (printing permissions)
               then JS.bor flags 0x804 (* 0b100000000100 *) else flags in
  let flags := if JS.truthy_bool (modifying permissions)
               then JS.bor flags 0x008 (* 0b000000001000 *) else flags in
  let flags := if JS.truthy_bool (copying permissions)
               then JS.bor flags 0x010 (* 0b000000010000 *) else flags in
  let flags := if JS.truthy_bool (annotating permissions)
               then JS.bor flags 0x020 (* 0b000000100000 *) else flags in
  let flags := if JS.truthy_bool (fillingForms permissions)
               then JS.bor flags 0x100 (* 0b000100000000 *) else flags in
  let flags := if JS.truthy_bool (contentAccessibility permissions)
               then JS.bor flags 0x200 (* 0b001000000000 *) else flags in
  let flags := if JS.truthy_bool (documentAssembly permissions)
               then JS.bor flags 0x400 (* 0b010000000000 *) else flags in
  flags.

(** Bit [b] of the 32-bit value [p], numbered from 1 at the low-order end
    as the PDF permission table numbers them. *)
Definition pdfBit (p : Z) (b : Z) : bool := Z.testbit p (b - 1).

(* ================================================================== *)
(** * PDFContext.ts: the indirect object graph *)
(* ================================================================== *)

(** Modelled from the spec: the class [PDFRef] (objects/PDFRef.ts, not among
    the sources).  A reference is the pair of an object number and a
    generation number, the generation defaulting to 0; identity and
    equality are by value, and references are used as map keys.  Both
    numbers are integral numbers of JavaScript, carried as integers. *)
Record PDFRef : Type := mkPDFRef {
  objectNumber : Z;
  generationNumber : Z
}.

(** [PDFRef.of(objectNumber, generationNumber = 0)] *)
Definition PDFRef_of (n : Z) : PDFRef := mkPDFRef n 0.

Definition PDFRef_eqb (a b : PDFRef) : bool :=
  (objectNumber a =? objectNumber b) && (generationNumber a =? generationNumber b).

(** Modelled from the spec: the operator names (operators/PDFOperatorNames.ts,
    not among the sources), of which the graph uses the two that bracket
    a graphics state. *)
Inductive PDFOperatorNames : Type :=
| PushGraphicsState   (* 'q' *)
| PopGraphicsState.   (* 'Q' *)

(** Modelled from the spec: the class [PDFOperator] (operators/PDFOperator.ts,
    not among the sources); the graph builds operators without operands. *)
Record PDFOperator : Type := mkPDFOperator {
  opName : PDFOperatorNames
}.
Definition PDFOperator_of (n : PDFOperatorNames) : PDFOperator := mkPDFOperator n.

(** Modelled from the spec: the class [PDFHeader] (document/PDFHeader.ts,
    not among the sources), of which the security handler reads the
    declared format version of the document. *)
Record PDFHeader : Type := mkPDFHeader {
  getVersionString : JS.jsstring
}.

(** Replace-or-append on an insertion-ordered association list: what
    [Map.prototype.set] and a property assignment [o[k] = v] do. *)
Fixpoint assoc_set {K V} (eqb : K -> K -> bool) (l : list (K * V)) (k : K) (v : V)
  : list (K * V) :=
  match l with
  | [] => [(k, v)]
  | (k', v') :: t =>
      if eqb k' k then (k', v) :: t else (k', v') :: assoc_set eqb t k v
  end.

Fixpoint assoc_get {K V} (eqb : K -> K -> bool) (l : list (K * V)) (k : K) : option V :=
  match l with
  | [] => None
  | (k', v') :: t => if eqb k' k then Some v' else assoc_get eqb t k
  end.

Definition assoc_has {K V} (eqb : K -> K -> bool) (l : list (K * V)) (k : K) : bool :=
  match assoc_get eqb l k with Some _ => true | None => false end.

Definition assoc_delete {K V} (eqb : K -> K -> bool) (l : list (K * V)) (k : K)
  : list (K * V) :=
  filter (fun e => negb (eqb (fst e) k)) l.

Definition jsstring_eqb (a b : JS.jsstring) : bool :=
  if list_eq_dec Z.eq_dec a b then true else false.

(** [Array.prototype.sort(compareFn)]: a stable sort by the comparator;
    [x] goes before the first element it does not compare greater than. *)
Fixpoint sort_insert {A} (compareFn : A -> A -> Z) (x : A) (l : list A) : list A :=
  match l with
  | [] => [x]
  | y :: t => if compareFn x y <=? 0 then x :: y :: t
              else y :: sort_insert compareFn x t
  end.

Definition Array_sort {A} (compareFn : A -> A -> Z) (l : list A) : list A :=
  fold_right (sort_insert compareFn) [] l.

Section ObjectGraph.

(** JavaScript numbers held by [PDFNumber] are carried as they are; the
    graph never computes with them. *)
Variable number : Type.
Variable number_of_Z : Z -> number.

(** The text [PDFHexString.fromBytes] gives a byte array
    (objects/PDFHexString.ts is not among the sources). *)
Variable byteArrayToHexString : list Z -> JS.jsstring.

(** Modelled from the spec: the object classes (objects/*.ts and
    structures/PDFContentStream.ts, not among the sources), a tagged
    variant over null, boolean, number, name, string, hexadecimal string,
    array, dictionary, stream and reference.  Arrays and dictionaries own
    their children; a dictionary is keyed by name and keeps the order in
    which its keys were first set. *)
Inductive PDFObject : Type :=
| PDFNull
| PDFBool (asBoolean : bool)
| PDFNumber (asNumber : number)
| PDFName (decodeText : JS.jsstring)
| PDFString (asString : JS.jsstring)
| PDFHexString (asString : JS.jsstring)
| PDFArray (asArray : list PDFObject)
| PDFDict (entries : list (JS.jsstring * PDFObject))
| PDFRawStream (dict : PDFObject) (contents : list Z)
| PDFContentStream (dict : PDFObject) (operators : list PDFOperator)
| PDFRefObject (ref : PDFRef).

Definition PDFName_of (name : JS.jsstring) : PDFObject := PDFName name.
Definition PDFNumber_of (n : number) : PDFObject := PDFNumber n.
Definition PDFBool_True : PDFObject := PDFBool true.
Definition PDFBool_False : PDFObject := PDFBool false.
Definition PDFHexString_fromBytes (bytes : list Z) : PDFObject :=
  PDFHexString (byteArrayToHexString bytes).
Definition PDFContentStream_of (dict : PDFObject) (ops : list PDFOperator) : PDFObject :=
  PDFContentStream dict ops.

(** [dict.set(key, value)] on the entries of a [PDFDict]. *)
Definition PDFDict_set (d : list (JS.jsstring * PDFObject)) (key : JS.jsstring)
           (value : PDFObject) : list (JS.jsstring * PDFObject) :=
  assoc_set jsstring_eqb d key value.

(** [Literal]: what [obj] accepts and [getLiteral] returns.  A keyed map
    lists its own enumerable properties in [Object.keys] order; the
    prototype of the object is not part of it. *)
Inductive Literal : Type :=
| LNull
| LUndefined
| LString (s : JS.jsstring)
| LNumber (n : number)
| LBoolean (b : bool)
| LUint8Array (bytes : list Z)
| LArray (items : list Literal)
| LObject (props : list (JS.jsstring * Literal))
| LPDFObject (o : PDFObject).

Definition is_undefined (l : Literal) : bool :=
  match l with LUndefined => true | _ => false end.

(** A new own property whose key is the array index [i] goes before the
    first property that is not a smaller array index. *)
Fixpoint insertIndex (i : Z) (kv : JS.jsstring * Literal)
         (o : list (JS.jsstring * Literal)) : list (JS.jsstring * Literal) :=
  match o with
  | [] => [kv]
  | (k', v') :: t =>
      match JS.arrayIndex k' with
      | Some j => if j <? i then (k', v') :: insertIndex i kv t else kv :: o
      | None => kv :: o
      end
  end.

(** [lit[key] = value] on the own properties of the plain object that
    [getLiteral] fills.  The key ['__proto__'] reaches the setter that a
    plain object inherits from [Object.prototype]: it sets the prototype or
    does nothing, and creates no own property.  Any other key that is
    there keeps its place and takes the value; a new key is created, among
    the array indices if it is one and after every other key if not. *)
Definition LObject_set (o : list (JS.jsstring * Literal)) (key : JS.jsstring)
           (value : Literal) : list (JS.jsstring * Literal) :=
  if jsstring_eqb key (JS.lit "__proto__") then o
  else if assoc_has jsstring_eqb o key then assoc_set jsstring_eqb o key value
  else match JS.arrayIndex key with
       | Some i => insertIndex i (key, value) o
       | None => o ++ [(key, value)]
       end.

Record LiteralConfig : Type := mkLiteralConfig {
  deep : bool;
  literalRef : bool;
  literalStreamDict : bool;
  literalString : bool
}.

(** The defaults of [getLiteral]'s second parameter. *)
Definition defaultLiteralConfig : LiteralConfig :=
  mkLiteralConfig true false false false.

Record TrailerInfo : Type := mkTrailerInfo {
  Root : option PDFObject;
  Encrypt : option PDFObject;
  Info : option PDFObject;
  ID : option PDFObject
}.

Record PDFContext : Type := mkPDFContext {
  isDecrypted : bool;
  largestObjectNumber : Z;
  header : PDFHeader;
  trailerInfo : TrailerInfo;
  rngSeed : Z;
  indirectObjects : list (PDFRef * PDFObject);
  pushGraphicsStateContentStreamRef : option PDFRef;
  popGraphicsStateContentStreamRef : option PDFRef
}.

Definition set_largestObjectNumber (n : Z) (c : PDFContext) : PDFContext :=
  mkPDFContext (isDecrypted c) n (header c) (trailerInfo c) (rngSeed c)
               (indirectObjects c) (pushGraphicsStateContentStreamRef c)
               (popGraphicsStateContentStreamRef c).
Definition set_indirectObjects (m : list (PDFRef * PDFObject)) (c : PDFContext)
  : PDFContext :=
  mkPDFContext (isDecrypted c) (largestObjectNumber c) (header c) (trailerInfo c)
               (rngSeed c) m (pushGraphicsStateContentStreamRef c)
               (popGraphicsStateContentStreamRef c).
Definition set_pushRef (r : PDFRef) (c : PDFContext) : PDFContext :=
  mkPDFContext (isDecrypted c) (largestObjectNumber c) (header c) (trailerInfo c)
               (rngSeed c) (indirectObjects c) (Some r)
               (popGraphicsStateContentStreamRef c).
Definition set_popRef (r : PDFRef) (c : PDFContext) : PDFContext :=
  mkPDFContext (isDecrypted c) (largestObjectNumber c) (header c) (trailerInfo c)
               (rngSeed c) (indirectObjects c)
               (pushGraphicsStateContentStreamRef c) (Some r).

(** [PDFContext.create()]: the private constructor. *)
Definition PDFContext_create : PDFContext :=
  mkPDFContext true 0 (mkPDFHeader (JS.lit "1.7"))
               (mkTrailerInfo None None None None) 1 [] None None.

Local Open Scope js_scope.

Definition assign (ref : PDFRef) (object : PDFObject) : M PDFContext unit :=
  modify (fun c => set_indirectObjects
                     (assoc_set PDFRef_eqb (indirectObjects c) ref object) c) ;;;
  c <- get ;;
  if objectNumber ref >? largestObjectNumber c
  then modify (set_largestObjectNumber (objectNumber ref))
  else ret tt.

(** [this.largestObjectNumber += 1] is an addition of numbers: from 2^53
    on it no longer yields the next integer. *)
Definition nextRef : M PDFContext PDFRef :=
  modify (fun c => set_largestObjectNumber (JS.add (largestObjectNumber c) 1) c) ;;;
  c <- get ;;
  ret (PDFRef_of (largestObjectNumber c)).

Definition register (object : PDFObject) : M PDFContext PDFRef :=
  ref <- nextRef ;;
  assign ref object ;;;
  ret ref.

Definition delete (ref : PDFRef) : M PDFContext bool :=
  c <- get ;;
  let existed := assoc_has PDFRef_eqb (indirectObjects c) ref in
  modify (set_indirectObjects (assoc_delete PDFRef_eqb (indirectObjects c) ref)) ;;;
  ret existed.

(** The sort reads the sign of the comparator only, and the difference of
    two integral numbers has the sign of their exact difference. *)
Definition byAscendingObjectNumber (a b : PDFRef * PDFObject) : Z :=
  objectNumber (fst a) - objectNumber (fst b).

Definition enumerateIndirectObjects : M PDFContext (list (PDFRef * PDFObject)) :=
  c <- get ;;
  ret (Array_sort byAscendingObjectNumber (indirectObjects c)).

(** [obj(literal)].  The array and the dictionary are filled by the two
    loops of the source, with [push] and [set]. *)
Fixpoint obj (literal : Literal) : PDFObject :=
  match literal with
  | LPDFObject o => o
  | LNull | LUndefined => PDFNull
  | LString s => PDFName_of s
  | LNumber n => PDFNumber_of n
  | LBoolean b => if b then PDFBool_True else PDFBool_False
  | LUint8Array bytes => PDFHexString_fromBytes bytes
  | LArray items =>
      PDFArray (fold_left (fun array item => array ++ [obj item]) items [])
  | LObject props =>
      PDFDict (fold_left
                 (fun dict kv =>
                    match kv with
                    | (key, value) =>
                        if is_undefined value then dict
                        else PDFDict_set dict key (obj value)
                    end) props [])
  end.

(** [getLiteral(obj, cfg)].  [this.getLiteral(name)] on a dictionary key
    is the text of the name. *)
Fixpoint getLiteral (cfg : LiteralConfig) (o : PDFObject) : Literal :=
  match o with
  | PDFArray lit =>
      if deep cfg then LArray (map (getLiteral cfg) lit)
      else LArray (map LPDFObject lit)
  | PDFBool b => LBoolean b
  | PDFDict entries =>
      LObject (fold_left
                 (fun lit nv =>
                    match nv with
                    | (name, value) =>
                        LObject_set lit name
                          (if deep cfg then getLiteral cfg value
                           else LPDFObject value)
                    end) entries [])
  | PDFName text => LString text
  | PDFNull => LNull
  | PDFNumber n => LNumber n
  | PDFRefObject r =>
      if literalRef cfg then LNumber (number_of_Z (objectNumber r))
      else LPDFObject o
  | PDFRawStream d _ =>
      if literalStreamDict cfg then getLiteral cfg d else LPDFObject o
  | PDFContentStream d _ =>
      if literalStreamDict cfg then getLiteral cfg d else LPDFObject o
  | PDFString s =>
      if literalString cfg then LString s else LPDFObject o
  | PDFHexString s =>
      if literalString cfg then LString s else LPDFObject o
  end.

Definition getPushGraphicsStateContentStream : M PDFContext PDFRef :=
  c <- get ;;
  match pushGraphicsStateContentStreamRef c with
  | Some r => ret r
  | None =>
      let dict := obj (LObject []) in
      let op := PDFOperator_of PushGraphicsState in
      let stream := PDFContentStream_of dict [op] in
      r <- register stream ;;
      modify (set_pushRef r) ;;;
      ret r
  end.

Definition getPopGraphicsStateContentStream : M PDFContext PDFRef :=
  c <- get ;;
  match popGraphicsStateContentStreamRef c with
  | Some r => ret r
  | None =>
      let dict := obj (LObject []) in
      let op := PDFOperator_of PopGraphicsState in
      let stream := PDFContentStream_of dict [op] in
      r <- register stream ;;
      modify (set_popRef r) ;;;
      ret r
  end.

End ObjectGraph.

Arguments PDFNull {number}.
Arguments PDFBool {number}.
Arguments PDFNumber {number}.
Arguments PDFName {number}.
Arguments PDFString {number}.
Arguments PDFHexString {number}.
Arguments PDFArray {number}.
Arguments PDFDict {number}.
Arguments PDFRawStream {number}.
Arguments PDFContentStream {number}.
Arguments PDFRefObject {number}.
Arguments PDFName_of {number}.
Arguments PDFNumber_of {number}.
Arguments PDFBool_True {number}.
Arguments PDFBool_False {number}.
Arguments PDFHexString_fromBytes {number}.
Arguments PDFContentStream_of {number}.
Arguments PDFDict_set {number}.
Arguments LNull {number}.
Arguments LUndefined {number}.
Arguments LString {number}.
Arguments LNumber {number}.
Arguments LBoolean {number}.
Arguments LUint8Array {number}.
Arguments LArray {number}.
Arguments LObject {number}.
Arguments LPDFObject {number}.
Arguments is_undefined {number}.
Arguments insertIndex {number}.
Arguments LObject_set {number}.
Arguments mkTrailerInfo {number}.
Arguments Root {number}.
Arguments Encrypt {number}.
Arguments Info {number}.
Arguments ID {number}.
Arguments mkPDFContext {number}.
Arguments isDecrypted {number}.
Arguments largestObjectNumber {number}.
Arguments header {number}.
Arguments trailerInfo {number}.
Arguments rngSeed {number}.
Arguments indirectObjects {number}.
Arguments pushGraphicsStateContentStreamRef {number}.
Arguments popGraphicsStateContentStreamRef {number}.
Arguments set_largestObjectNumber {number}.
Arguments set_indirectObjects {number}.
Arguments set_pushRef {number}.
Arguments set_popRef {number}.
Arguments PDFContext_create {number}.
Arguments assign {number}.
Arguments nextRef {number}.
Arguments register {number}.
Arguments delete {number}.
Arguments byAscendingObjectNumber {number}.
Arguments enumerateIndirectObjects {number}.
Arguments obj {number}.
Arguments getLiteral {number}.
Arguments getPushGraphicsStateContentStream {number}.
Arguments getPopGraphicsStateContentStream {number}.

(* ================================================================== *)
(** * CryptoJS.lib.WordArray *)
(* ================================================================== *)

(** The byte container of the crypto library: 32-bit words, big-endian,
    of which the first [sigBytes] bytes are significant.  A hole of the
    [words] array reads as [undefined], which every bitwise operator
    coerces to 0. *)
Record WordArray : Type := mkWordArray {
  words : list Z;
  sigBytes : nat
}.

Module WordArray.

(** [words[k]] as an operand of a bitwise operator. *)
Definition getWord (ws : list Z) (k : nat) : Z := nth k ws 0.

(** [words[k] = v]; a store past the end extends the array. *)
Fixpoint setWord (ws : list Z) (k : nat) (v : Z) : list Z :=
  match ws, k with
  | [], O => [v]
  | [], S j => 0 :: setWord [] j v
  | _ :: t, O => v :: t
  | h :: t, S j => h :: setWord t j v
  end.

(** [words.length = n] *)
Fixpoint resize (ws : list Z) (n : nat) : list Z :=
  match n, ws with
  | O, _ => []
  | S m, [] => 0 :: resize [] m
  | S m, h :: t => h :: resize t m
  end.

(** [Math.ceil(n / 4)] *)
Definition ceil4 (n : nat) : nat := Nat.div (n + 3) 4.

(** [a >>> n] *)
Definition ushr (a n : Z) : Z := Z.shiftr (JS.ToInt32 a mod 2 ^ 32) (n mod 32).

(** [WordArray.create(words, sigBytes)] *)
Definition create (ws : list Z) (sb : nat) : WordArray := mkWordArray ws sb.

(** [WordArray.create(typedArray)] for a [Uint8Array]. *)
Definition ofUint8Array (bytes : list Z) : WordArray :=
  let ws :=
    fold_left
      (fun ws i =>
         setWord ws (Nat.div i 4)
                 (JS.bor (getWord ws (Nat.div i 4))
                         (JS.shl (nth i bytes 0)
                                 (24 - Z.of_nat (Nat.modulo i 4) * 8))))
      (seq 0 (length bytes)) [] in
  mkWordArray ws (length bytes).

Definition clone (w : WordArray) : WordArray := w.

Definition withSigBytes (w : WordArray) (sb : nat) : WordArray :=
  mkWordArray (words w) sb.

Definition clamp (w : WordArray) : WordArray :=
  let sb := sigBytes w in
  let k := Nat.div sb 4 in
  let ws := setWord (words w) k
              (JS.band (getWord (words w) k)
                       (JS.shl 0xffffffff (32 - Z.of_nat (Nat.modulo sb 4) * 8))) in
  mkWordArray (resize ws (ceil4 sb)) sb.

Definition concat (this that : WordArray) : WordArray :=
  let thisSigBytes := sigBytes this in
  let thatWords := words that in
  let thatSigBytes := sigBytes that in
  let thisWords := words (clamp this) in
  let thisWords :=
    if negb (Nat.modulo thisSigBytes 4 =? 0)%nat then
      fold_left
        (fun ws i =>
           let thatByte :=
             JS.band (ushr (getWord thatWords (Nat.div i 4))
                           (24 - Z.of_nat (Nat.modulo i 4) * 8)) 0xff in
           let k := Nat.div (thisSigBytes + i) 4 in
           setWord ws k
             (JS.bor (getWord ws k)
                     (JS.shl thatByte
                             (24 - Z.of_nat (Nat.modulo (thisSigBytes + i) 4) * 8))))
        (seq 0 thatSigBytes) thisWords
    else
      fold_left
        (fun ws j4 =>
           setWord ws (Nat.div (thisSigBytes + 4 * j4) 4) (getWord thatWords j4))
        (seq 0 (ceil4 thatSigBytes)) thisWords in
  mkWordArray thisWords (thisSigBytes + thatSigBytes).

(** [WordArray.random(nBytes)]: one fresh word of the source per four
    bytes asked for. *)
Definition random (nBytes : nat) : M World WordArray :=
  fun w =>
    let n := ceil4 nBytes in
    (Ok (mkWordArray (map (fun k => JS.ToInt32 (entropy w k)) (seq (drawn w) n)) nBytes),
     mkWorld (now w) (entropy w) (drawn w + n)).

(** [words.slice(from, to)] *)
Definition slice (ws : list Z) (from to : nat) : list Z :=
  firstn (to - from) (skipn from ws).

(** The text of [Date.now().toString()] as a word array ([Utf8.parse] of
    a string of digits and a sign: one byte per character). *)
Definition Utf8_parse (s : JS.jsstring) : WordArray := ofUint8Array s.

End WordArray.

Inductive CipherMode : Type := CBC | ECB.
Inductive CipherPadding : Type := Pkcs7 | NoPadding.

Record CipherOptions : Type := mkCipherOptions {
  mode : CipherMode;
  padding : CipherPadding;
  iv : option WordArray
}.

(** [n.toString()] for an integer. *)
Definition Number_toString (n : Z) : JS.jsstring :=
  JS.lit (DecimalString.NilZero.string_of_int (Z.to_int n)).

(* ================================================================== *)
(** * PDFSecurity.ts: password processing and key derivation *)
(* ================================================================== *)

Definition Uint8Array := list Z.

(** 7.6.3.3 Encryption Key Algorithm, Algorithm 2: the password padding. *)
Definition PASSWORD_PADDING : list Z :=
  [ 0x28; 0xbf; 0x4e; 0x5e; 0x4e; 0x75; 0x8a; 0x41; 0x64; 0x00; 0x4e; 0x56; 0xff;
    0xfa; 0x01; 0x08; 0x2e; 0x2e; 0x00; 0xb6; 0xd0; 0x68; 0x3e; 0x80; 0x2f; 0x0c;
    0xa9; 0xfe; 0x64; 0x53; 0x69; 0x7a ].

Definition lsbFirstWord (data : Z) : Z :=
  JS.bor (JS.bor (JS.bor (JS.shl (JS.band data 0xff) 24)
                         (JS.shl (JS.band data 0xff00) 8))
                 (JS.band (JS.shr data 8) 0xff00))
         (JS.band (JS.shr data 24) 0xff).

Definition wordArrayToBuffer (wordArray : WordArray) : Uint8Array :=
  map (fun i =>
         JS.band (JS.shr (WordArray.getWord (words wordArray) (Nat.div i 4))
                         (8 * (3 - Z.of_nat (Nat.modulo i 4))))
                 0xff)
      (seq 0 (sigBytes wordArray)).

(** The first loop of [processPasswordR2R3R4]:
    [while (index < length && index < 32)].  [None] is the loop not having
    finished within [fuel] iterations. *)
Fixpoint copyPassword (fuel : nat) (password : JS.jsstring) (length : nat)
         (index : nat) (out : Uint8Array) : option (Result (nat * Uint8Array)) :=
  if (index <? length)%nat && (index <? 32)%nat then
    match fuel with
    | O => None
    | S fuel' =>
        let code := JS.charCodeAt password index in
        if code >? 0xff then Some (Throw InvalidPasswordCharacter)
        else copyPassword fuel' password length (S index)
                          (JS.store out index (JS.toUint8 code))
    end
  else Some (Ok (index, out)).

(** The second loop: [while (index < 32)]. *)
Fixpoint padPassword (fuel : nat) (length : nat) (index : nat) (out : Uint8Array)
  : option Uint8Array :=
  if (index <? 32)%nat then
    match fuel with
    | O => None
    | S fuel' =>
        padPassword fuel' length (S index)
                    (JS.store out index
                       (JS.index PASSWORD_PADDING (Z.of_nat index - Z.of_nat length)))
    end
  else Some out.

(** [processPasswordR2R3R4(password = '')], run with [fuel] loop iterations
    at most. *)
Definition processPasswordR2R3R4_fuel (fuel : nat) (password : option JS.jsstring)
  : option (Result WordArray) :=
  let password := match password with Some p => p | None => [] end in
  let out := repeat 0 32 in
  let length := List.length password in
  match copyPassword fuel password length 0 out with
  | None => None
  | Some (Throw e) => Some (Throw e)
  | Some (Ok (index, out)) =>
      match padPassword fuel length index out with
      | None => None
      | Some out => Some (Ok (WordArray.ofUint8Array out))
      end
  end.

(** Each loop runs at most 32 times. *)
Definition processPasswordR2R3R4 (password : option JS.jsstring) : Result WordArray :=
  match processPasswordR2R3R4_fuel 32 password with
  | Some r => r
  | None => Throw TypeError
  end.

Definition processPasswordR5 (password : option JS.jsstring) : WordArray :=
  let password := match password with Some p => p | None => [] end in
  let length := Nat.min 127 (List.length password) in
  let out := repeat 0 length in
  let out := fold_left
               (fun out i => JS.store out i (JS.toUint8 (JS.charCodeAt password i)))
               (seq 0 length) out in
  WordArray.ofUint8Array out.

(** [i | (i << 8) | (i << 16) | (i << 24)] *)
Definition roundMask (i : Z) : Z :=
  JS.bor (JS.bor (JS.bor i (JS.shl i 8)) (JS.shl i 16)) (JS.shl i 24).

(** The inner loop of the RC4 rounds:
    [key.words[j] = source.words[j] ^ roundMask(i)] for [j < xorRound]. *)
Definition xorKeyWords (key source : WordArray) (i : Z) : WordArray :=
  let xorRound := WordArray.ceil4 (sigBytes key) in
  fold_left
    (fun key j =>
       mkWordArray
         (WordArray.setWord (words key) j
            (JS.bxor (WordArray.getWord (words source) j) (roundMask i)))
         (sigBytes key))
    (seq 0 xorRound) key.

Section Security.

(** The cipher and hash functions of crypto-js, on word arrays. *)
Variable MD5 : WordArray -> WordArray.
Variable SHA256 : WordArray -> WordArray.
(** [CryptoJS.RC4.encrypt(message, key).ciphertext] *)
Variable RC4_encrypt : WordArray -> WordArray -> WordArray.
(** [CryptoJS.AES.encrypt(message, key, options).ciphertext] *)
Variable AES_encrypt : WordArray -> WordArray -> CipherOptions -> WordArray.

Local Open Scope js_scope.

Definition generateFileID : M World Uint8Array :=
  w <- get ;;
  ret (wordArrayToBuffer (MD5 (WordArray.Utf8_parse (Number_toString (now w))))).

Definition generateRandomWordArray (bytes : nat) : M World WordArray :=
  WordArray.random bytes.

Definition getUserPasswordR2 (encryptionKey : WordArray) : Result WordArray :=
  match processPasswordR2R3R4 None with
  | Ok padding => Ok (RC4_encrypt padding encryptionKey)
  | Throw e => Throw e
  end.

Definition getUserPasswordR3R4 (documentId : Uint8Array) (encryptionKey : WordArray)
  : Result WordArray :=
  let key := WordArray.clone encryptionKey in
  match processPasswordR2R3R4 None with
  | Throw e => Throw e
  | Ok padding =>
      let cipher :=
        MD5 (WordArray.concat padding (WordArray.ofUint8Array documentId)) in
      let '(key, cipher) :=
        fold_left
          (fun kc i =>
             let key := xorKeyWords (fst kc) encryptionKey (Z.of_nat i) in
             (key, RC4_encrypt (snd kc) key))
          (seq 0 20) (key, cipher) in
      Ok (WordArray.concat cipher (WordArray.create [] 16))
  end.

Definition getOwnerPasswordR2R3R4 (r : Z) (keyBits : Z)
           (paddedUserPassword paddedOwnerPassword : WordArray) : WordArray :=
  let digest := paddedOwnerPassword in
  let round := if r >=? 3 then 51%nat else 1%nat in
  let digest := fold_left (fun digest _ => MD5 digest) (seq 0 round) digest in
  let key := WordArray.clone digest in
  let key := WordArray.withSigBytes key (Z.to_nat (keyBits / 8)) in
  let cipher := paddedUserPassword in
  let round := if r >=? 3 then 20%nat else 1%nat in
  let '(key, cipher) :=
    fold_left
      (fun kc i =>
         let key := xorKeyWords (fst kc) digest (Z.of_nat i) in
         (key, RC4_encrypt (snd kc) key))
      (seq 0 round) (key, cipher) in
  cipher.

Definition getEncryptionKeyR2R3R4 (r : Z) (keyBits : Z) (documentId : Uint8Array)
           (paddedUserPassword ownerPasswordEntry : WordArray) (permissions : Z)
  : WordArray :=
  let key :=
    WordArray.concat
      (WordArray.concat
         (WordArray.concat (WordArray.clone paddedUserPassword) ownerPasswordEntry)
         (WordArray.create [lsbFirstWord permissions] 4))
      (WordArray.ofUint8Array documentId) in
  let round := if r >=? 3 then 51%nat else 1%nat in
  fold_left
    (fun key _ => WordArray.withSigBytes (MD5 key) (Z.to_nat (keyBits / 8)))
    (seq 0 round) key.

Definition getUserPasswordR5 (processedUserPassword : WordArray)
           (randomWordArrayGenerator : nat -> M World WordArray)
  : M World WordArray :=
  validationSalt <- randomWordArrayGenerator 8%nat ;;
  keySalt <- randomWordArrayGenerator 8%nat ;;
  ret (WordArray.concat
         (WordArray.concat
            (SHA256 (WordArray.concat (WordArray.clone processedUserPassword)
                                      validationSalt))
            validationSalt)
         keySalt).

Definition getUserEncryptionKeyR5 (processedUserPassword userKeySalt
                                   encryptionKey : WordArray) : WordArray :=
  let key := SHA256 (WordArray.concat (WordArray.clone processedUserPassword)
                                      userKeySalt) in
  let options := mkCipherOptions CBC NoPadding (Some (WordArray.create [] 16)) in
  AES_encrypt encryptionKey key options.

Definition getOwnerPasswordR5 (processedOwnerPassword userPasswordEntry : WordArray)
           (randomWordArrayGenerator : nat -> M World WordArray)
  : M World WordArray :=
  validationSalt <- randomWordArrayGenerator 8%nat ;;
  keySalt <- randomWordArrayGenerator 8%nat ;;
  ret (WordArray.concat
         (WordArray.concat
            (SHA256 (WordArray.concat
                       (WordArray.concat (WordArray.clone processedOwnerPassword)
                                         validationSalt)
                       userPasswordEntry))
            validationSalt)
         keySalt).

Definition getOwnerEncryptionKeyR5 (processedOwnerPassword ownerKeySalt
                                    userPasswordEntry encryptionKey : WordArray)
  : WordArray :=
  let key := SHA256 (WordArray.concat
                       (WordArray.concat (WordArray.clone processedOwnerPassword)
                                         ownerKeySalt)
                       userPasswordEntry) in
  let options := mkCipherOptions CBC NoPadding (Some (WordArray.create [] 16)) in
  AES_encrypt encryptionKey key options.

Definition getEncryptionKeyR5 (randomWordArrayGenerator : nat -> M World WordArray)
  : M World WordArray :=
  randomWordArrayGenerator 32%nat.

Definition getEncryptedPermissionsR5 (permissions : Z) (encryptionKey : WordArray)
           (randomWordArrayGenerator : nat -> M World WordArray)
  : M World WordArray :=
  salt <- randomWordArrayGenerator 4%nat ;;
  let cipher :=
    WordArray.concat
      (WordArray.create [lsbFirstWord permissions; 0xffffffff; 0x54616462] 12)
      salt in
  let options := mkCipherOptions ECB NoPadding None in
  ret (AES_encrypt cipher encryptionKey options).

End Security.

(* ================================================================== *)
(** * PDFSecurity.ts: the handler *)
(* ================================================================== *)

Record SecurityOptions : Type := mkSecurityOptions {
  ownerPassword : option JS.jsstring;
  userPassword : option JS.jsstring;
  permissions : option UserPermissions
}.

Inductive CryptFilterMethod : Type := AESV2 | AESV3.

Record StdCF : Type := mkStdCF {
  AuthEvent : JS.jsstring;
  CFM : CryptFilterMethod;
  StdCF_Length : Z
}.

Record Encryption : Type := mkEncryption {
  V : Z;
  R : Z;
  O : Uint8Array;
  U : Uint8Array;
  P : Z;
  Filter : JS.jsstring;
  Length : option Z;
  CF : option StdCF;
  StmF : option JS.jsstring;
  StrF : option JS.jsstring;
  OE : option Uint8Array;
  UE : option Uint8Array;
  Perms : option Uint8Array
}.

(** The object under construction: the four fields declared with [!] are
    unset until [initialize] writes them. *)
Record PDFSecurity : Type := mkPDFSecurity {
  context_header : PDFHeader;
  id : option Uint8Array;
  encryption : option Encryption;
  keyBits : option Z;
  encryptionKey : option WordArray
}.

Definition EncryptFn : Type := Uint8Array -> M World Uint8Array.

(** A method runs on [this] and the world. *)
Definition Self : Type := (PDFSecurity * World)%type.

Definition liftW {A} (m : M World A) : M Self A :=
  fun s => let '(r, w') := m (snd s) in (r, (fst s, w')).

Definition this_set_id (v : Uint8Array) : M Self unit :=
  modify (fun s : Self =>
            let t := fst s in
            (mkPDFSecurity (context_header t) (Some v) (encryption t) (keyBits t)
                           (encryptionKey t), snd s)).
Definition this_set_encryption (v : Encryption) : M Self unit :=
  modify (fun s : Self =>
            let t := fst s in
            (mkPDFSecurity (context_header t) (id t) (Some v) (keyBits t)
                           (encryptionKey t), snd s)).
Definition this_set_keyBits (v : Z) : M Self unit :=
  modify (fun s : Self =>
            let t := fst s in
            (mkPDFSecurity (context_header t) (id t) (encryption t) (Some v)
                           (encryptionKey t), snd s)).
Definition this_set_encryptionKey (v : WordArray) : M Self unit :=
  modify (fun s : Self =>
            let t := fst s in
            (mkPDFSecurity (context_header t) (id t) (encryption t) (keyBits t)
                           (Some v), snd s)).

(** A read of a field of [this] at a place where the code uses it as set;
    on an unset field the run stops with [TypeError].  No such read of a
    constructor run meets an unset field. *)
Definition this_get {A} (field : PDFSecurity -> option A) : M Self A :=
  fun s => match field (fst s) with
           | Some a => (Ok a, s)
           | None => (Throw TypeError, s)
           end.

Section Handler.

Variable MD5 : WordArray -> WordArray.
Variable SHA256 : WordArray -> WordArray.
Variable RC4_encrypt : WordArray -> WordArray -> WordArray.
Variable AES_encrypt : WordArray -> WordArray -> CipherOptions -> WordArray.

Local Open Scope js_scope.

Definition initializeV1V2V4 (v : Z) (options : SecurityOptions) : M Self Encryption :=
  rp <- (if v =? 1 then
           this_set_keyBits 40 ;;;
           ret (2, getPermissionsR2 (permissions options))
         else if v =? 2 then
           this_set_keyBits 128 ;;;
           ret (3, getPermissionsR3 (permissions options))
         else if v =? 4 then
           this_set_keyBits 128 ;;;
           ret (4, getPermissionsR3 (permissions options))
         else throw (UnsupportedAlgorithm v)) ;;
  let r := fst rp in
  let permissions := snd rp in
  paddedUserPassword <- liftR (processPasswordR2R3R4 (userPassword options)) ;;
  paddedOwnerPassword <-
    (if JS.truthy_string (ownerPassword options)
     then liftR (processPasswordR2R3R4 (ownerPassword options))
     else ret paddedUserPassword) ;;
  this_keyBits <- this_get keyBits ;;
  let ownerPasswordEntry :=
    getOwnerPasswordR2R3R4 MD5 RC4_encrypt r this_keyBits
                           paddedUserPassword paddedOwnerPassword in
  this_id <- this_get id ;;
  this_set_encryptionKey
    (getEncryptionKeyR2R3R4 MD5 r this_keyBits this_id paddedUserPassword
                            ownerPasswordEntry permissions) ;;;
  this_encryptionKey <- this_get encryptionKey ;;
  userPasswordEntry <-
    (if r =? 2
     then liftR (getUserPasswordR2 RC4_encrypt this_encryptionKey)
     else liftR (getUserPasswordR3R4 MD5 RC4_encrypt this_id this_encryptionKey)) ;;
  ret (mkEncryption
         v r
         (wordArrayToBuffer ownerPasswordEntry)
         (wordArrayToBuffer userPasswordEntry)
         permissions
         (JS.lit "Standard")
         (if v >=? 2 then Some this_keyBits else None)
         (if v =? 4
          then Some (mkStdCF (JS.lit "DocOpen") AESV2 (this_keyBits / 8))
          else None)
         (if v =? 4 then Some (JS.lit "StdCF") else None)
         (if v =? 4 then Some (JS.lit "StdCF") else None)
         None None None).

Definition initializeV5 (options : SecurityOptions) : M Self Encryption :=
  this_set_keyBits 256 ;;;
  key <- liftW (getEncryptionKeyR5 generateRandomWordArray) ;;
  this_set_encryptionKey key ;;;
  let processedUserPassword := processPasswordR5 (userPassword options) in
  userPasswordEntry <-
    liftW (getUserPasswordR5 SHA256 processedUserPassword generateRandomWordArray) ;;
  let userKeySalt :=
    WordArray.create (WordArray.slice (words userPasswordEntry) 10 12) 8 in
  this_encryptionKey <- this_get encryptionKey ;;
  let userEncryptionKeyEntry :=
    getUserEncryptionKeyR5 SHA256 AES_encrypt processedUserPassword userKeySalt
                           this_encryptionKey in
  let processedOwnerPassword :=
    if JS.truthy_string (ownerPassword options)
    then processPasswordR5 (ownerPassword options)
    else processedUserPassword in
  ownerPasswordEntry <-
    liftW (getOwnerPasswordR5 SHA256 processedOwnerPassword userPasswordEntry
                              generateRandomWordArray) ;;
  let ownerKeySalt :=
    WordArray.create (WordArray.slice (words ownerPasswordEntry) 10 12) 8 in
  let ownerEncryptionKeyEntry :=
    getOwnerEncryptionKeyR5 SHA256 AES_encrypt processedOwnerPassword ownerKeySalt
                            userPasswordEntry this_encryptionKey in
  let permissions := getPermissionsR3 (permissions options) in
  permissionsEntry <-
    liftW (getEncryptedPermissionsR5 AES_encrypt permissions this_encryptionKey
                                     generateRandomWordArray) ;;
  this_keyBits <- this_get keyBits ;;
  ret (mkEncryption
         5 5
         (wordArrayToBuffer ownerPasswordEntry)
         (wordArrayToBuffer userPasswordEntry)
         permissions
         (JS.lit "Standard")
         (Some this_keyBits)
         (Some (mkStdCF (JS.lit "DocOpen") AESV3 (this_keyBits / 8)))
         (Some (JS.lit "StdCF"))
         (Some (JS.lit "StdCF"))
         (Some (wordArrayToBuffer ownerEncryptionKeyEntry))
         (Some (wordArrayToBuffer userEncryptionKeyEntry))
         (Some (wordArrayToBuffer permissionsEntry))).

Definition initialize (options : SecurityOptions) : M Self unit :=
  fileId <- liftW (generateFileID MD5) ;;
  this_set_id fileId ;;;
  s <- get ;;
  let version := getVersionString (context_header (fst s)) in
  let v :=
    if jsstring_eqb version (JS.lit "1.4") || jsstring_eqb version (JS.lit "1.5")
    then 2
    else if jsstring_eqb version (JS.lit "1.6") || jsstring_eqb version (JS.lit "1.7")
    then 4
    else if jsstring_eqb version (JS.lit "1.7ext3")
    then 5
    else 1 in
  if (v =? 1) || (v =? 2) || (v =? 4) then
    e <- initializeV1V2V4 v options ;;
    this_set_encryption e
  else if v =? 5 then
    e <- initializeV5 options ;;
    this_set_encryption e
  else ret tt.

Definition constructor (header : PDFHeader) (options : SecurityOptions)
  : M Self unit :=
  if negb (JS.truthy_string (ownerPassword options))
     && negb (JS.truthy_string (userPassword options))
  then throw ConfigurationError
  else
    modify (fun s : Self =>
              let t := fst s in
              (mkPDFSecurity header (id t) (encryption t) (keyBits t)
                             (encryptionKey t), snd s)) ;;;
    initialize options.

(** [new PDFSecurity(context, options)]: the constructor runs on a fresh
    object, and the caller receives the object only if it returns. *)
Definition PDFSecurity_create (header : PDFHeader) (options : SecurityOptions)
  : M World PDFSecurity :=
  fun w =>
    let fresh := mkPDFSecurity header None None None None in
    match constructor header options (fresh, w) with
    | (Ok _, (this, w')) => (Ok this, w')
    | (Throw e, (_, w')) => (Throw e, w')
    end.

Definition getEncryptFn (obj gen : Z) : M Self EncryptFn :=
  this_encryption <- this_get encryption ;;
  let v := V this_encryption in
  let aes (key : option WordArray) : M Self EncryptFn :=
    iv <- liftW (generateRandomWordArray 16%nat) ;;
    let options := mkCipherOptions CBC Pkcs7 (Some iv) in
    ret (fun buffer : Uint8Array =>
           match key with
           | None => throw TypeError
           | Some key =>
               ret (wordArrayToBuffer
                      (WordArray.concat
                         (WordArray.clone iv)
                         (AES_encrypt (WordArray.ofUint8Array buffer) key options)))
           end) in
  if v <? 5 then
    this_encryptionKey <- this_get encryptionKey ;;
    let digest :=
      WordArray.concat
        (WordArray.clone this_encryptionKey)
        (WordArray.create
           [ JS.bor (JS.bor (JS.bor (JS.shl (JS.band obj 0xff) 24)
                                    (JS.shl (JS.band obj 0xff00) 8))
                            (JS.band (JS.shr obj 8) 0xff00))
                    (JS.band gen 0xff);
             JS.shl (JS.band gen 0xff00) 16 ]
           5) in
    if (v =? 1) || (v =? 2) then
      this_keyBits <- this_get keyBits ;;
      let key := MD5 digest in
      let key := WordArray.withSigBytes key
                   (Z.to_nat (Z.min 16 (this_keyBits / 8 + 5))) in
      ret (fun buffer : Uint8Array =>
             ret (wordArrayToBuffer
                    (RC4_encrypt (WordArray.ofUint8Array buffer) key)))
    else
      let key :=
        if v =? 4
        then Some (MD5 (WordArray.concat digest
                                         (WordArray.create [0x73416c54] 4)))
        else None in
      aes key
  else if v =? 5 then
    s <- get ;;
    aes (encryptionKey (fst s))
  else throw (UnsupportedAlgorithm v).

End Handler.

(* ================================================================== *)
(** * Histories of an object graph *)
(* ================================================================== *)

Section GraphHistory.

Variable number : Type.
Variable byteArrayToHexString : list Z -> JS.jsstring.

(** The calls a client makes on a graph. *)
Inductive GraphOp : Type :=
| OpAssign (ref : PDFRef) (object : PDFObject number)
| OpRegister (object : PDFObject number)
| OpNextRef
| OpDelete (ref : PDFRef)
| OpPushGraphicsState
| OpPopGraphicsState.

Local Open Scope js_scope.

(** One call; its value is the list of references it handed out or
    assigned. *)
Definition call (op : GraphOp) : M (PDFContext number) (list PDFRef) :=
  match op with
  | OpAssign ref object => assign ref object ;;; ret [ref]
  | OpRegister object => ref <- register object ;; ret [ref]
  | OpNextRef => ref <- nextRef ;; ret [ref]
  | OpDelete ref => delete ref ;;; ret []
  | OpPushGraphicsState =>
      ref <- getPushGraphicsStateContentStream byteArrayToHexString ;; ret [ref]
  | OpPopGraphicsState =>
      ref <- getPopGraphicsStateContentStream byteArrayToHexString ;; ret [ref]
  end.

(** The graph a call leaves, and the references it gave. *)
Definition after (op : GraphOp) (c : PDFContext number) : PDFContext number :=
  snd (call op c).

Definition handedOut (op : GraphOp) (c : PDFContext number) : list PDFRef :=
  match fst (call op c) with
  | Ok refs => refs
  | Throw _ => []
  end.

(** The graph after a history, and every reference seen along it. *)
Fixpoint history (ops : list GraphOp) (c : PDFContext number)
  : list PDFRef * PDFContext number :=
  match ops with
  | [] => ([], c)
  | op :: rest =>
      let '(refs, c') := history rest (after op c) in
      (handedOut op c ++ refs, c')
  end.

(** The number of objects the calls of [which] added along a history. *)
Fixpoint objectsAddedBy (which : GraphOp -> bool) (ops : list GraphOp)
         (c : PDFContext number) : nat :=
  match ops with
  | [] => 0%nat
  | op :: rest =>
      ((if which op
        then length (indirectObjects (after op c)) - length (indirectObjects c)
        else 0) + objectsAddedBy which rest (after op c))%nat
  end.

(** A graph filled by assignments made in the order of the list. *)
Definition assignAll (entries : list (PDFRef * PDFObject number))
           (c : PDFContext number) : PDFContext number :=
  fold_left (fun c e => snd (assign (fst e) (snd e) c)) entries c.

(** The requests for one of the two bracket content streams. *)
Definition isPushGraphicsState (op : GraphOp) : bool :=
  match op with OpPushGraphicsState => true | _ => false end.
Definition isPopGraphicsState (op : GraphOp) : bool :=
  match op with OpPopGraphicsState => true | _ => false end.

(** The keys of a literal object are pairwise different. *)
Fixpoint distinctKeys (keys : list JS.jsstring) : bool :=
  match keys with
  | [] => true
  | k :: rest => negb (existsb (jsstring_eqb k) rest) && distinctKeys rest
  end.

(** The keys are in the order in which an object lists its own keys: the
    array indices first, ascending, then the other keys. *)
Fixpoint ownKeysOrdered (keys : list JS.jsstring) : bool :=
  match keys with
  | [] => true
  | k :: rest =>
      forallb (fun k' =>
                 match JS.arrayIndex k, JS.arrayIndex k' with
                 | Some i, Some j => i <? j
                 | Some _, None => true
                 | None, Some _ => false
                 | None, None => true
                 end) rest
      && ownKeysOrdered rest
  end.

(** The native literals: null, strings, numbers, booleans, ordered lists
    and keyed maps of them, and byte arrays when [withBytes] is set.  The
    keys of a keyed map are pairwise different and listed as an object
    lists them. *)
Fixpoint nativeLiteral (withBytes : bool) (l : Literal number) : bool :=
  match l with
  | LNull | LString _ | LNumber _ | LBoolean _ => true
  | LUint8Array _ => withBytes
  | LUndefined | LPDFObject _ => false
  | LArray items => forallb (nativeLiteral withBytes) items
  | LObject props =>
      distinctKeys (map fst props)
      && ownKeysOrdered (map fst props)
      && forallb (fun kv => nativeLiteral withBytes (snd kv)) props
  end.

(** Some keyed map of the literal, at any depth, has an own property named
    ['__proto__']. *)
Fixpoint hasProtoKey (l : Literal number) : bool :=
  match l with
  | LArray items => existsb hasProtoKey items
  | LObject props =>
      existsb (fun kv => jsstring_eqb (fst kv) (JS.lit "__proto__")
                         || hasProtoKey (snd kv)) props
  | _ => false
  end.

(** ** Vocabulary of the graph properties *)

(** The two bracket content streams: an empty dictionary and the one
    operator. *)
Definition pushStream : PDFObject number :=
  PDFContentStream (PDFDict []) [mkPDFOperator PushGraphicsState].
Definition popStream : PDFObject number :=
  PDFContentStream (PDFDict []) [mkPDFOperator PopGraphicsState].

(** Every key of the map, and the two memoized references, are at most the
    counter. *)
Definition bounded (c : PDFContext number) : Prop :=
  Forall (fun e => objectNumber (fst e) <= largestObjectNumber c) (indirectObjects c) /\
  (forall r, pushGraphicsStateContentStreamRef c = Some r ->
             objectNumber r <= largestObjectNumber c) /\
  (forall r, popGraphicsStateContentStreamRef c = Some r ->
             objectNumber r <= largestObjectNumber c) /\
  0 <= largestObjectNumber c.

(** Object numbers never decrease along the list. *)
Definition ascending (l : list (PDFRef * PDFObject number)) : Prop :=
  StronglySorted (fun a b => objectNumber (fst a) <= objectNumber (fst b)) l.

(** The entries of the map, as a result of [enumerateIndirectObjects]. *)
Definition enumerated (c : PDFContext number) : list (PDFRef * PDFObject number) :=
  match fst (enumerateIndirectObjects c) with
  | Ok entries => entries
  | Throw _ => []
  end.

End GraphHistory.

Arguments OpAssign {number}.
Arguments OpRegister {number}.
Arguments OpNextRef {number}.
Arguments OpDelete {number}.
Arguments OpPushGraphicsState {number}.
Arguments OpPopGraphicsState {number}.
Arguments call {number}.
Arguments after {number}.
Arguments handedOut {number}.
Arguments history {number}.
Arguments objectsAddedBy {number}.
Arguments assignAll {number}.
Arguments isPushGraphicsState {number}.
Arguments isPopGraphicsState {number}.
Arguments nativeLiteral {number}.
Arguments hasProtoKey {number}.
Arguments pushStream {number}.
Arguments bounded {number}.
Arguments ascending {number}.
Arguments enumerated {number}.
Arguments popStream {number}.

(* ================================================================== *)
(** * Vocabulary of the properties *)
(* ================================================================== *)

(** The input of the specification's example:
    [{printing: 'highResolution', modifying: true}]. *)
Definition highResolutionModifying : option UserPermissions :=
  Some (mkUserPermissions (Some HighResolution) (Some true) None None None None None).

(** The mask of revision 3 and later is the base mask with the granted
    permission bits added; nothing else of the input reaches it. *)
Definition grantedR3 (p : UserPermissions) : Z :=
  Z.lor (if truthy_printing (printing p) then 0x004 else 0)
  (Z.lor (if is_highResolution (printing p) then 0x800 else 0)
  (Z.lor (if JS.truthy_bool (modifying p) then 0x008 else 0)
  (Z.lor (if JS.truthy_bool (copying p) then 0x010 else 0)
  (Z.lor (if JS.truthy_bool (annotating p) then 0x020 else 0)
  (Z.lor (if JS.truthy_bool (fillingForms p) then 0x100 else 0)
  (Z.lor (if JS.truthy_bool (contentAccessibility p) then 0x200 else 0)
         (if JS.truthy_bool (documentAssembly p) then 0x400 else 0))))))).

(** A bit of the revision-3 mask is reserved when no permission input
    changes it; the other bits are the permission bits. *)
Definition reservedR3 (b : Z) : Prop :=
  forall p q : option UserPermissions,
    pdfBit (getPermissionsR3 p) b = pdfBit (getPermissionsR3 q) b.

(** The mask as the specification describes it: bits 3, 13 and 4 set, every
    other permission bit clear, every reserved bit 1. *)
Definition mask_as_specified (P : Z) : Prop :=
  pdfBit P 3 = true /\ pdfBit P 13 = true /\ pdfBit P 4 = true /\
  (forall b, 1 <= b <= 32 -> ~ reservedR3 b ->
             b <> 3 -> b <> 13 -> b <> 4 -> pdfBit P b = false) /\
  (forall b, 1 <= b <= 32 -> reservedR3 b -> pdfBit P b = true).

(** A code unit that does not fit one byte. *)
Definition invalidCharacter (c : Z) : bool := c >? 0xff.

(** The bytes of a legacy padded password: the low bytes of the first 32
    characters, then the padding constant from its start, 32 in all. *)
Definition paddedPassword (password : JS.jsstring) : Uint8Array :=
  firstn 32 (map JS.toUint8 password ++ PASSWORD_PADDING).

(** The word array [WordArray.random(nBytes)] returns in a world, and the
    world it leaves. *)
Definition drawnWords (nBytes : nat) (w : World) : WordArray :=
  mkWordArray (map (fun k => JS.ToInt32 (entropy w k))
                   (seq (drawn w) (WordArray.ceil4 nBytes))) nBytes.

(** The world once [nBytes] random bytes were drawn, whole words at a
    time. *)
Definition afterDraw (nBytes : nat) (w : World) : World :=
  mkWorld (now w) (entropy w) (drawn w + WordArray.ceil4 nBytes).

(** The world after the constructor of a revision-5 handler: 32 bytes of
    file key, two salts for each of U and O, four bytes for Perms. *)
Definition afterV5 (w : World) : World :=
  afterDraw 4 (afterDraw 8 (afterDraw 8 (afterDraw 8 (afterDraw 8 (afterDraw 32 w))))).

(** The algorithm [initialize] selects for a format version. *)
Definition algorithmFor (version : JS.jsstring) : Z :=
  if jsstring_eqb version (JS.lit "1.4") || jsstring_eqb version (JS.lit "1.5")
  then 2
  else if jsstring_eqb version (JS.lit "1.6") || jsstring_eqb version (JS.lit "1.7")
  then 4
  else if jsstring_eqb version (JS.lit "1.7ext3")
  then 5
  else 1.

(** The revision and key length [initializeV1V2V4] pairs with an
    algorithm. *)
Definition revisionFor (v : Z) : Z := if v =? 1 then 2 else if v =? 2 then 3 else 4.
Definition keyBitsFor (v : Z) : Z := if v =? 1 then 40 else 128.

(** The guard of the constructor: one of the two passwords is a non-empty
    string. *)
Definition passwordSupplied (options : SecurityOptions) : bool :=
  JS.truthy_string (ownerPassword options) || JS.truthy_string (userPassword options).

(** Every field the class declares as set is set. *)
Definition initialized (h : PDFSecurity) : Prop :=
  id h <> None /\ encryption h <> None /\ keyBits h <> None /\ encryptionKey h <> None.

(** The digest input of the legacy algorithms: the file key followed by
    the low three bytes of the object number and the low two bytes of the
    generation. *)
Definition objectDigest (key : WordArray) (obj gen : Z) : WordArray :=
  WordArray.concat
    (WordArray.clone key)
    (WordArray.create
       [ JS.bor (JS.bor (JS.bor (JS.shl (JS.band obj 0xff) 24)
                                (JS.shl (JS.band obj 0xff00) 8))
                        (JS.band (JS.shr obj 8) 0xff00))
                (JS.band gen 0xff);
         JS.shl (JS.band gen 0xff00) 16 ]
       5).

Section HandlerVocabulary.

Variable MD5 : WordArray -> WordArray.
Variable SHA256 : WordArray -> WordArray.
Variable RC4_encrypt : WordArray -> WordArray -> WordArray.
Variable AES_encrypt : WordArray -> WordArray -> CipherOptions -> WordArray.

(** What the length claims need of the library: a SHA-256 digest has 32
    bytes, and AES without padding returns as many bytes as it is given
    when they are whole blocks. *)
Definition SHA256_digest_size : Prop :=
  forall m, sigBytes (SHA256 m) = 32%nat.

Definition AES_NoPadding_size : Prop :=
  forall m key options,
    padding options = NoPadding -> Nat.modulo (sigBytes m) 16 = 0%nat ->
    sigBytes (AES_encrypt m key options) = sigBytes m.

(** What [initializeV1V2V4] derives, as a function of the algorithm, the
    options and the file identifier: the dictionary and the encryption
    key. *)
Definition legacyDerivation (v : Z) (options : SecurityOptions)
           (fileId : Uint8Array) : Result (Encryption * WordArray) :=
  match processPasswordR2R3R4 (userPassword options) with
  | Throw e => Throw e
  | Ok paddedUserPassword =>
      match (if JS.truthy_string (ownerPassword options)
             then processPasswordR2R3R4 (ownerPassword options)
             else Ok paddedUserPassword) with
      | Throw e => Throw e
      | Ok paddedOwnerPassword =>
          let r := revisionFor v in
          let bits := keyBitsFor v in
          let perms := if v =? 1 then getPermissionsR2 (permissions options)
                       else getPermissionsR3 (permissions options) in
          let o := getOwnerPasswordR2R3R4 MD5 RC4_encrypt r bits
                                          paddedUserPassword paddedOwnerPassword in
          let key := getEncryptionKeyR2R3R4 MD5 r bits fileId paddedUserPassword
                                            o perms in
          match (if r =? 2 then getUserPasswordR2 RC4_encrypt key
                 else getUserPasswordR3R4 MD5 RC4_encrypt fileId key) with
          | Throw e => Throw e
          | Ok u =>
              Ok (mkEncryption v r (wordArrayToBuffer o) (wordArrayToBuffer u)
                               perms (JS.lit "Standard")
                               (if v >=? 2 then Some bits else None)
                               (if v =? 4
                                then Some (mkStdCF (JS.lit "DocOpen") AESV2 (bits / 8))
                                else None)
                               (if v =? 4 then Some (JS.lit "StdCF") else None)
                               (if v =? 4 then Some (JS.lit "StdCF") else None)
                               None None None,
                  key)
          end
      end
  end.

(** The file identifier computed in a world: the MD5 digest of the text of
    the clock reading. *)
Definition fileIdAt (w : World) : Uint8Array :=
  wordArrayToBuffer (MD5 (WordArray.Utf8_parse (Number_toString (now w)))).

(** The AES key of an object: for V = 4 the MD5 digest of the digest input
    and the salt "sAlT", for V = 5 the file key itself. *)
Definition aesKey (v : Z) (key : WordArray) (obj gen : Z) : WordArray :=
  if v =? 4
  then MD5 (WordArray.concat (objectDigest key obj gen)
                             (WordArray.create [0x73416c54] 4))
  else key.

(** The closure of the AES paths for a key and an initialization vector:
    it reads neither the clock nor the random source. *)
Definition aesClosure (key iv : WordArray) : EncryptFn :=
  fun buffer : Uint8Array =>
    ret (wordArrayToBuffer
           (WordArray.concat
              (WordArray.clone iv)
              (AES_encrypt (WordArray.ofUint8Array buffer) key
                           (mkCipherOptions CBC Pkcs7 (Some iv))))).

End HandlerVocabulary.

(* ================================================================== *)
(** * Instances for concrete examples *)
(* ================================================================== *)

(** A hexadecimal text of a byte array: two upper-case digits per byte. *)
Definition hexDigit (d : Z) : Z := if d <? 10 then 48 + d else 55 + d.

Definition hexOfBytes (bytes : list Z) : JS.jsstring :=
  flat_map (fun b => [hexDigit (b / 16); hexDigit (b mod 16)]) bytes.

(** The literal [{Dictionary: {Array: [true, null]}, Number: 3, Name: 'Foo'}],
    with integers for numbers. *)
Definition sampleLiteral : Literal Z :=
  LObject
    [ (JS.lit "Dictionary",
       LObject [ (JS.lit "Array", LArray [LBoolean true; LNull]) ]);
      (JS.lit "Number", LNumber 3);
      (JS.lit "Name", LString (JS.lit "Foo")) ].

(** A graph in which one object has been assigned the number 2^53, the
    first integer whose successor is not a number. *)
Definition sampleGraphAtLimit : PDFContext Z :=
  snd (history hexOfBytes [OpAssign (PDFRef_of (2 ^ 53)) PDFNull]
               PDFContext_create).

(** A graph in which one object has been assigned the number 7 and another
    was registered after it. *)
Definition sampleGraph : PDFContext Z :=
  snd (history hexOfBytes [OpAssign (PDFRef_of 7) PDFNull; OpRegister PDFNull]
               PDFContext_create).

(** ** MD5 and RC4

    The two functions of the crypto library that the legacy path uses, on
    the significant bytes of their arguments: MD5 after RFC 1321 and the
    RC4 stream cipher.  The properties of the handler are proved for
    arbitrary functions; these are what the library computes, for
    examples with concrete bytes. *)

Module CryptoJS.

Definition mask32 (x : Z) : Z := x mod 2 ^ 32.

Definition rotl32 (x s : Z) : Z :=
  mask32 (Z.lor (Z.shiftl x s) (Z.shiftr x (32 - s))).

Definition not32 (x : Z) : Z := Z.lxor x 0xffffffff.

(** floor(2^32 * |sin(i + 1)|) *)
Definition T : list Z :=
  [ 0xd76aa478; 0xe8c7b756; 0x242070db; 0xc1bdceee; 0xf57c0faf; 0x4787c62a;
    0xa8304613; 0xfd469501; 0x698098d8; 0x8b44f7af; 0xffff5bb1; 0x895cd7be;
    0x6b901122; 0xfd987193; 0xa679438e; 0x49b40821; 0xf61e2562; 0xc040b340;
    0x265e5a51; 0xe9b6c7aa; 0xd62f105d; 0x02441453; 0xd8a1e681; 0xe7d3fbc8;
    0x21e1cde6; 0xc33707d6; 0xf4d50d87; 0x455a14ed; 0xa9e3e905; 0xfcefa3f8;
    0x676f02d9; 0x8d2a4c8a; 0xfffa3942; 0x8771f681; 0x6d9d6122; 0xfde5380c;
    0xa4beea44; 0x4bdecfa9; 0xf6bb4b60; 0xbebfbc70; 0x289b7ec6; 0xeaa127fa;
    0xd4ef3085; 0x04881d05; 0xd9d4d039; 0xe6db99e5; 0x1fa27cf8; 0xc4ac5665;
    0xf4292244; 0x432aff97; 0xab9423a7; 0xfc93a039; 0x655b59c3; 0x8f0ccc92;
    0xffeff47d; 0x85845dd1; 0x6fa87e4f; 0xfe2ce6e0; 0xa3014314; 0x4e0811a1;
    0xf7537e82; 0xbd3af235; 0x2ad7d2bb; 0xeb86d391 ].

Definition shifts : list Z :=
  [ 7; 12; 17; 22; 7; 12; 17; 22; 7; 12; 17; 22; 7; 12; 17; 22;
    5; 9; 14; 20; 5; 9; 14; 20; 5; 9; 14; 20; 5; 9; 14; 20;
    4; 11; 16; 23; 4; 11; 16; 23; 4; 11; 16; 23; 4; 11; 16; 23;
    6; 10; 15; 21; 6; 10; 15; 21; 6; 10; 15; 21; 6; 10; 15; 21 ].

(** Little-endian words of a block of bytes. *)
Fixpoint wordsLE (bytes : list Z) : list Z :=
  match bytes with
  | b0 :: b1 :: b2 :: b3 :: rest =>
      (b0 + b1 * 2 ^ 8 + b2 * 2 ^ 16 + b3 * 2 ^ 24) :: wordsLE rest
  | _ => []
  end.

Definition bytesLE (n : nat) (x : Z) : list Z :=
  map (fun k => (x / 2 ^ (8 * Z.of_nat k)) mod 256) (seq 0 n).

Definition md5Step (M : list Z) (st : Z * Z * Z * Z) (i : nat) : Z * Z * Z * Z :=
  let '(a, b, c, d) := st in
  let '(f, g) :=
    match Nat.div i 16 with
    | 0%nat => (Z.lor (Z.land b c) (Z.land (not32 b) d), i)
    | 1%nat => (Z.lor (Z.land d b) (Z.land (not32 d) c), Nat.modulo (5 * i + 1) 16)
    | 2%nat => (Z.lxor (Z.lxor b c) d, Nat.modulo (3 * i + 5) 16)
    | _ => (Z.lxor c (Z.lor b (not32 d)), Nat.modulo (7 * i) 16)
    end in
  let f := mask32 (f + a + nth i T 0 + nth g M 0) in
  (d, mask32 (b + rotl32 f (nth i shifts 0)), b, c).

Definition md5Block (st : Z * Z * Z * Z) (block : list Z) : Z * Z * Z * Z :=
  let '(a0, b0, c0, d0) := st in
  let '(a, b, c, d) := fold_left (md5Step (wordsLE block)) (seq 0 64) st in
  (mask32 (a0 + a), mask32 (b0 + b), mask32 (c0 + c), mask32 (d0 + d)).

Fixpoint md5Blocks (n : nat) (st : Z * Z * Z * Z) (bytes : list Z) : Z * Z * Z * Z :=
  match n with
  | 0%nat => st
  | S m => md5Blocks m (md5Block st (firstn 64 bytes)) (skipn 64 bytes)
  end.

Definition md5Pad (message : list Z) : list Z :=
  let len := length message in
  message ++ [0x80]
          ++ repeat 0 (Nat.modulo (119 - Nat.modulo len 64) 64)
          ++ bytesLE 8 (8 * Z.of_nat len).

Definition md5 (message : list Z) : list Z :=
  let padded := md5Pad message in
  let '(a, b, c, d) :=
    md5Blocks (Nat.div (length padded) 64)
              (0x67452301, 0xefcdab89, 0x98badcfe, 0x10325476) padded in
  bytesLE 4 a ++ bytesLE 4 b ++ bytesLE 4 c ++ bytesLE 4 d.

(** The bytes of a word array, as [wordArrayToBuffer] reads them. *)
Definition bytesOf (w : WordArray) : list Z := wordArrayToBuffer w.

(** [CryptoJS.MD5(message)] *)
Definition MD5 (message : WordArray) : WordArray :=
  WordArray.ofUint8Array (md5 (bytesOf message)).

Definition swap (sbox : list Z) (i j : nat) : list Z :=
  let si := nth i sbox 0 in
  let sj := nth j sbox 0 in
  JS.store (JS.store sbox i sj) j si.

(** Key scheduling. *)
Definition rc4Init (key : list Z) : list Z :=
  let keyLength := length key in
  snd (fold_left
         (fun js i =>
            let '(j, sbox) := js in
            let j := Nat.modulo
                       (j + Z.to_nat (nth i sbox 0)
                        + Z.to_nat (nth (Nat.modulo i keyLength) key 0)) 256 in
            (j, swap sbox i j))
         (seq 0 256) (0%nat, map Z.of_nat (seq 0 256))).

(** The key stream, xored onto the message. *)
Fixpoint rc4Stream (sbox : list Z) (i j : nat) (message : list Z) : list Z :=
  match message with
  | [] => []
  | m :: rest =>
      let i := Nat.modulo (i + 1) 256 in
      let j := Nat.modulo (j + Z.to_nat (nth i sbox 0)) 256 in
      let sbox := swap sbox i j in
      let k := nth (Nat.modulo (Z.to_nat (nth i sbox 0) + Z.to_nat (nth j sbox 0)) 256)
                   sbox 0 in
      Z.lxor m k :: rc4Stream sbox i j rest
  end.

Definition rc4 (key message : list Z) : list Z :=
  rc4Stream (rc4Init key) 0 0 message.

(** [CryptoJS.RC4.encrypt(message, key).ciphertext] *)
Definition RC4_encrypt (message key : WordArray) : WordArray :=
  WordArray.ofUint8Array (rc4 (bytesOf key) (bytesOf message)).

(** Stand-ins of the right sizes for the two functions of the revision-5
    path, where only sizes matter: a 32-byte digest made of the first
    bytes of the message, and a cipher that returns its input. *)
Definition digest32 (message : WordArray) : WordArray :=
  WordArray.ofUint8Array (firstn 32 (bytesOf message ++ repeat 0 32)).

Definition identityCipher (message key : WordArray) (options : CipherOptions)
  : WordArray := message.

End CryptoJS.

(** ** Sample inputs *)

(** [{userPassword: 'foo'}] *)
Definition sampleOptions : SecurityOptions :=
  mkSecurityOptions None (Some (JS.lit "foo")) None.

(** [{userPassword: ''}] *)
Definition emptyUserPassword : SecurityOptions :=
  mkSecurityOptions None (Some []) None.

(** A world whose clock reads [t] and whose random source yields the words
    0, 1, 2, ... *)
Definition sampleWorld (t : Z) : World := mkWorld t (fun k => Z.of_nat k) 0.

(** A handler of the revision-5 path: the one constructed from
    [sampleOptions] for the version "1.7ext3" in [sampleWorld 0], with the
    stand-ins for SHA-256 and AES. *)
Definition sampleHandlerV5 : PDFSecurity :=
  Eval vm_compute in
    match fst (PDFSecurity_create CryptoJS.MD5 CryptoJS.digest32
                                  CryptoJS.RC4_encrypt CryptoJS.identityCipher
                                  (mkPDFHeader (JS.lit "1.7ext3"))
                                  sampleOptions (sampleWorld 0)) with
    | Ok h => h
    | Throw _ => mkPDFSecurity (mkPDFHeader []) None None None None
    end.

Definition sampleEncryptionV5 : Encryption :=
  Eval vm_compute in
    match encryption sampleHandlerV5 with
    | Some e => e
    | None => mkEncryption 0 0 [] [] 0 [] None None None None None None None
    end.

Definition sampleKeyV5 : WordArray :=
  Eval vm_compute in
    match encryptionKey sampleHandlerV5 with
    | Some k => k
    | None => mkWordArray [] 0
    end.

(** The handlers constructed from [sampleOptions] for the version "1.7",
    with the library's MD5 and RC4, when the clock reads 0 and when it
    reads 1. *)
Definition sampleHandlerR4_at0 : PDFSecurity :=
  Eval vm_compute in
    match fst (PDFSecurity_create CryptoJS.MD5 CryptoJS.digest32
                                  CryptoJS.RC4_encrypt CryptoJS.identityCipher
                                  (mkPDFHeader (JS.lit "1.7"))
                                  sampleOptions (sampleWorld 0)) with
    | Ok h => h
    | Throw _ => mkPDFSecurity (mkPDFHeader []) None None None None
    end.

Definition sampleHandlerR4_at1 : PDFSecurity :=
  Eval vm_compute in
    match fst (PDFSecurity_create CryptoJS.MD5 CryptoJS.digest32
                                  CryptoJS.RC4_encrypt CryptoJS.identityCipher
                                  (mkPDFHeader (JS.lit "1.7"))
                                  sampleOptions (sampleWorld 1)) with
    | Ok h => h
    | Throw _ => mkPDFSecurity (mkPDFHeader []) None None None None
    end.

(** The U entry and the encryption key of a handler, as bytes. *)
Definition entryU (h : PDFSecurity) : Uint8Array :=
  match encryption h with Some e => U e | None => [] end.
Definition entryO (h : PDFSecurity) : Uint8Array :=
  match encryption h with Some e => O e | None => [] end.
Definition keyBytes (h : PDFSecurity) : Uint8Array :=
  match encryptionKey h with Some k => wordArrayToBuffer k | None => [] end.


(* ================================================================== *)
(** * PDFContext.ts: typed lookups *)
(* ================================================================== *)

(** The classes a lookup can be asked for, as the overloads of [lookup] and
    [lookupMaybe] list them.  [typeof_PDFNull] is the single instance
    [PDFNull], which the two methods compare by identity. *)
Inductive PDFType : Type :=
| typeof_PDFArray
| typeof_PDFBool
| typeof_PDFDict
| typeof_PDFHexString
| typeof_PDFName
| typeof_PDFNull
| typeof_PDFNumber
| typeof_PDFStream
| typeof_PDFRef
| typeof_PDFString.

(** [type === PDFNull] *)
Definition is_typeof_PDFNull (type : PDFType) : bool :=
  match type with typeof_PDFNull => true | _ => false end.

Section Lookup.

Variable number : Type.

(** Modelled from the spec: [result instanceof type] for the object classes
    (objects/*.ts, not among the sources): each variant is an instance of
    its own class, and both kinds of stream are instances of [PDFStream].
    [undefined] is an instance of nothing. *)
Definition instanceof (result : option (PDFObject number)) (type : PDFType) : bool :=
  match result with
  | None => false
  | Some o =>
      match type, o with
      | typeof_PDFArray, PDFArray _ => true
      | typeof_PDFBool, PDFBool _ => true
      | typeof_PDFDict, PDFDict _ => true
      | typeof_PDFHexString, PDFHexString _ => true
      | typeof_PDFName, PDFName _ => true
      | typeof_PDFNumber, PDFNumber _ => true
      | typeof_PDFStream, PDFRawStream _ _ => true
      | typeof_PDFStream, PDFContentStream _ _ => true
      | typeof_PDFRef, PDFRefObject _ => true
      | typeof_PDFString, PDFString _ => true
      | _, _ => false
      end
  end.

(** [result === PDFNull] *)
Definition is_PDFNull (result : option (PDFObject number)) : bool :=
  match result with Some PDFNull => true | _ => false end.

(** The outcome of a lookup: the value returned ([None] is [undefined]), or
    the [UnexpectedObjectTypeError] thrown with its two arguments. *)
Inductive Lookup : Type :=
| Returned (result : option (PDFObject number))
| UnexpectedObjectTypeError (types : list PDFType) (result : option (PDFObject number)).

(** The loop shared by [lookup] and [lookupMaybe]: whether one of the
    types, in order, accepts the result. *)
Fixpoint typesAccept (types : list PDFType) (result : option (PDFObject number)) : bool :=
  match types with
  | [] => false
  | type :: rest =>
      if is_typeof_PDFNull type
      then (if is_PDFNull result then true else typesAccept rest result)
      else (if instanceof result type then true else typesAccept rest result)
  end.

(** [lookupMaybe(ref, ...types)] *)
Definition lookupMaybe (c : PDFContext number) (ref : option (PDFObject number))
           (types : list PDFType) : Lookup :=
  let preservePDFNull := existsb is_typeof_PDFNull types in
  let result :=
    match ref with
    | Some (PDFRefObject r) => assoc_get PDFRef_eqb (indirectObjects c) r
    | _ => ref
    end in
  if match result with None => true | Some _ => false end
     || (is_PDFNull result && negb preservePDFNull)
  then Returned None
  else if typesAccept types result then Returned result
  else UnexpectedObjectTypeError types result.

(** [lookup(ref, ...types)] *)
Definition lookup (c : PDFContext number) (ref : option (PDFObject number))
           (types : list PDFType) : Lookup :=
  let result :=
    match ref with
    | Some (PDFRefObject r) => assoc_get PDFRef_eqb (indirectObjects c) r
    | _ => ref
    end in
  if (length types =? 0)%nat then Returned result
  else if typesAccept types result then Returned result
  else UnexpectedObjectTypeError types result.

End Lookup.

Arguments instanceof {number}.
Arguments is_PDFNull {number}.
Arguments Returned {number}.
Arguments UnexpectedObjectTypeError {number}.
Arguments typesAccept {number}.
Arguments lookupMaybe {number}.
Arguments lookup {number}.

(* ================================================================== *)
(** * PDFSecurity.ts: publishing the dictionary *)
(* ================================================================== *)

Section Encrypt.

Variable number : Type.
Variable number_of_Z : Z -> number.
Variable byteArrayToHexString : list Z -> JS.jsstring.

(** An optional property of an object literal: present once it was
    assigned. *)
Definition optionalProperty {A} (key : string) (value : option A)
           (literal : A -> Literal number) : list (JS.jsstring * Literal number) :=
  match value with
  | Some v => [(JS.lit key, literal v)]
  | None => []
  end.

(** [this.encryption] as the object literal it is: its properties in the
    order in which [initializeV1V2V4] and [initializeV5] create them. *)
Definition Encryption_literal (e : Encryption) : Literal number :=
  LObject
    ([ (JS.lit "Filter", LString (Filter e));
       (JS.lit "V", LNumber (number_of_Z (V e))) ]
     ++ optionalProperty "Length" (Length e) (fun n => LNumber (number_of_Z n))
     ++ optionalProperty "CF" (CF e)
          (fun cf =>
             LObject
               [ (JS.lit "StdCF",
                  LObject
                    [ (JS.lit "AuthEvent", LString (AuthEvent cf));
                      (JS.lit "CFM",
                       LString (match CFM cf with
                                | AESV2 => JS.lit "AESV2"
                                | AESV3 => JS.lit "AESV3"
                                end));
                      (JS.lit "Length", LNumber (number_of_Z (StdCF_Length cf))) ]) ])
     ++ optionalProperty "StmF" (StmF e) LString
     ++ optionalProperty "StrF" (StrF e) LString
     ++ [ (JS.lit "R", LNumber (number_of_Z (R e)));
          (JS.lit "O", LUint8Array (O e)) ]
     ++ optionalProperty "OE" (OE e) LUint8Array
     ++ [ (JS.lit "U", LUint8Array (U e)) ]
     ++ optionalProperty "UE" (UE e) LUint8Array
     ++ [ (JS.lit "P", LNumber (number_of_Z (P e))) ]
     ++ optionalProperty "Perms" (Perms e) LUint8Array).

(** [this.context.trailerInfo.ID = v] and [... .Encrypt = v] *)
Definition set_trailerInfo_ID (v : PDFObject number) (c : PDFContext number)
  : PDFContext number :=
  let t := trailerInfo c in
  mkPDFContext (isDecrypted c) (largestObjectNumber c) (header c)
               (mkTrailerInfo (Root t) (Encrypt t) (Info t) (Some v))
               (rngSeed c) (indirectObjects c)
               (pushGraphicsStateContentStreamRef c)
               (popGraphicsStateContentStreamRef c).
Definition set_trailerInfo_Encrypt (v : PDFObject number) (c : PDFContext number)
  : PDFContext number :=
  let t := trailerInfo c in
  mkPDFContext (isDecrypted c) (largestObjectNumber c) (header c)
               (mkTrailerInfo (Root t) (Some v) (Info t) (ID t))
               (rngSeed c) (indirectObjects c)
               (pushGraphicsStateContentStreamRef c)
               (popGraphicsStateContentStreamRef c).

Local Open Scope js_scope.

(** [encrypt()], on the graph [this.context] of the handler.  A field of
    [this] that is unset reads as [undefined]. *)
Definition encrypt (this : PDFSecurity) : M (PDFContext number) PDFSecurity :=
  let this_id :=
    match id this with Some i => LUint8Array i | None => LUndefined end in
  let ID := obj byteArrayToHexString (LArray [this_id; this_id]) in
  modify (set_trailerInfo_ID ID) ;;;
  let Encrypt :=
    obj byteArrayToHexString
        (match encryption this with
         | Some e => Encryption_literal e
         | None => LUndefined
         end) in
  ref <- register Encrypt ;;
  modify (set_trailerInfo_Encrypt (PDFRefObject ref)) ;;;
  ret this.

End Encrypt.

Arguments optionalProperty {number A}.
Arguments Encryption_literal {number}.
Arguments set_trailerInfo_ID {number}.
Arguments set_trailerInfo_Encrypt {number}.
Arguments encrypt {number}.

(* ================================================================== *)
(** * Vocabulary of the further properties *)
(* ================================================================== *)

(** Byte [k] of an integer in two's complement, counted from the low-order
    end. *)
Definition byteOf (k : Z) (x : Z) : Z := (x / 2 ^ (8 * k)) mod 256.

(** The four bytes of a 32-bit value, low-order byte first. *)
Definition bytesLSBFirst (x : Z) : list Z :=
  [byteOf 0 x; byteOf 1 x; byteOf 2 x; byteOf 3 x].

(** The elements of a [Uint8Array] are bytes. *)
Definition isByte (b : Z) : Prop := 0 <= b < 256.

(** Byte [i] of the words of a word array, in the big-endian order of the
    library: what [wordArrayToBuffer] reads at index [i]. *)
Definition byteAt (ws : list Z) (i : nat) : Z :=
  byteOf (3 - Z.of_nat (Nat.modulo i 4)) (WordArray.getWord ws (Nat.div i 4)).

Section GraphVocabulary.

Variable number : Type.

(** What a lookup key stands for in a graph: the object assigned to a
    reference, the key itself when it is no reference. *)
Definition resolved (c : PDFContext number) (ref : option (PDFObject number))
  : option (PDFObject number) :=
  match lookup c ref [] with
  | Returned result => result
  | UnexpectedObjectTypeError _ result => result
  end.

(** One requested type accepts a result: [PDFNull] by identity, a class
    by [instanceof]. *)
Definition accepts (result : option (PDFObject number)) (type : PDFType) : bool :=
  if is_typeof_PDFNull type then is_PDFNull result else instanceof result type.

(** No two entries of the map have the same key. *)
Definition distinctRefs (c : PDFContext number) : Prop :=
  NoDup (map fst (indirectObjects c)).

(** The graph after the calls of a history, made on a fresh graph. *)
Definition graphAfter (byteArrayToHexString : list Z -> JS.jsstring)
           (ops : list (GraphOp number)) : PDFContext number :=
  snd (history byteArrayToHexString ops PDFContext_create).

End GraphVocabulary.

Arguments resolved {number}.
Arguments accepts {number}.
Arguments distinctRefs {number}.
Arguments graphAfter {number}.

(** The value a dictionary object holds under a name given by its text. *)
Definition dictEntry {number : Type} (o : PDFObject number) (key : string)
  : option (PDFObject number) :=
  match o with
  | PDFDict entries => assoc_get jsstring_eqb entries (JS.lit key)
  | _ => None
  end.

(** What the length properties of the legacy path need of the library: an
    MD5 digest has 16 bytes, and RC4 returns as many bytes as it is
    given. *)
Definition MD5_digest_size (MD5 : WordArray -> WordArray) : Prop :=
  forall m, sigBytes (MD5 m) = 16%nat.

Definition RC4_keeps_size (RC4_encrypt : WordArray -> WordArray -> WordArray) : Prop :=
  forall m key, sigBytes (RC4_encrypt m key) = sigBytes m.

(** The file identifier of [sampleHandlerV5]. *)
Definition sampleFileId : Uint8Array :=
  Eval vm_compute in
    match id sampleHandlerV5 with
    | Some i => i
    | None => []
    end.

(** The random word arrays the revision-5 constructor draws in a world, in
    the order in which it draws them: the file key, the validation and key
    salts of the user entry, those of the owner entry, and the four bytes
    that fill the permission block. *)
Definition fileKeyR5 (w : World) : WordArray := drawnWords 32 w.
Definition userValidationSalt (w : World) : WordArray :=
  drawnWords 8 (afterDraw 32 w).
Definition userKeySalt (w : World) : WordArray :=
  drawnWords 8 (afterDraw 8 (afterDraw 32 w)).
Definition ownerValidationSalt (w : World) : WordArray :=
  drawnWords 8 (afterDraw 8 (afterDraw 8 (afterDraw 32 w))).
Definition ownerKeySalt (w : World) : WordArray :=
  drawnWords 8 (afterDraw 8 (afterDraw 8 (afterDraw 8 (afterDraw 32 w)))).
Definition permissionsFill (w : World) : WordArray :=
  drawnWords 4 (afterDraw 8 (afterDraw 8 (afterDraw 8 (afterDraw 8 (afterDraw 32 w))))).

(** The options of the two AES calls that wrap the file key: CBC without
    padding, with sixteen zero bytes for the initialization vector. *)
Definition keyWrapOptions : CipherOptions :=
  mkCipherOptions CBC NoPadding (Some (WordArray.create [] 16)).

(** The owner password the constructor works with: the user password when
    no owner password is given. *)
Definition effectiveOwnerPassword (options : SecurityOptions) : option JS.jsstring :=
  if JS.truthy_string (ownerPassword options) then ownerPassword options
  else userPassword options.

Section RevisionFiveVocabulary.

Variable SHA256 : WordArray -> WordArray.
Variable AES_encrypt : WordArray -> WordArray -> CipherOptions -> WordArray.

(** The user entry of revision 5: the digest of the password and the
    validation salt, followed by the validation salt and the key salt. *)
Definition userEntryR5 (options : SecurityOptions) (w : World) : WordArray :=
  WordArray.concat
    (WordArray.concat
       (SHA256 (WordArray.concat (processPasswordR5 (userPassword options))
                                 (userValidationSalt w)))
       (userValidationSalt w))
    (userKeySalt w).

(** The owner entry of revision 5: the digest of the password, the
    validation salt and the user entry, followed by the two salts. *)
Definition ownerEntryR5 (options : SecurityOptions) (w : World) : WordArray :=
  WordArray.concat
    (WordArray.concat
       (SHA256 (WordArray.concat
                  (WordArray.concat
                     (processPasswordR5 (effectiveOwnerPassword options))
                     (ownerValidationSalt w))
                  (userEntryR5 options w)))
       (ownerValidationSalt w))
    (ownerKeySalt w).

(** What [initializeV5] derives in a world, written as one expression. *)
Definition derivationR5 (options : SecurityOptions) (w : World) : Encryption :=
  let user := processPasswordR5 (userPassword options) in
  let owner := processPasswordR5 (effectiveOwnerPassword options) in
  let key := fileKeyR5 w in
  let u := userEntryR5 options w in
  let o := ownerEntryR5 options w in
  let ue :=
    AES_encrypt key
      (SHA256 (WordArray.concat user
                 (WordArray.create (WordArray.slice (words u) 10 12) 8)))
      keyWrapOptions in
  let oe :=
    AES_encrypt key
      (SHA256 (WordArray.concat
                 (WordArray.concat owner
                    (WordArray.create (WordArray.slice (words o) 10 12) 8))
                 u))
      keyWrapOptions in
  let perms :=
    AES_encrypt
      (WordArray.concat
         (WordArray.create
            [lsbFirstWord (getPermissionsR3 (permissions options)); 0xffffffff;
             0x54616462] 12)
         (permissionsFill w))
      key (mkCipherOptions ECB NoPadding None) in
  mkEncryption 5 5 (wordArrayToBuffer o) (wordArrayToBuffer u)
               (getPermissionsR3 (permissions options)) (JS.lit "Standard")
               (Some 256)
               (Some (mkStdCF (JS.lit "DocOpen") AESV3 32))
               (Some (JS.lit "StdCF")) (Some (JS.lit "StdCF"))
               (Some (wordArrayToBuffer oe)) (Some (wordArrayToBuffer ue))
               (Some (wordArrayToBuffer perms)).

End RevisionFiveVocabulary.

Section LegacyClosureVocabulary.

Variable MD5 : WordArray -> WordArray.
Variable RC4_encrypt : WordArray -> WordArray -> WordArray.

(** The RC4 key of an object on the paths V = 1 and V = 2: the MD5 digest
    of the digest input, cut to [min(16, keyBits / 8 + 5)] bytes. *)
Definition rc4Key (bits : Z) (key : WordArray) (obj gen : Z) : WordArray :=
  WordArray.withSigBytes (MD5 (objectDigest key obj gen))
                         (Z.to_nat (Z.min 16 (bits / 8 + 5))).

(** The closure of the RC4 paths for a key: it reads neither the clock nor
    the random source. *)
Definition rc4Closure (key : WordArray) : EncryptFn :=
  fun buffer : Uint8Array =>
    ret (wordArrayToBuffer (RC4_encrypt (WordArray.ofUint8Array buffer) key)).

End LegacyClosureVocabulary.

(** A password that legacy processing rejects: one of its first 32
    characters has a code above 255. *)
Definition invalidPassword (password : option JS.jsstring) : bool :=
  existsb invalidCharacter
          (firstn 32 (match password with Some p => p | None => [] end)).


(* ================================================================== *)
(** * Properties: the permission mask *)
(* ================================================================== *)

(** On a value already in the 32-bit range, [>> 0] changes nothing. *)
Lemma ToInt32_small z : - 2 ^ 31 <= z < 2 ^ 31 -> JS.ToInt32 z = z.
Proof.
  intros H. unfold JS.ToInt32. rewrite Z.mod_small; lia.
Qed.

Lemma ToInt32_range z : - 2 ^ 31 <= JS.ToInt32 z < 2 ^ 31.
Proof.
  unfold JS.ToInt32.
  pose proof (Z.mod_pos_bound (z + 2 ^ 31) (2 ^ 32) ltac:(lia)). lia.
Qed.

(** Every bit position of the 32-bit mask, by enumeration. *)
Lemma bit_positions (b : Z) :
  1 <= b <= 32 -> In b (map Z.of_nat (seq 1 32)).
Proof.
  intros H. apply in_map_iff. exists (Z.to_nat b). split; [lia|].
  apply in_seq. lia.
Qed.

Lemma forall_bit_positions (f : Z -> bool) :
  forallb f (map Z.of_nat (seq 1 32)) = true ->
  forall b, 1 <= b <= 32 -> f b = true.
Proof.
  intros H b Hb. rewrite forallb_forall in H. apply H, bit_positions, Hb.
Qed.

Lemma getPermissionsR3_granted (p : UserPermissions) :
  getPermissionsR3 (Some p) = Z.lor (-3904) (grantedR3 p).
Proof.
  destruct p as [pr m c a f ca d].
  destruct pr as [[[|]| |]|];
    destruct m as [[|]|]; destruct c as [[|]|]; destruct a as [[|]|];
    destruct f as [[|]|]; destruct ca as [[|]|]; destruct d as [[|]|];
    vm_compute; reflexivity.
Qed.

Lemma getPermissionsR3_bit (p : UserPermissions) (b : Z) :
  pdfBit (getPermissionsR3 (Some p)) b
  = Z.testbit (-3904) (b - 1) || Z.testbit (grantedR3 p) (b - 1).
Proof.
  unfold pdfBit. rewrite getPermissionsR3_granted. apply Z.lor_spec.
Qed.

Lemma getPermissionsR3_default :
  getPermissionsR3 None = getPermissionsR3 (Some noPermissions).
Proof. reflexivity. Qed.

(** Bits 1, 2, 7, 8 and 13 to 32 never depend on the permissions. *)
Lemma grantedR3_clear (p : UserPermissions) (b : Z) :
  b = 1 \/ b = 2 \/ b = 7 \/ b = 8 \/ 13 <= b ->
  Z.testbit (grantedR3 p) (b - 1) = false.
Proof.
  intros Hb.
  assert (Hsmall : grantedR3 p = Z.land (grantedR3 p) 0xf3c).
  { destruct p as [pr m c a f ca d].
    destruct pr as [[[|]| |]|];
      destruct m as [[|]|]; destruct c as [[|]|]; destruct a as [[|]|];
      destruct f as [[|]|]; destruct ca as [[|]|]; destruct d as [[|]|];
      vm_compute; reflexivity. }
  rewrite Hsmall, Z.land_spec.
  assert (Hmask : Z.testbit 0xf3c (b - 1) = false).
  { destruct (Z.le_gt_cases 13 b) as [Hge|Hlt].
    - change 0xf3c with 3900.
      apply Z.bits_above_log2; [lia|].
      assert (Z.log2 3900 = 11) by reflexivity. lia.
    - assert (Hin : b = 1 \/ b = 2 \/ b = 7 \/ b = 8) by lia.
      destruct Hin as [->|[->|[->| ->]]]; reflexivity. }
  rewrite Hmask. apply andb_false_r.
Qed.

Lemma reservedR3_iff (b : Z) :
  1 <= b <= 32 ->
  reservedR3 b <-> (b = 1 \/ b = 2 \/ b = 7 \/ b = 8 \/ 13 <= b).
Proof.
  intros Hb. split.
  - intros Hres.
    destruct (Z.le_gt_cases 13 b) as [Hge|Hlt]; [now repeat right|].
    assert (Hin : In b (map Z.of_nat (seq 1 12))).
    { apply in_map_iff. exists (Z.to_nat b). split; [lia|]. apply in_seq. lia. }
    pose (all := Some (mkUserPermissions (Some HighResolution) (Some true) (Some true)
                         (Some true) (Some true) (Some true) (Some true))).
    specialize (Hres None all).
    simpl in Hin.
    repeat (destruct Hin as [<-|Hin];
            [ first [ now auto 6 | vm_compute in Hres; discriminate Hres ] |]).
    destruct Hin.
  - intros Hfix p q.
    assert (Hone : forall r, pdfBit (getPermissionsR3 r) b = Z.testbit (-3904) (b - 1)).
    { intros [r|]; [|rewrite getPermissionsR3_default];
        rewrite getPermissionsR3_bit, grantedR3_clear by exact Hfix;
        apply orb_false_r. }
    rewrite (Hone p), (Hone q). reflexivity.
Qed.

(** C3 (as stated, refuted).  On [{printing: 'highResolution', modifying:
    true}] the mask is not the one described: bit 12 is a permission bit
    other than 3, 4 and 13 and it is set, bit 13 is set whatever the
    permissions are, and the reserved bit 1 is 0. *)
Lemma getPermissionsR3_not_as_specified :
  ~ mask_as_specified (getPermissionsR3 highResolutionModifying) /\
  (pdfBit (getPermissionsR3 highResolutionModifying) 12 = true /\ ~ reservedR3 12) /\
  (pdfBit (getPermissionsR3 None) 13 = true /\ reservedR3 13) /\
  (pdfBit (getPermissionsR3 highResolutionModifying) 1 = false /\ reservedR3 1).
Proof.
  assert (H12 : ~ reservedR3 12).
  { intros Hres. apply reservedR3_iff in Hres; lia. }
  split; [|split; [|split]].
  - intros (_ & _ & _ & Hclear & _).
    assert (H : pdfBit (getPermissionsR3 highResolutionModifying) 12 = false)
      by (apply Hclear; auto; lia).
    vm_compute in H. discriminate H.
  - split; [reflexivity|exact H12].
  - split; [reflexivity|]. apply reservedR3_iff; lia.
  - split; [reflexivity|]. apply reservedR3_iff; lia.
Qed.

(** C3 (amended).  On [{printing: 'highResolution', modifying: true}] the
    revision-3 mask is 0xFFFFF8CC as a signed 32-bit value: of the
    permission bits 3, 4, 5, 6, 9, 10, 11, 12 exactly 3 (printing),
    4 (modifying) and 12 (high-resolution printing) are set; the reserved
    bits 7, 8 and 13 to 32 are 1 and the reserved bits 1 and 2 are 0. *)
Theorem getPermissionsR3_highResolution_modifying :
  getPermissionsR3 highResolutionModifying = -1844 /\
  - 2 ^ 31 <= getPermissionsR3 highResolutionModifying < 2 ^ 31 /\
  (getPermissionsR3 highResolutionModifying) mod 2 ^ 32 = 0xfffff8cc /\
  forall b, 1 <= b <= 32 ->
    (reservedR3 b <-> (b = 1 \/ b = 2 \/ b = 7 \/ b = 8 \/ 13 <= b)) /\
    pdfBit (getPermissionsR3 highResolutionModifying) b
    = (b =? 3) || (b =? 4) || (b =? 12) || (b =? 7) || (b =? 8) || (13 <=? b).
Proof.
  split; [reflexivity|]. split; [vm_compute; split; [discriminate|reflexivity]|].
  split; [reflexivity|].
  intros b Hb. split; [apply reservedR3_iff, Hb|].
  apply Bool.eqb_prop. revert b Hb.
  apply (forall_bit_positions
           (fun b => Bool.eqb (pdfBit (getPermissionsR3 highResolutionModifying) b)
                       ((b =? 3) || (b =? 4) || (b =? 12) || (b =? 7) || (b =? 8)
                        || (13 <=? b)))).
  vm_compute. reflexivity.
Qed.

Lemma getPermissionsR3_highResolution_modifying_witness :
  1 <= 12 <= 32 /\
  pdfBit (getPermissionsR3 highResolutionModifying) 12 = true.
Proof.
  split; [lia|].
  apply (proj2 (proj2 (proj2 (proj2 getPermissionsR3_highResolution_modifying)) 12
                      ltac:(lia))).
Defined.

(* ================================================================== *)
(** * Properties: legacy password processing *)
(* ================================================================== *)

Lemma store_length {A} (l : list A) i v : length (JS.store l i v) = length l.
Proof.
  revert i; induction l as [|h t IH]; intros [|j]; simpl; auto.
Qed.

(** The first loop finishes within [32 - index] iterations. *)
Lemma copyPassword_total fuel password len index out :
  (32 <= index + fuel)%nat ->
  copyPassword fuel password len index out <> None.
Proof.
  revert index out.
  induction fuel as [|fuel IH]; intros index out Hfuel; simpl.
  - destruct (index <? len)%nat eqn:E1; simpl; [|discriminate].
    destruct (index <? 32)%nat eqn:E2; simpl; [|discriminate].
    apply Nat.ltb_lt in E2. lia.
  - destruct ((index <? len)%nat && (index <? 32)%nat); [|discriminate].
    destruct (JS.charCodeAt password index >? 255); [discriminate|].
    apply IH. lia.
Qed.

(** When the first loop ends normally it has stopped at
    [min(length, 32)] and kept the size of the buffer. *)
Lemma copyPassword_Ok fuel password len index out index' out' :
  (index <= Nat.min len 32)%nat ->
  copyPassword fuel password len index out = Some (Ok (index', out')) ->
  index' = Nat.min len 32 /\ length out' = length out /\
  forall i, (index <= i < Nat.min len 32)%nat -> JS.charCodeAt password i <= 255.
Proof.
  revert index out.
  induction fuel as [|fuel IH]; intros index out Hle H; simpl in H.
  - destruct ((index <? len)%nat && (index <? 32)%nat) eqn:E; [discriminate|].
    inversion H; subst.
    apply andb_false_iff in E.
    rewrite !Nat.ltb_ge in E. repeat split; try lia.
  - destruct ((index <? len)%nat && (index <? 32)%nat) eqn:E.
    + apply andb_true_iff in E. rewrite !Nat.ltb_lt in E.
      destruct (JS.charCodeAt password index >? 255) eqn:Ec; [discriminate|].
      apply IH in H; [|lia].
      destruct H as (Hi & Hl & Hc). rewrite store_length in Hl.
      repeat split; auto.
      intros i Hi'. destruct (Nat.eq_dec i index) as [->|Hne].
      * rewrite Z.gtb_ltb in Ec. apply Z.ltb_ge in Ec. exact Ec.
      * apply Hc. lia.
    + inversion H; subst.
      apply andb_false_iff in E.
      rewrite !Nat.ltb_ge in E. repeat split; try lia.
Qed.

(** The first loop raises only the invalid-character error, and only at a
    character it has reached. *)
Lemma copyPassword_Throw fuel password len index out e :
  copyPassword fuel password len index out = Some (Throw e) ->
  e = InvalidPasswordCharacter /\
  exists i, (index <= i < Nat.min len 32)%nat /\ JS.charCodeAt password i > 255.
Proof.
  revert index out.
  induction fuel as [|fuel IH]; intros index out H; simpl in H.
  - destruct ((index <? len)%nat && (index <? 32)%nat); discriminate.
  - destruct ((index <? len)%nat && (index <? 32)%nat) eqn:E; [|discriminate].
    apply andb_true_iff in E. rewrite !Nat.ltb_lt in E.
    destruct (JS.charCodeAt password index >? 255) eqn:Ec.
    + inversion H; subst. split; [reflexivity|].
      exists index. split; [lia|]. apply Z.gtb_gt. exact Ec.
    + apply IH in H. destruct H as (He & i & Hi & Hc).
      split; [exact He|]. exists i. split; [lia|exact Hc].
Qed.

Lemma copyPassword_step fuel password len index out :
  copyPassword (S fuel) password len index out
  = if (index <? len)%nat && (index <? 32)%nat then
      if JS.charCodeAt password index >? 0xff then Some (Throw InvalidPasswordCharacter)
      else copyPassword fuel password len (S index)
                        (JS.store out index (JS.toUint8 (JS.charCodeAt password index)))
    else Some (Ok (index, out)).
Proof. reflexivity. Qed.

Lemma copyPassword_stop password len index out :
  copyPassword 0 password len index out
  = if (index <? len)%nat && (index <? 32)%nat then None
    else Some (Ok (index, out)).
Proof. reflexivity. Qed.

(** The first loop looks at no character beyond the first 32. *)
Lemma copyPassword_firstn fuel password index out :
  copyPassword fuel password (length password) index out
  = copyPassword fuel (firstn 32 password) (length (firstn 32 password)) index out.
Proof.
  revert index out.
  induction fuel as [|fuel IH]; intros index out.
  - rewrite !copyPassword_stop, length_firstn.
    destruct (Nat.ltb_spec index (length password));
      destruct (Nat.ltb_spec index (Nat.min 32 (length password)));
      destruct (Nat.ltb_spec index 32); simpl; try reflexivity; lia.
  - rewrite !copyPassword_step.
    rewrite IH. rewrite !length_firstn.
    destruct (Nat.ltb_spec index (length password));
      destruct (Nat.ltb_spec index (Nat.min 32 (length password)));
      destruct (Nat.ltb_spec index 32); simpl andb; cbv iota;
      try reflexivity; try lia.
    assert (Hc : JS.charCodeAt (firstn 32 password) index
                 = JS.charCodeAt password index).
    { unfold JS.charCodeAt. rewrite nth_firstn.
      destruct (Nat.ltb_spec index 32); [reflexivity|lia]. }
    rewrite Hc. reflexivity.
Qed.

Lemma padPassword_total fuel len index out :
  (32 <= index + fuel)%nat -> padPassword fuel len index out <> None.
Proof.
  revert index out.
  induction fuel as [|fuel IH]; intros index out Hfuel; simpl.
  - destruct (Nat.ltb_spec index 32); [lia|discriminate].
  - destruct (index <? 32)%nat; [|discriminate]. apply IH. lia.
Qed.

Lemma padPassword_length fuel len index out out' :
  padPassword fuel len index out = Some out' -> length out' = length out.
Proof.
  revert index out.
  induction fuel as [|fuel IH]; intros index out H; simpl in H.
  - destruct (index <? 32)%nat; [discriminate|]. now inversion H.
  - destruct (index <? 32)%nat; [|now inversion H].
    apply IH in H. now rewrite store_length in H.
Qed.

(** From index 32 on the second loop does nothing, whatever the length. *)
Lemma padPassword_done fuel len index out :
  (32 <= index)%nat -> padPassword fuel len index out = Some out.
Proof.
  intros H. destruct fuel; simpl; destruct (Nat.ltb_spec index 32); auto; lia.
Qed.

Lemma setWord_length ws k v :
  length (WordArray.setWord ws k v) = Nat.max (length ws) (S k).
Proof.
  revert ws. induction k as [|k IH]; intros [|h t]; simpl; try lia.
  - rewrite (IH []). simpl. lia.
  - rewrite (IH t). lia.
Qed.

Lemma ofUint8Array_sigBytes bytes :
  sigBytes (WordArray.ofUint8Array bytes) = length bytes.
Proof. reflexivity. Qed.

Lemma wordArrayToBuffer_length w :
  length (wordArrayToBuffer w) = sigBytes w.
Proof.
  unfold wordArrayToBuffer. rewrite length_map, length_seq. reflexivity.
Qed.

(** Thirty-two iterations are enough for both loops. *)
Lemma processPasswordR2R3R4_fuel_enough password :
  processPasswordR2R3R4_fuel 32 password <> None.
Proof.
  unfold processPasswordR2R3R4_fuel.
  set (p := match password with Some p => p | None => [] end).
  destruct (copyPassword 32 p (length p) 0 (repeat 0 32)) as [[[index out]|e]|] eqn:E.
  - destruct (padPassword 32 (length p) index out) eqn:E2; [discriminate|].
    exfalso. revert E2. apply padPassword_total. lia.
  - discriminate.
  - exfalso. revert E. apply copyPassword_total. lia.
Qed.

Lemma store_split {A} (l : list A) i v :
  (i < length l)%nat ->
  JS.store l i v = firstn i l ++ v :: skipn (S i) l.
Proof.
  revert i. induction l as [|h t IH]; intros [|i] H; simpl in *; try lia; auto.
  rewrite IH by lia. reflexivity.
Qed.

Lemma skipn_nth_cons {A} (l : list A) i d :
  (i < length l)%nat -> skipn i l = nth i l d :: skipn (S i) l.
Proof.
  revert i. induction l as [|h t IH]; intros [|i] H; simpl in *; try lia; auto.
  apply IH. lia.
Qed.

Lemma firstn_store {A} (l : list A) i v :
  (i < length l)%nat -> firstn (S i) (JS.store l i v) = firstn i l ++ [v].
Proof.
  revert i. induction l as [|h t IH]; intros [|i] H; simpl in *; try lia; auto.
  rewrite IH by lia. reflexivity.
Qed.

Lemma skipn_store {A} (l : list A) i m v :
  (i < m)%nat -> skipn m (JS.store l i v) = skipn m l.
Proof.
  revert i m. induction l as [|h t IH]; intros [|i] [|m] H; simpl in *; try lia; auto.
  apply IH. lia.
Qed.

(** What the first loop computes from [index] on. *)
Lemma copyPassword_run fuel password index out :
  (index <= Nat.min (length password) 32)%nat ->
  (32 <= index + fuel)%nat -> length out = 32%nat ->
  copyPassword fuel password (length password) index out
  = if existsb invalidCharacter (firstn (32 - index) (skipn index password))
    then Some (Throw InvalidPasswordCharacter)
    else Some (Ok (Nat.min (length password) 32,
                   firstn index out
                   ++ map JS.toUint8 (firstn (32 - index) (skipn index password))
                   ++ skipn (Nat.min (length password) 32) out)).
Proof.
  revert index out.
  induction fuel as [|fuel IH]; intros index out Hle Hfuel Hout.
  - assert (index = 32%nat) by lia. subst index.
    rewrite copyPassword_stop.
    destruct (Nat.ltb_spec 32 32); [lia|]. rewrite andb_false_r.
    assert (Hm : Nat.min (length password) 32 = 32%nat) by lia. rewrite Hm.
    change (firstn (32 - 32) (skipn 32 password)) with (@nil Z).
    change (existsb invalidCharacter []) with false. cbv iota.
    change (map JS.toUint8 []) with (@nil Z).
    rewrite app_nil_l, firstn_skipn. reflexivity.
  - rewrite copyPassword_step.
    destruct (Nat.ltb_spec index (length password)) as [Hlen|Hlen];
      destruct (Nat.ltb_spec index 32) as [H32|H32]; simpl andb; cbv iota.
    + rewrite (skipn_nth_cons password index 0) by exact Hlen.
      replace (32 - index)%nat with (S (32 - S index)) by lia.
      rewrite firstn_cons.
      rewrite IH; [|lia|lia|now rewrite store_length].
      set (rest := firstn (32 - S index) (skipn (S index) password)).
      unfold JS.charCodeAt.
      set (c := nth index password 0).
      change (existsb invalidCharacter (c :: rest))
        with (invalidCharacter c || existsb invalidCharacter rest).
      change (map JS.toUint8 (c :: rest)) with (JS.toUint8 c :: map JS.toUint8 rest).
      unfold invalidCharacter at 2.
      destruct (c >? 255) eqn:Ec; [reflexivity|].
      rewrite orb_false_l.
      destruct (existsb invalidCharacter rest); [reflexivity|].
      do 3 f_equal.
      rewrite firstn_store, skipn_store by lia.
      rewrite <- app_assoc. reflexivity.
    + assert (index = 32%nat) by lia. subst index.
      assert (Hm : Nat.min (length password) 32 = 32%nat) by lia. rewrite Hm.
      change (firstn (32 - 32) (skipn 32 password)) with (@nil Z).
      change (existsb invalidCharacter []) with false. cbv iota.
      change (map JS.toUint8 []) with (@nil Z).
      rewrite app_nil_l, firstn_skipn. reflexivity.
    + rewrite (skipn_all2 password) by exact Hlen.
      rewrite firstn_nil.
      change (existsb invalidCharacter []) with false. cbv iota.
      change (map JS.toUint8 []) with (@nil Z).
      assert (Hm : Nat.min (length password) 32 = index) by lia. rewrite Hm.
      rewrite app_nil_l, firstn_skipn. reflexivity.
    + rewrite (skipn_all2 password) by exact Hlen.
      rewrite firstn_nil.
      change (existsb invalidCharacter []) with false. cbv iota.
      change (map JS.toUint8 []) with (@nil Z).
      assert (Hm : Nat.min (length password) 32 = index) by lia. rewrite Hm.
      rewrite app_nil_l, firstn_skipn. reflexivity.
Qed.

Lemma padPassword_step fuel len index out :
  padPassword (S fuel) len index out
  = if (index <? 32)%nat then
      padPassword fuel len (S index)
        (JS.store out index
           (JS.index PASSWORD_PADDING (Z.of_nat index - Z.of_nat len)))
    else Some out.
Proof. reflexivity. Qed.

Lemma PASSWORD_PADDING_length : length PASSWORD_PADDING = 32%nat.
Proof. reflexivity. Qed.

(** What the second loop computes from [index] on. *)
Lemma padPassword_run fuel len index out :
  (len <= index <= 32)%nat ->
  (32 <= index + fuel)%nat -> length out = 32%nat ->
  padPassword fuel len index out
  = Some (firstn index out
          ++ firstn (32 - index) (skipn (index - len) PASSWORD_PADDING)).
Proof.
  revert index out.
  induction fuel as [|fuel IH]; intros index out Hle Hfuel Hout.
  - assert (index = 32%nat) by lia. subst index.
    rewrite padPassword_done by lia.
    rewrite Nat.sub_diag, firstn_O, app_nil_r, firstn_all2 by lia. reflexivity.
  - rewrite padPassword_step.
    destruct (Nat.ltb_spec index 32) as [H32|H32].
    + rewrite IH; [|lia|lia|now rewrite store_length].
      f_equal.
      rewrite firstn_store by lia.
      rewrite <- app_assoc. f_equal.
      replace (S index - len)%nat with (S (index - len)) by lia.
      rewrite (skipn_nth_cons PASSWORD_PADDING (index - len) 0)
        by (rewrite PASSWORD_PADDING_length; lia).
      replace (32 - index)%nat with (S (32 - S index)) by lia.
      rewrite firstn_cons.
      change ([?x] ++ ?l) with (x :: l).
      f_equal.
      unfold JS.index.
      destruct (Z.ltb_spec (Z.of_nat index - Z.of_nat len) 0); [lia|].
      f_equal. lia.
    + assert (index = 32%nat) by lia. subst index.
      rewrite Nat.sub_diag, firstn_O, app_nil_r, firstn_all2 by lia. reflexivity.
Qed.

Lemma paddedPassword_length password : length (paddedPassword password) = 32%nat.
Proof.
  unfold paddedPassword.
  rewrite length_firstn, length_app, PASSWORD_PADDING_length. lia.
Qed.

(** The whole function, in closed form. *)
Lemma processPasswordR2R3R4_closed_form (password : JS.jsstring) :
  processPasswordR2R3R4_fuel 32 (Some password)
  = Some (if existsb invalidCharacter (firstn 32 password)
          then Throw InvalidPasswordCharacter
          else Ok (WordArray.ofUint8Array (paddedPassword password))).
Proof.
  unfold processPasswordR2R3R4_fuel.
  rewrite copyPassword_run; [|lia|lia|reflexivity].
  rewrite Nat.sub_0_r. change (skipn 0 password) with password.
  destruct (existsb invalidCharacter (firstn 32 password)); [reflexivity|].
  change (firstn 0 (repeat 0 32)) with (@nil Z). rewrite app_nil_l.
  assert (Hout : length (map JS.toUint8 (firstn 32 password)
                           ++ skipn (Nat.min (length password) 32) (repeat 0 32))
                 = 32%nat).
  { rewrite length_app, length_map, length_firstn, length_skipn, repeat_length. lia. }
  destruct (Nat.le_gt_cases (length password) 32) as [Hshort|Hlong].
  - rewrite padPassword_run; [|lia|lia|exact Hout].
    do 3 f_equal.
    replace (Nat.min (length password) 32) with (length password) by lia.
    rewrite Nat.sub_diag. change (skipn 0 PASSWORD_PADDING) with PASSWORD_PADDING.
    rewrite (firstn_all2 (n := 32) password) by lia.
    rewrite firstn_app, length_map.
    rewrite (firstn_all2 (map JS.toUint8 password))
      by (rewrite length_map; lia).
    rewrite Nat.sub_diag, firstn_O, app_nil_r.
    unfold paddedPassword.
    rewrite firstn_app, length_map.
    rewrite (firstn_all2 (map JS.toUint8 password))
      by (rewrite length_map; lia).
    reflexivity.
  - rewrite padPassword_done by lia.
    do 3 f_equal.
    replace (Nat.min (length password) 32) with 32%nat by lia.
    change (skipn 32 (repeat 0 32)) with (@nil Z). rewrite app_nil_r.
    unfold paddedPassword.
    rewrite firstn_app, length_map.
    replace (32 - length password)%nat with 0%nat by lia.
    rewrite firstn_O, app_nil_r, firstn_map. reflexivity.
Qed.

Lemma existsb_invalidCharacter (password : JS.jsstring) :
  existsb invalidCharacter (firstn 32 password) = true <->
  exists i, (i < 32)%nat /\ (i < length password)%nat /\
            JS.charCodeAt password i > 0xff.
Proof.
  rewrite existsb_exists. split.
  - intros (c & Hin & Hc).
    apply (In_nth _ _ 0) in Hin. destruct Hin as (i & Hi & Hnth).
    rewrite length_firstn in Hi. rewrite nth_firstn in Hnth.
    destruct (Nat.ltb_spec i 32); [|lia].
    exists i. repeat split; try lia.
    unfold JS.charCodeAt. rewrite Hnth. apply Z.gtb_gt. exact Hc.
  - intros (i & H32 & Hlen & Hc).
    exists (JS.charCodeAt password i). split.
    + unfold JS.charCodeAt.
      replace (nth i password 0) with (nth i (firstn 32 password) 0).
      * apply nth_In. rewrite length_firstn. lia.
      * rewrite nth_firstn. destruct (Nat.ltb_spec i 32); [reflexivity|lia].
    + apply Z.gtb_gt. exact Hc.
Qed.

(** The result of the function, for every argument. *)
Lemma processPasswordR2R3R4_value (password : option JS.jsstring) :
  processPasswordR2R3R4 password
  = let p := match password with Some p => p | None => [] end in
    if existsb invalidCharacter (firstn 32 p)
    then Throw InvalidPasswordCharacter
    else Ok (WordArray.ofUint8Array (paddedPassword p)).
Proof.
  assert (Hp : processPasswordR2R3R4 password
               = processPasswordR2R3R4
                   (Some (match password with Some p => p | None => [] end))).
  { destruct password; reflexivity. }
  rewrite Hp. unfold processPasswordR2R3R4.
  rewrite processPasswordR2R3R4_closed_form. reflexivity.
Qed.

(** C10.  Legacy password processing ends after at most 32 iterations of
    each loop; it raises the invalid-character error exactly when one of the
    first 32 characters has a code above 255, and otherwise returns 32
    bytes: the first 32 characters, then the padding constant.  What follows
    the first 32 characters is never looked at. *)
Theorem processPasswordR2R3R4_contract (password : option JS.jsstring) :
  let p := match password with Some p => p | None => [] end in
  processPasswordR2R3R4_fuel 32 password <> None /\
  processPasswordR2R3R4 password
  = (if existsb invalidCharacter (firstn 32 p)
     then Throw InvalidPasswordCharacter
     else Ok (WordArray.ofUint8Array (paddedPassword p))) /\
  sigBytes (WordArray.ofUint8Array (paddedPassword p)) = 32%nat /\
  length (wordArrayToBuffer (WordArray.ofUint8Array (paddedPassword p))) = 32%nat /\
  (existsb invalidCharacter (firstn 32 p) = true <->
   exists i, (i < 32)%nat /\ (i < length p)%nat /\ JS.charCodeAt p i > 0xff) /\
  processPasswordR2R3R4 (Some (firstn 32 p)) = processPasswordR2R3R4 password /\
  forall rest, (32 <= length p)%nat ->
               processPasswordR2R3R4 (Some (p ++ rest)) = processPasswordR2R3R4 password.
Proof.
  intros p.
  assert (Hprefix : forall q, firstn 32 q = firstn 32 p ->
                              (32 <= length p)%nat \/ q = firstn 32 p ->
                              processPasswordR2R3R4 (Some q)
                              = processPasswordR2R3R4 password).
  { intros q Hq Hlen. rewrite !processPasswordR2R3R4_value. cbv zeta. fold p.
    rewrite Hq.
    destruct (existsb invalidCharacter (firstn 32 p)); [reflexivity|].
    do 2 f_equal. unfold paddedPassword.
    rewrite !firstn_app, !firstn_map, Hq, !length_map. f_equal. f_equal.
    destruct Hlen as [Hlen| ->].
    - assert (Hl : length (firstn 32 q) = length (firstn 32 p)) by now rewrite Hq.
      rewrite !length_firstn in Hl. lia.
    - rewrite length_firstn.
      destruct (Nat.le_gt_cases (length p) 32); lia. }
  split; [apply processPasswordR2R3R4_fuel_enough|].
  split; [apply processPasswordR2R3R4_value|].
  split; [rewrite ofUint8Array_sigBytes; apply paddedPassword_length|].
  split; [rewrite wordArrayToBuffer_length, ofUint8Array_sigBytes;
          apply paddedPassword_length|].
  split; [apply existsb_invalidCharacter|].
  split.
  - apply Hprefix; [apply firstn_firstn|now right].
  - intros rest Hlen. apply Hprefix; [|now left].
    rewrite firstn_app. replace (32 - length p)%nat with 0%nat by lia.
    rewrite firstn_O, app_nil_r. reflexivity.
Qed.

(** A password whose 33rd character is outside Latin-1 is accepted. *)
Lemma processPasswordR2R3R4_contract_witness :
  processPasswordR2R3R4 (Some (repeat 65 32 ++ [0x100]))
  = processPasswordR2R3R4 (Some (repeat 65 32)).
Proof.
  apply (proj2 (proj2 (proj2 (proj2 (proj2 (proj2
           (processPasswordR2R3R4_contract (Some (repeat 65 32))))))))).
  simpl. lia.
Defined.

(* ================================================================== *)
(** * Properties: the indirect object graph *)
(* ================================================================== *)

(** ** Addition of one on a number *)

(** Up to 2^53 in magnitude every integer is a double. *)
Lemma roundToDouble_exact (z : Z) :
  Z.abs z <= 2 ^ 53 -> JS.roundToDouble z = z.
Proof.
  intros Hz. unfold JS.roundToDouble. cbv zeta.
  destruct (Z.leb_spec (Z.log2 (Z.abs z) - 52) 0) as [He|He]; [reflexivity|].
  assert (Hpos : 0 < Z.abs z).
  { destruct (Z.eq_dec (Z.abs z) 0) as [E|E]; [|lia].
    rewrite E in He. simpl in He. lia. }
  assert (Hlow : 2 ^ 53 <= Z.abs z) by (apply Z.log2_le_pow2; lia).
  assert (Hcase : z = 2 ^ 53 \/ z = - 2 ^ 53) by lia.
  destruct Hcase as [-> | ->]; vm_compute; reflexivity.
Qed.

Lemma add_one_exact (x : Z) : - 2 ^ 53 <= x < 2 ^ 53 -> JS.add x 1 = x + 1.
Proof.
  intros Hx. unfold JS.add. apply roundToDouble_exact. lia.
Qed.

Lemma add_one_safe (x : Z) : JS.isSafeInteger x = true -> JS.add x 1 = x + 1.
Proof.
  unfold JS.isSafeInteger. intros Hx. apply Z.leb_le in Hx.
  apply add_one_exact. lia.
Qed.

(** Rounding does not bring a number below 2^53. *)
Lemma roundToDouble_large (z : Z) :
  2 ^ 53 <= z -> 2 ^ 53 <= JS.roundToDouble z.
Proof.
  intros Hz. unfold JS.roundToDouble. cbv zeta.
  destruct (Z.leb_spec (Z.log2 (Z.abs z) - 52) 0) as [He|He]; [exact Hz|].
  rewrite Z.abs_eq in * by lia. rewrite Z.sgn_pos by lia.
  set (e := Z.log2 z - 52) in *.
  assert (Hlog : 2 ^ (e + 52) <= z).
  { unfold e. replace (Z.log2 z - 52 + 52) with (Z.log2 z) by lia.
    apply Z.log2_spec. lia. }
  rewrite Z.pow_add_r in Hlog by lia.
  assert (He2 : 2 <= 2 ^ e).
  { change 2 with (2 ^ 1) at 1. apply Z.pow_le_mono_r; lia. }
  assert (Hq : 2 ^ 52 <= z / 2 ^ e).
  { apply Z.div_le_lower_bound; lia. }
  destruct ((z mod 2 ^ e <? 2 ^ (e - 1))
            || ((z mod 2 ^ e =? 2 ^ (e - 1)) && Z.even (z / 2 ^ e))); nia.
Qed.

(** Adding one leaves a counter at 2^53 or above if it was there, and
    above its old value otherwise. *)
Lemma add_one_capped (x : Z) :
  0 <= x -> Z.min x (2 ^ 53) <= JS.add x 1 /\ 0 <= JS.add x 1.
Proof.
  intros Hx. destruct (Z.lt_ge_cases x (2 ^ 53)) as [Hs|Hl].
  - rewrite add_one_exact by lia. lia.
  - unfold JS.add. pose proof (roundToDouble_large (x + 1)). lia.
Qed.

Section GraphProperties.

Variable number : Type.
Variable byteArrayToHexString : list Z -> JS.jsstring.

Local Abbreviation Context := (PDFContext number).
Local Abbreviation Object := (PDFObject number).
Local Abbreviation Op := (GraphOp number).
Local Abbreviation next c := (JS.add (largestObjectNumber c) 1).

(** ** What each method does to the graph *)

Lemma assign_run (ref : PDFRef) (object : Object) (c : Context) :
  assign ref object c
  = (Ok tt,
     set_largestObjectNumber
       (Z.max (largestObjectNumber c) (objectNumber ref))
       (set_indirectObjects (assoc_set PDFRef_eqb (indirectObjects c) ref object) c)).
Proof.
  unfold assign, bind, modify, get, ret; simpl.
  destruct (Z.gtb_spec (objectNumber ref) (largestObjectNumber c)) as [H|H].
  - rewrite Z.max_r by lia. reflexivity.
  - rewrite Z.max_l by lia. destruct c; reflexivity.
Qed.

Lemma nextRef_run (c : Context) :
  nextRef c = (Ok (PDFRef_of (next c)), set_largestObjectNumber (next c) c).
Proof. reflexivity. Qed.

Lemma register_run (object : Object) (c : Context) :
  register object c
  = (Ok (PDFRef_of (next c)),
     set_largestObjectNumber
       (next c)
       (set_indirectObjects
          (assoc_set PDFRef_eqb (indirectObjects c) (PDFRef_of (next c)) object) c)).
Proof.
  unfold register, bind. rewrite nextRef_run, assign_run. simpl.
  rewrite Z.max_id. reflexivity.
Qed.

(** Below 2^53 in magnitude the new number is the counter plus one. *)
Lemma register_run_exact (object : Object) (c : Context) :
  - 2 ^ 53 <= largestObjectNumber c < 2 ^ 53 ->
  register object c
  = (Ok (PDFRef_of (largestObjectNumber c + 1)),
     set_largestObjectNumber
       (largestObjectNumber c + 1)
       (set_indirectObjects
          (assoc_set PDFRef_eqb (indirectObjects c)
                     (PDFRef_of (largestObjectNumber c + 1)) object) c)).
Proof.
  intros Hs. rewrite register_run, (add_one_exact _ Hs). reflexivity.
Qed.

Lemma delete_run (ref : PDFRef) (c : Context) :
  delete ref c
  = (Ok (assoc_has PDFRef_eqb (indirectObjects c) ref),
     set_indirectObjects (assoc_delete PDFRef_eqb (indirectObjects c) ref) c).
Proof. reflexivity. Qed.

Lemma getPush_run (c : Context) :
  getPushGraphicsStateContentStream byteArrayToHexString c
  = match pushGraphicsStateContentStreamRef c with
    | Some r => (Ok r, c)
    | None =>
        (Ok (PDFRef_of (next c)),
         set_pushRef (PDFRef_of (next c)) (snd (register pushStream c)))
    end.
Proof.
  unfold getPushGraphicsStateContentStream, bind, get.
  destruct (pushGraphicsStateContentStreamRef c) as [r|]; [reflexivity|].
  change (PDFContentStream_of (obj byteArrayToHexString (LObject []))
                              [PDFOperator_of PushGraphicsState])
    with (pushStream (number := number)).
  rewrite register_run. reflexivity.
Qed.

Lemma getPop_run (c : Context) :
  getPopGraphicsStateContentStream byteArrayToHexString c
  = match popGraphicsStateContentStreamRef c with
    | Some r => (Ok r, c)
    | None =>
        (Ok (PDFRef_of (next c)),
         set_popRef (PDFRef_of (next c)) (snd (register popStream c)))
    end.
Proof.
  unfold getPopGraphicsStateContentStream, bind, get.
  destruct (popGraphicsStateContentStreamRef c) as [r|]; [reflexivity|].
  change (PDFContentStream_of (obj byteArrayToHexString (LObject []))
                              [PDFOperator_of PopGraphicsState])
    with (popStream (number := number)).
  rewrite register_run. reflexivity.
Qed.

(** ** The counter never decreases and bounds every key *)

(** Whatever the counter is, a call leaves it at 2^53 or above if it was
    there, and at or above its old value otherwise. *)
Lemma largestObjectNumber_after_capped (op : Op) (c : Context) :
  0 <= largestObjectNumber c ->
  Z.min (largestObjectNumber c) (2 ^ 53)
  <= largestObjectNumber (after byteArrayToHexString op c) /\
  0 <= largestObjectNumber (after byteArrayToHexString op c).
Proof.
  intros H0. pose proof (add_one_capped (largestObjectNumber c) H0) as Hn.
  unfold after, call, bind.
  destruct op as [ref o|o| |ref| |].
  - rewrite assign_run. simpl. lia.
  - rewrite register_run. simpl. lia.
  - rewrite nextRef_run. simpl. lia.
  - rewrite delete_run. simpl. lia.
  - rewrite getPush_run.
    destruct (pushGraphicsStateContentStreamRef c); simpl; [lia|].
    rewrite register_run. simpl. lia.
  - rewrite getPop_run.
    destruct (popGraphicsStateContentStreamRef c); simpl; [lia|].
    rewrite register_run. simpl. lia.
Qed.

Lemma largestObjectNumber_after (op : Op) (c : Context) :
  JS.isSafeInteger (largestObjectNumber c) = true ->
  largestObjectNumber c <= largestObjectNumber (after byteArrayToHexString op c).
Proof.
  intros Hs. pose proof (add_one_safe (largestObjectNumber c) Hs) as Hn.
  unfold after, call, bind.
  destruct op as [ref o|o| |ref| |].
  - rewrite assign_run. simpl. lia.
  - rewrite register_run. simpl. lia.
  - rewrite nextRef_run. simpl. lia.
  - rewrite delete_run. simpl. lia.
  - rewrite getPush_run.
    destruct (pushGraphicsStateContentStreamRef c); simpl; [lia|].
    rewrite register_run. simpl. lia.
  - rewrite getPop_run.
    destruct (popGraphicsStateContentStreamRef c); simpl; [lia|].
    rewrite register_run. simpl. lia.
Qed.

Lemma assoc_set_Forall {K V} (eqb : K -> K -> bool) (P : K * V -> Prop)
      (l : list (K * V)) k v :
  (forall k' v', P (k', v') -> P (k', v)) ->
  Forall P l -> P (k, v) -> Forall P (assoc_set eqb l k v).
Proof.
  intros Hrepl Hl Hk. induction Hl as [|[k' v'] t Hx Ht IH]; simpl.
  - constructor; [exact Hk|constructor].
  - destruct (eqb k' k).
    + constructor; [eapply Hrepl; exact Hx|exact Ht].
    + constructor; [exact Hx|exact IH].
Qed.

Lemma Forall_weaken_bound (l : list (PDFRef * Object)) (a b : Z) :
  a <= b ->
  Forall (fun e => objectNumber (fst e) <= a) l ->
  Forall (fun e => objectNumber (fst e) <= b) l.
Proof.
  intros Hab. apply Forall_impl. intros e He. lia.
Qed.

Lemma bounded_create : bounded (PDFContext_create (number := number)).
Proof.
  unfold bounded; simpl. repeat split; try discriminate; try lia. constructor.
Qed.

Lemma bounded_assign ref (o : Object) c :
  bounded c -> bounded (snd (assign ref o c)).
Proof.
  intros (Hk & Hpush & Hpop & H0). rewrite assign_run.
  unfold bounded; simpl. repeat split.
  - apply assoc_set_Forall.
    + intros k' v' H. exact H.
    + eapply Forall_weaken_bound; [|exact Hk]. lia.
    + simpl. lia.
  - intros r Hr. specialize (Hpush r Hr). lia.
  - intros r Hr. specialize (Hpop r Hr). lia.
  - lia.
Qed.

(** Below 2^53 the increment is exact, and the bound is kept. *)
Lemma bounded_next (c : Context) :
  bounded c -> largestObjectNumber c < 2 ^ 53 ->
  next c = largestObjectNumber c + 1.
Proof.
  intros (_ & _ & _ & H0) Hs. apply add_one_exact. lia.
Qed.

Lemma bounded_register (o : Object) c :
  bounded c -> largestObjectNumber c < 2 ^ 53 -> bounded (snd (register o c)).
Proof.
  intros Hb Hs. pose proof (bounded_next c Hb Hs) as Hn.
  destruct Hb as (Hk & Hpush & Hpop & H0). rewrite register_run.
  unfold bounded; simpl. repeat split.
  - apply assoc_set_Forall.
    + intros k' v' H. exact H.
    + eapply Forall_weaken_bound; [|exact Hk]. lia.
    + simpl. lia.
  - intros r Hr. specialize (Hpush r Hr). lia.
  - intros r Hr. specialize (Hpop r Hr). lia.
  - lia.
Qed.

Lemma bounded_after (op : Op) (c : Context) :
  bounded c -> largestObjectNumber c < 2 ^ 53 ->
  bounded (after byteArrayToHexString op c).
Proof.
  intros Hb Hs. pose proof (bounded_next c Hb Hs) as Hn.
  unfold after, call, bind.
  destruct op as [ref o|o| |ref| |].
  - pose proof (bounded_assign ref o c Hb) as H.
    destruct (assign ref o c) as [[[]|e] c']; exact H.
  - pose proof (bounded_register o c Hb Hs) as H.
    destruct (register o c) as [[r|e] c']; exact H.
  - rewrite nextRef_run. destruct Hb as (Hk & Hpush & Hpop & H0).
    unfold bounded; simpl. repeat split.
    + eapply Forall_weaken_bound; [|exact Hk]. lia.
    + intros r Hr. specialize (Hpush r Hr). lia.
    + intros r Hr. specialize (Hpop r Hr). lia.
    + lia.
  - rewrite delete_run. destruct Hb as (Hk & Hpush & Hpop & H0).
    unfold bounded; simpl. repeat split; auto.
    unfold assoc_delete. rewrite Forall_forall in *.
    intros e He. apply filter_In in He. apply Hk, He.
  - rewrite getPush_run.
    destruct (pushGraphicsStateContentStreamRef c) as [r|] eqn:E; [exact Hb|].
    pose proof (bounded_register pushStream c Hb Hs) as H.
    rewrite register_run in *. simpl in *.
    destruct H as (Hk & Hpush & Hpop & H0).
    unfold bounded; simpl. repeat split; auto.
    intros r Hr. inversion Hr; subst. simpl. lia.
  - rewrite getPop_run.
    destruct (popGraphicsStateContentStreamRef c) as [r|] eqn:E; [exact Hb|].
    pose proof (bounded_register popStream c Hb Hs) as H.
    rewrite register_run in *. simpl in *.
    destruct H as (Hk & Hpush & Hpop & H0).
    unfold bounded; simpl. repeat split; auto.
    intros r Hr. inversion Hr; subst. simpl. lia.
Qed.

Lemma handedOut_bounded (op : Op) (c : Context) :
  bounded c -> largestObjectNumber c < 2 ^ 53 ->
  Forall (fun r => objectNumber r <= largestObjectNumber (after byteArrayToHexString op c))
         (handedOut byteArrayToHexString op c).
Proof.
  intros Hb Hs. pose proof (bounded_next c Hb Hs) as Hn.
  destruct Hb as (Hk & Hpush & Hpop & H0). unfold handedOut, after, call, bind.
  destruct op as [ref o|o| |ref| |].
  - rewrite assign_run. simpl. repeat constructor. lia.
  - rewrite register_run. simpl. repeat constructor. simpl. lia.
  - rewrite nextRef_run. simpl. repeat constructor. simpl. lia.
  - rewrite delete_run. simpl. constructor.
  - rewrite getPush_run.
    destruct (pushGraphicsStateContentStreamRef c) as [r|] eqn:E; simpl.
    + repeat constructor. apply Hpush. reflexivity.
    + rewrite register_run. simpl. repeat constructor. simpl. lia.
  - rewrite getPop_run.
    destruct (popGraphicsStateContentStreamRef c) as [r|] eqn:E; simpl.
    + repeat constructor. apply Hpop. reflexivity.
    + rewrite register_run. simpl. repeat constructor. simpl. lia.
Qed.

(** A history that ends below 2^53 was below 2^53 all along. *)
Lemma history_counter (ops : list Op) (c : Context) :
  0 <= largestObjectNumber c ->
  Z.min (largestObjectNumber c) (2 ^ 53)
  <= largestObjectNumber (snd (history byteArrayToHexString ops c)).
Proof.
  revert c. induction ops as [|op rest IH]; intros c H0; simpl; [lia|].
  destruct (largestObjectNumber_after_capped op c H0) as [Hstep H1].
  specialize (IH _ H1).
  destruct (history byteArrayToHexString rest (after byteArrayToHexString op c))
    as [refs c'] eqn:E.
  simpl in *. lia.
Qed.

Lemma history_bounded (ops : list Op) (c : Context) :
  bounded c ->
  largestObjectNumber (snd (history byteArrayToHexString ops c)) < 2 ^ 53 ->
  bounded (snd (history byteArrayToHexString ops c)) /\
  largestObjectNumber c <= largestObjectNumber (snd (history byteArrayToHexString ops c)) /\
  Forall (fun r => objectNumber r
                   <= largestObjectNumber (snd (history byteArrayToHexString ops c)))
         (fst (history byteArrayToHexString ops c)).
Proof.
  revert c. induction ops as [|op rest IH]; intros c Hb Hend.
  - simpl. split; [exact Hb|split; [lia|constructor]].
  - assert (H0 : 0 <= largestObjectNumber c) by apply Hb.
    pose proof (history_counter (op :: rest) c H0) as Hcap.
    assert (Hs : largestObjectNumber c < 2 ^ 53) by lia.
    assert (Hstep : largestObjectNumber c
                    <= largestObjectNumber (after byteArrayToHexString op c)).
    { apply largestObjectNumber_after. unfold JS.isSafeInteger.
      apply Z.leb_le. lia. }
    simpl in Hend |- *.
    specialize (IH _ (bounded_after op c Hb Hs)).
    destruct (history byteArrayToHexString rest (after byteArrayToHexString op c))
      as [refs c'] eqn:E.
    simpl in *. destruct (IH Hend) as (Hb' & Hmono & Hrefs).
    split; [exact Hb'|split; [lia|]].
    apply Forall_app. split; [|exact Hrefs].
    eapply Forall_impl; [|apply handedOut_bounded; [exact Hb|exact Hs]].
    intros r Hr. simpl in Hr. lia.
Qed.


(** ** The two memoized content streams *)

Lemma assoc_get_bounded (l : list (PDFRef * Object)) (bound : Z) (r : PDFRef) :
  Forall (fun e => objectNumber (fst e) <= bound) l ->
  bound < objectNumber r ->
  assoc_get PDFRef_eqb l r = None.
Proof.
  intros Hl Hr. induction Hl as [|[k v] t Hk Ht IH]; simpl; [reflexivity|].
  simpl in Hk. unfold PDFRef_eqb at 1.
  destruct (Z.eqb_spec (objectNumber k) (objectNumber r)); [lia|]. exact IH.
Qed.

Lemma assoc_set_length {K V} (eqb : K -> K -> bool) (l : list (K * V)) k v :
  length (assoc_set eqb l k v)
  = match assoc_get eqb l k with
    | Some _ => length l
    | None => S (length l)
    end.
Proof.
  induction l as [|[k' v'] t IH]; simpl; [reflexivity|].
  destruct (eqb k' k); simpl; [reflexivity|].
  rewrite IH. destruct (assoc_get eqb t k); reflexivity.
Qed.

(** [register] on a bounded graph below 2^53 adds one entry. *)
Lemma register_adds_one (o : Object) (c : Context) :
  bounded c -> largestObjectNumber c < 2 ^ 53 ->
  length (indirectObjects (snd (register o c))) = S (length (indirectObjects c)).
Proof.
  intros Hb Hs. pose proof (bounded_next c Hb Hs) as Hn.
  destruct Hb as (Hk & _). rewrite register_run. simpl.
  rewrite assoc_set_length, (assoc_get_bounded _ (largestObjectNumber c)); auto.
  simpl. lia.
Qed.

Lemma pushRef_after (op : Op) (c : Context) :
  pushGraphicsStateContentStreamRef (after byteArrayToHexString op c)
  = if isPushGraphicsState op
    then Some (match pushGraphicsStateContentStreamRef c with
               | Some r => r
               | None => PDFRef_of (next c)
               end)
    else pushGraphicsStateContentStreamRef c.
Proof.
  unfold after, call, bind.
  destruct op as [ref o|o| |ref| |]; simpl isPushGraphicsState; cbv iota.
  - rewrite assign_run. reflexivity.
  - rewrite register_run. reflexivity.
  - rewrite nextRef_run. reflexivity.
  - rewrite delete_run. reflexivity.
  - rewrite getPush_run.
    destruct (pushGraphicsStateContentStreamRef c) as [r|] eqn:E; simpl; auto.
  - rewrite getPop_run.
    destruct (popGraphicsStateContentStreamRef c) as [r|] eqn:E; simpl; auto.
    rewrite register_run. reflexivity.
Qed.

Lemma popRef_after (op : Op) (c : Context) :
  popGraphicsStateContentStreamRef (after byteArrayToHexString op c)
  = if isPopGraphicsState op
    then Some (match popGraphicsStateContentStreamRef c with
               | Some r => r
               | None => PDFRef_of (next c)
               end)
    else popGraphicsStateContentStreamRef c.
Proof.
  unfold after, call, bind.
  destruct op as [ref o|o| |ref| |]; simpl isPopGraphicsState; cbv iota.
  - rewrite assign_run. reflexivity.
  - rewrite register_run. reflexivity.
  - rewrite nextRef_run. reflexivity.
  - rewrite delete_run. reflexivity.
  - rewrite getPush_run.
    destruct (pushGraphicsStateContentStreamRef c) as [r|] eqn:E; simpl; auto.
    rewrite register_run. reflexivity.
  - rewrite getPop_run.
    destruct (popGraphicsStateContentStreamRef c) as [r|] eqn:E; simpl; auto.
Qed.

(** What one call of [getPushGraphicsStateContentStream] adds. *)
Lemma push_adds (c : Context) :
  bounded c -> largestObjectNumber c < 2 ^ 53 ->
  length (indirectObjects (after byteArrayToHexString OpPushGraphicsState c))
  = (length (indirectObjects c)
     + match pushGraphicsStateContentStreamRef c with Some _ => 0 | None => 1 end)%nat.
Proof.
  intros Hb Hs. unfold after, call, bind. rewrite getPush_run.
  destruct (pushGraphicsStateContentStreamRef c) as [r|]; simpl; [lia|].
  change (length (indirectObjects (snd (register pushStream c)))
          = (length (indirectObjects c) + 1)%nat).
  rewrite register_adds_one by assumption. lia.
Qed.

Lemma pop_adds (c : Context) :
  bounded c -> largestObjectNumber c < 2 ^ 53 ->
  length (indirectObjects (after byteArrayToHexString OpPopGraphicsState c))
  = (length (indirectObjects c)
     + match popGraphicsStateContentStreamRef c with Some _ => 0 | None => 1 end)%nat.
Proof.
  intros Hb Hs. unfold after, call, bind. rewrite getPop_run.
  destruct (popGraphicsStateContentStreamRef c) as [r|]; simpl; [lia|].
  change (length (indirectObjects (snd (register popStream c)))
          = (length (indirectObjects c) + 1)%nat).
  rewrite register_adds_one by assumption. lia.
Qed.

(** A call that finds the reference memoized adds nothing, whatever the
    counter is. *)
Lemma push_adds_none (c : Context) (r : PDFRef) :
  pushGraphicsStateContentStreamRef c = Some r ->
  after byteArrayToHexString OpPushGraphicsState c = c.
Proof.
  intros E. unfold after, call, bind. rewrite getPush_run, E. reflexivity.
Qed.

Lemma pop_adds_none (c : Context) (r : PDFRef) :
  popGraphicsStateContentStreamRef c = Some r ->
  after byteArrayToHexString OpPopGraphicsState c = c.
Proof.
  intros E. unfold after, call, bind. rewrite getPop_run, E. reflexivity.
Qed.

(** Over a whole history that stays below 2^53 until its last call, the
    push stream is registered once, by the first call that asks for it. *)
Lemma objectsAddedBy_push (ops : list Op) (c : Context) :
  bounded c ->
  largestObjectNumber (snd (history byteArrayToHexString ops c)) < 2 ^ 53 ->
  objectsAddedBy byteArrayToHexString isPushGraphicsState
                 (ops ++ [OpPushGraphicsState; OpPushGraphicsState]) c
  = match pushGraphicsStateContentStreamRef c with
    | Some _ => 0%nat
    | None => 1%nat
    end.
Proof.
  revert c. induction ops as [|op rest IH]; intros c Hb Hend.
  - simpl in Hend. cbn [app objectsAddedBy isPushGraphicsState].
    assert (Hmemo : exists r,
               pushGraphicsStateContentStreamRef
                 (after byteArrayToHexString OpPushGraphicsState c) = Some r).
    { rewrite pushRef_after. eexists. reflexivity. }
    destruct Hmemo as [r Hmemo].
    rewrite (push_adds_none _ r Hmemo), push_adds by assumption.
    destruct (pushGraphicsStateContentStreamRef c); lia.
  - assert (H0 : 0 <= largestObjectNumber c) by apply Hb.
    pose proof (history_counter (op :: rest) c H0) as Hcap.
    assert (Hs : largestObjectNumber c < 2 ^ 53) by lia.
    simpl in Hend.
    destruct (history byteArrayToHexString rest (after byteArrayToHexString op c))
      as [refs c'] eqn:E.
    cbn [app objectsAddedBy].
    rewrite IH; [|apply bounded_after; assumption|rewrite E; exact Hend].
    rewrite pushRef_after.
    destruct op as [ref o|o| |ref| |]; cbn [isPushGraphicsState];
      try (destruct (pushGraphicsStateContentStreamRef c); reflexivity).
    rewrite push_adds by assumption.
    destruct (pushGraphicsStateContentStreamRef c); simpl; lia.
Qed.

Lemma objectsAddedBy_pop (ops : list Op) (c : Context) :
  bounded c ->
  largestObjectNumber (snd (history byteArrayToHexString ops c)) < 2 ^ 53 ->
  objectsAddedBy byteArrayToHexString isPopGraphicsState
                 (ops ++ [OpPopGraphicsState; OpPopGraphicsState]) c
  = match popGraphicsStateContentStreamRef c with
    | Some _ => 0%nat
    | None => 1%nat
    end.
Proof.
  revert c. induction ops as [|op rest IH]; intros c Hb Hend.
  - simpl in Hend. cbn [app objectsAddedBy isPopGraphicsState].
    assert (Hmemo : exists r,
               popGraphicsStateContentStreamRef
                 (after byteArrayToHexString OpPopGraphicsState c) = Some r).
    { rewrite popRef_after. eexists. reflexivity. }
    destruct Hmemo as [r Hmemo].
    rewrite (pop_adds_none _ r Hmemo), pop_adds by assumption.
    destruct (popGraphicsStateContentStreamRef c); lia.
  - assert (H0 : 0 <= largestObjectNumber c) by apply Hb.
    pose proof (history_counter (op :: rest) c H0) as Hcap.
    assert (Hs : largestObjectNumber c < 2 ^ 53) by lia.
    simpl in Hend.
    destruct (history byteArrayToHexString rest (after byteArrayToHexString op c))
      as [refs c'] eqn:E.
    cbn [app objectsAddedBy].
    rewrite IH; [|apply bounded_after; assumption|rewrite E; exact Hend].
    rewrite popRef_after.
    destruct op as [ref o|o| |ref| |]; cbn [isPopGraphicsState];
      try (destruct (popGraphicsStateContentStreamRef c); reflexivity).
    rewrite pop_adds by assumption.
    destruct (popGraphicsStateContentStreamRef c); simpl; lia.
Qed.

(** A second call returns the memoized reference and leaves the graph as
    it is. *)
Lemma getPush_twice (c : Context) :
  exists r,
    fst (getPushGraphicsStateContentStream byteArrayToHexString c) = Ok r /\
    getPushGraphicsStateContentStream byteArrayToHexString
      (snd (getPushGraphicsStateContentStream byteArrayToHexString c))
    = (Ok r, snd (getPushGraphicsStateContentStream byteArrayToHexString c)).
Proof.
  rewrite getPush_run.
  destruct (pushGraphicsStateContentStreamRef c) as [r|] eqn:E.
  - exists r. simpl. rewrite getPush_run, E. auto.
  - eexists. split; [reflexivity|]. simpl snd. rewrite getPush_run. reflexivity.
Qed.

Lemma getPop_twice (c : Context) :
  exists r,
    fst (getPopGraphicsStateContentStream byteArrayToHexString c) = Ok r /\
    getPopGraphicsStateContentStream byteArrayToHexString
      (snd (getPopGraphicsStateContentStream byteArrayToHexString c))
    = (Ok r, snd (getPopGraphicsStateContentStream byteArrayToHexString c)).
Proof.
  rewrite getPop_run.
  destruct (popGraphicsStateContentStreamRef c) as [r|] eqn:E.
  - exists r. simpl. rewrite getPop_run, E. auto.
  - eexists. split; [reflexivity|]. simpl snd. rewrite getPop_run. reflexivity.
Qed.

Lemma after_push (c : Context) :
  after byteArrayToHexString OpPushGraphicsState c
  = snd (getPushGraphicsStateContentStream byteArrayToHexString c).
Proof.
  unfold after, call, bind.
  destruct (getPushGraphicsStateContentStream byteArrayToHexString c) as [[r|e] c'];
    reflexivity.
Qed.

Lemma after_pop (c : Context) :
  after byteArrayToHexString OpPopGraphicsState c
  = snd (getPopGraphicsStateContentStream byteArrayToHexString c).
Proof.
  unfold after, call, bind.
  destruct (getPopGraphicsStateContentStream byteArrayToHexString c) as [[r|e] c'];
    reflexivity.
Qed.


(** ** Enumeration in ascending order *)

Lemma sort_insert_perm {A} (cmp : A -> A -> Z) (x : A) (l : list A) :
  Permutation (sort_insert cmp x l) (x :: l).
Proof.
  induction l as [|y t IH]; simpl; [reflexivity|].
  destruct (cmp x y <=? 0); [reflexivity|].
  rewrite IH. apply perm_swap.
Qed.

Lemma Array_sort_perm {A} (cmp : A -> A -> Z) (l : list A) :
  Permutation (Array_sort cmp l) l.
Proof.
  induction l as [|x t IH]; simpl; [reflexivity|].
  rewrite sort_insert_perm. constructor. exact IH.
Qed.

Lemma sort_insert_ascending (x : PDFRef * Object) (l : list (PDFRef * Object)) :
  ascending l -> ascending (sort_insert byAscendingObjectNumber x l).
Proof.
  unfold ascending. intros Hl.
  induction Hl as [|y t Ht IH Hy]; simpl.
  - constructor; constructor.
  - destruct (byAscendingObjectNumber x y <=? 0) eqn:E;
      unfold byAscendingObjectNumber in E;
      [apply Z.leb_le in E|apply Z.leb_gt in E].
    + constructor; [constructor; assumption|].
      constructor; [cbv beta; lia|].
      eapply Forall_impl; [|exact Hy]. intros z Hz. cbv beta in *. lia.
    + constructor; [exact IH|].
      eapply Permutation_Forall; [symmetry; apply sort_insert_perm|].
      constructor; [cbv beta; lia|exact Hy].
Qed.

Lemma Array_sort_ascending (l : list (PDFRef * Object)) :
  ascending (Array_sort byAscendingObjectNumber l).
Proof.
  induction l as [|x t IH]; simpl; [constructor|].
  apply sort_insert_ascending, IH.
Qed.

(** Two ascending sequences of numbers with the same elements are equal. *)
Lemma ascending_unique (l1 l2 : list Z) :
  StronglySorted Z.le l1 -> StronglySorted Z.le l2 ->
  Permutation l1 l2 -> l1 = l2.
Proof.
  intros H1. revert l2.
  induction H1 as [|x t Ht IH Hx]; intros l2 H2 Hp.
  - apply Permutation_nil in Hp. now subst.
  - destruct H2 as [|y u Hu Hy].
    + symmetry in Hp. apply Permutation_nil in Hp. discriminate Hp.
    + assert (Hxy : x = y).
      { assert (Hin1 : In x (y :: u))
          by (eapply Permutation_in; [exact Hp|now left]).
        assert (Hin2 : In y (x :: t))
          by (eapply Permutation_in; [symmetry; exact Hp|now left]).
        rewrite Forall_forall in Hx, Hy.
        destruct Hin1 as [->|Hin1]; [reflexivity|].
        destruct Hin2 as [->|Hin2]; [reflexivity|].
        specialize (Hx _ Hin2). specialize (Hy _ Hin1). lia. }
      subst y. f_equal. apply IH; [exact Hu|].
      eapply Permutation_cons_inv; exact Hp.
Qed.

Lemma ascending_numbers (l : list (PDFRef * Object)) :
  ascending l ->
  StronglySorted Z.le (map (fun e => objectNumber (fst e)) l).
Proof.
  unfold ascending. induction 1 as [|x t Ht IH Hx]; simpl; constructor; auto.
  rewrite Forall_map. exact Hx.
Qed.

Lemma enumerateIndirectObjects_run (c : Context) :
  enumerateIndirectObjects c
  = (Ok (Array_sort byAscendingObjectNumber (indirectObjects c)), c).
Proof. reflexivity. Qed.

Lemma PDFRef_eqb_eq (a b : PDFRef) : PDFRef_eqb a b = true <-> a = b.
Proof.
  unfold PDFRef_eqb. rewrite andb_true_iff, !Z.eqb_eq.
  destruct a, b; simpl. split.
  - intros [-> ->]. reflexivity.
  - intros H. inversion H. auto.
Qed.

Lemma assoc_set_fresh (l : list (PDFRef * Object)) (k : PDFRef) (v : Object) :
  ~ In k (map fst l) -> assoc_set PDFRef_eqb l k v = l ++ [(k, v)].
Proof.
  induction l as [|[k' v'] t IH]; simpl; intros Hk; [reflexivity|].
  destruct (PDFRef_eqb k' k) eqn:E.
  - apply PDFRef_eqb_eq in E. tauto.
  - rewrite IH by tauto. reflexivity.
Qed.

Lemma indirectObjects_assignAll (entries : list (PDFRef * Object)) (c : Context) :
  NoDup (map fst (indirectObjects c ++ entries)) ->
  indirectObjects (assignAll entries c) = indirectObjects c ++ entries.
Proof.
  revert c. induction entries as [|[k v] t IH]; intros c Hnd; simpl.
  - now rewrite app_nil_r.
  - rewrite assign_run. simpl fst in *. simpl snd in *.
    assert (Hfresh : ~ In k (map fst (indirectObjects c))).
    { rewrite map_app in Hnd. simpl in Hnd.
      apply NoDup_remove_2 in Hnd. intros Hin. apply Hnd.
      apply in_or_app. now left. }
    rewrite IH; simpl indirectObjects; rewrite assoc_set_fresh by exact Hfresh.
    + rewrite <- app_assoc. reflexivity.
    + rewrite <- app_assoc. exact Hnd.
Qed.

(** C6.  [enumerateIndirectObjects] returns, without changing the graph,
    exactly the entries of the map, in ascending order of object number;
    two graphs holding the same entries, inserted in whatever order,
    enumerate the same sequence of object numbers.  In particular the
    assignments of pairwise different references to a fresh graph are
    enumerated in the same ascending order whatever order they are made
    in. *)
Theorem enumerateIndirectObjects_ascending (c : Context) :
  (exists entries, enumerateIndirectObjects c = (Ok entries, c) /\
                   enumerated c = entries) /\
  ascending (enumerated c) /\
  Permutation (enumerated c) (indirectObjects c) /\
  (forall c' : Context,
      Permutation (indirectObjects c) (indirectObjects c') ->
      map (fun e => objectNumber (fst e)) (enumerated c)
      = map (fun e => objectNumber (fst e)) (enumerated c')) /\
  (forall entries entries' : list (PDFRef * Object),
      NoDup (map fst entries) -> Permutation entries entries' ->
      Permutation (enumerated (assignAll entries PDFContext_create)) entries /\
      map (fun e => objectNumber (fst e))
          (enumerated (assignAll entries PDFContext_create))
      = map (fun e => objectNumber (fst e))
            (enumerated (assignAll entries' PDFContext_create))).
Proof.
  assert (He : forall d : Context,
             enumerated d = Array_sort byAscendingObjectNumber (indirectObjects d))
    by reflexivity.
  assert (Hsame : forall d d' : Context,
             Permutation (indirectObjects d) (indirectObjects d') ->
             map (fun e => objectNumber (fst e)) (enumerated d)
             = map (fun e => objectNumber (fst e)) (enumerated d')).
  { intros d d' Hp. rewrite !He.
    apply ascending_unique.
    - apply ascending_numbers, Array_sort_ascending.
    - apply ascending_numbers, Array_sort_ascending.
    - apply Permutation_map. rewrite !Array_sort_perm. exact Hp. }
  split; [eexists; split; reflexivity|].
  split; [rewrite He; apply Array_sort_ascending|].
  split; [rewrite He; apply Array_sort_perm|].
  split; [apply Hsame|].
  intros entries entries' Hnd Hp.
  assert (Hnd' : NoDup (map fst entries')).
  { eapply Permutation_NoDup; [apply Permutation_map, Hp|exact Hnd]. }
  split.
  - rewrite He, Array_sort_perm, indirectObjects_assignAll by exact Hnd.
    reflexivity.
  - apply Hsame.
    rewrite !indirectObjects_assignAll by assumption. exact Hp.
Qed.

End GraphProperties.

(* ================================================================== *)
(** * Properties: literals and objects *)
(* ================================================================== *)

Section LiteralProperties.

Variable number : Type.
Variable number_of_Z : Z -> number.
Variable byteArrayToHexString : list Z -> JS.jsstring.

Local Abbreviation Lit := (Literal number).
Local Abbreviation Object := (PDFObject number).

(** Induction on a literal together with the literals nested in it. *)
Section LiteralInduction.

Variable P : Lit -> Prop.
Hypothesis HNull : P LNull.
Hypothesis HUndefined : P LUndefined.
Hypothesis HString : forall s, P (LString s).
Hypothesis HNumber : forall n, P (LNumber n).
Hypothesis HBoolean : forall b, P (LBoolean b).
Hypothesis HUint8Array : forall bytes, P (LUint8Array bytes).
Hypothesis HArray : forall items, Forall P items -> P (LArray items).
Hypothesis HObject :
  forall props, Forall (fun kv => P (snd kv)) props -> P (LObject props).
Hypothesis HPDFObject : forall o, P (LPDFObject o).

Lemma Literal_nested_ind (l : Lit) : P l.
Proof.
  revert l. fix IH 1. intros [ | |s|n|b|bytes|items|props|o].
  - exact HNull.
  - exact HUndefined.
  - apply HString.
  - apply HNumber.
  - apply HBoolean.
  - apply HUint8Array.
  - apply HArray. revert items. fix IHitems 1. intros [|x t].
    + constructor.
    + constructor; [apply IH|apply IHitems].
  - apply HObject. revert props. fix IHprops 1. intros [|kv t].
    + constructor.
    + constructor; [apply IH|apply IHprops].
  - apply HPDFObject.
Qed.

End LiteralInduction.

Lemma jsstring_eqb_eq (a b : JS.jsstring) : jsstring_eqb a b = true <-> a = b.
Proof.
  unfold jsstring_eqb. destruct (list_eq_dec Z.eq_dec a b); split; congruence.
Qed.

Lemma distinctKeys_NoDup (keys : list JS.jsstring) :
  distinctKeys keys = true <-> NoDup keys.
Proof.
  induction keys as [|k t IH]; simpl.
  - split; [constructor|reflexivity].
  - rewrite andb_true_iff, negb_true_iff, IH. split.
    + intros [Hk Ht]. constructor; [|exact Ht].
      intros Hin. apply Bool.not_true_iff_false in Hk. apply Hk.
      apply existsb_exists. exists k. split; [exact Hin|].
      now apply jsstring_eqb_eq.
    + intros H. inversion H as [|? ? Hk Ht]; subst. split; [|exact Ht].
      apply Bool.not_true_iff_false. intros Hex.
      apply existsb_exists in Hex. destruct Hex as (k' & Hin & Heq).
      apply jsstring_eqb_eq in Heq. now subst.
Qed.

(** A key that is not there yet is appended. *)
Lemma assoc_set_new {V} (l : list (JS.jsstring * V)) k v :
  ~ In k (map fst l) -> assoc_set jsstring_eqb l k v = l ++ [(k, v)].
Proof.
  induction l as [|[k' v'] t IH]; simpl; intros Hk; [reflexivity|].
  destruct (jsstring_eqb k' k) eqn:E.
  - apply jsstring_eqb_eq in E. tauto.
  - rewrite IH by tauto. reflexivity.
Qed.

Lemma assoc_has_new {V} (l : list (JS.jsstring * V)) k :
  ~ In k (map fst l) -> assoc_has jsstring_eqb l k = false.
Proof.
  unfold assoc_has. induction l as [|[k' v'] t IH]; simpl; intros Hk; [reflexivity|].
  destruct (jsstring_eqb k' k) eqn:E.
  - apply jsstring_eqb_eq in E. tauto.
  - apply IH. tauto.
Qed.

(** Filling a map with pairwise different keys keeps them in order. *)
Lemma fold_assoc_set {V W} (f : V -> W) (l : list (JS.jsstring * V))
      (acc : list (JS.jsstring * W)) :
  NoDup (map fst acc ++ map fst l) ->
  fold_left (fun m kv => assoc_set jsstring_eqb m (fst kv) (f (snd kv))) l acc
  = acc ++ map (fun kv => (fst kv, f (snd kv))) l.
Proof.
  revert acc. induction l as [|[k v] t IH]; intros acc Hnd; simpl.
  - now rewrite app_nil_r.
  - assert (Hfresh : ~ In k (map fst acc)).
    { simpl in Hnd. apply NoDup_remove_2 in Hnd. intros Hin. apply Hnd.
      apply in_or_app. now left. }
    rewrite assoc_set_new by exact Hfresh.
    rewrite IH.
    + rewrite <- app_assoc. reflexivity.
    + rewrite map_app. simpl. rewrite <- app_assoc. exact Hnd.
Qed.

(** The keys of an object that come first are in order themselves. *)
Lemma ownKeysOrdered_prefix (l1 l2 : list JS.jsstring) :
  ownKeysOrdered (l1 ++ l2) = true -> ownKeysOrdered l1 = true.
Proof.
  induction l1 as [|k t IH]; simpl; [reflexivity|].
  rewrite forallb_app, !andb_true_iff. intros [[Ht _] Hrest].
  split; [exact Ht|apply IH, Hrest].
Qed.

(** An array index that is above those already there goes last. *)
Lemma insertIndex_last (i : Z) (k : JS.jsstring) (v : Lit)
      (o : list (JS.jsstring * Lit)) :
  JS.arrayIndex k = Some i ->
  ownKeysOrdered (map fst o ++ [k]) = true ->
  insertIndex i (k, v) o = o ++ [(k, v)].
Proof.
  intros Hk. induction o as [|[k' v'] t IH]; simpl; [reflexivity|].
  rewrite forallb_app, !andb_true_iff. simpl. rewrite Hk.
  intros [[_ Hlast] Hrest].
  destruct (JS.arrayIndex k') as [j|]; [|discriminate].
  rewrite andb_true_r in Hlast. rewrite Hlast, (IH Hrest). reflexivity.
Qed.

(** A property assignment creates the key at the end when that is where
    the object lists it. *)
Lemma LObject_set_last (o : list (JS.jsstring * Lit)) (k : JS.jsstring) (v : Lit) :
  jsstring_eqb k (JS.lit "__proto__") = false ->
  ~ In k (map fst o) ->
  ownKeysOrdered (map fst o ++ [k]) = true ->
  LObject_set o k v = o ++ [(k, v)].
Proof.
  intros Hproto Hfresh Hord. unfold LObject_set.
  rewrite Hproto, (assoc_has_new o k Hfresh).
  destruct (JS.arrayIndex k) as [i|] eqn:Hk; [|reflexivity].
  apply insertIndex_last; assumption.
Qed.

(** Filling a literal object with its own keys in their order gives the
    properties in that order. *)
Lemma fold_LObject_set {V} (f : V -> Lit) (l : list (JS.jsstring * V))
      (acc : list (JS.jsstring * Lit)) :
  NoDup (map fst acc ++ map fst l) ->
  ownKeysOrdered (map fst acc ++ map fst l) = true ->
  forallb (fun kv => negb (jsstring_eqb (fst kv) (JS.lit "__proto__"))) l = true ->
  fold_left (fun lit nv => LObject_set lit (fst nv) (f (snd nv))) l acc
  = acc ++ map (fun kv => (fst kv, f (snd kv))) l.
Proof.
  revert acc. induction l as [|[k v] t IH]; intros acc Hnd Hord Hproto; simpl.
  - now rewrite app_nil_r.
  - simpl in Hproto. apply andb_true_iff in Hproto. destruct Hproto as [Hk Ht].
    apply negb_true_iff in Hk.
    assert (Hfresh : ~ In k (map fst acc)).
    { simpl in Hnd. apply NoDup_remove_2 in Hnd. intros Hin. apply Hnd.
      apply in_or_app. now left. }
    assert (Hsplit : map fst acc ++ map fst ((k, v) :: t)
                     = (map fst acc ++ [k]) ++ map fst t).
    { simpl. rewrite <- app_assoc. reflexivity. }
    rewrite Hsplit in Hnd, Hord.
    rewrite LObject_set_last;
      [|exact Hk|exact Hfresh|apply (ownKeysOrdered_prefix _ _ Hord)].
    rewrite IH.
    + rewrite <- app_assoc. reflexivity.
    + rewrite map_app. exact Hnd.
    + rewrite map_app. exact Hord.
    + exact Ht.
Qed.

(** The array loop of [obj]. *)
Lemma obj_array_loop (f : Lit -> Object) (items : list Lit) (acc : list Object) :
  fold_left (fun array item => array ++ [f item]) items acc = acc ++ map f items.
Proof.
  revert acc. induction items as [|x t IH]; intros acc; simpl.
  - now rewrite app_nil_r.
  - rewrite IH, <- app_assoc. reflexivity.
Qed.

(** The dictionary loop of [obj] on properties none of which is
    [undefined]. *)
Lemma obj_dict_loop (props : list (JS.jsstring * Lit)) :
  NoDup (map fst props) ->
  forallb (fun kv => negb (is_undefined (snd kv))) props = true ->
  fold_left
    (fun dict kv =>
       match kv with
       | (key, value) =>
           if is_undefined value then dict
           else PDFDict_set dict key (obj byteArrayToHexString value)
       end) props []
  = map (fun kv => (fst kv, obj byteArrayToHexString (snd kv))) props.
Proof.
  intros Hnd Hdef.
  rewrite <- (app_nil_l (map _ props)).
  rewrite <- (fold_assoc_set (obj byteArrayToHexString) props []) by exact Hnd.
  generalize (@nil (JS.jsstring * Object)).
  induction props as [|[k v] t IH]; intros acc; simpl; [reflexivity|].
  simpl in Hdef. apply andb_true_iff in Hdef. destruct Hdef as [Hv Ht].
  apply negb_true_iff in Hv. rewrite Hv.
  apply IH; [now inversion Hnd|exact Ht].
Qed.

Lemma nativeLiteral_defined withBytes (l : Lit) :
  nativeLiteral withBytes l = true -> is_undefined l = false.
Proof. destruct l; simpl; congruence. Qed.


End LiteralProperties.

(** A byte array comes back as the hex string object that [obj] made of
    it. *)
Lemma getLiteral_obj_bytes {number : Type} (number_of_Z : Z -> number)
      (byteArrayToHexString : list Z -> JS.jsstring)
      (cfg : LiteralConfig) (bytes : list Z) :
  literalString cfg = false ->
  getLiteral number_of_Z cfg (obj byteArrayToHexString (LUint8Array bytes))
  = LPDFObject (PDFHexString_fromBytes byteArrayToHexString bytes).
Proof. intros H. simpl. rewrite H. reflexivity. Qed.



(* ================================================================== *)
(** * Properties: word arrays *)
(* ================================================================== *)

Lemma getWord_setWord (ws : list Z) (k i : nat) (v : Z) :
  WordArray.getWord (WordArray.setWord ws k v) i
  = if (i =? k)%nat then v else WordArray.getWord ws i.
Proof.
  unfold WordArray.getWord. revert ws i.
  induction k as [|k IH]; intros [|h t] [|i]; simpl; try reflexivity.
  - destruct i; reflexivity.
  - rewrite IH. destruct (i =? k)%nat; [reflexivity|]. destruct i; reflexivity.
  - apply IH.
Qed.

Lemma getWord_resize (ws : list Z) (n i : nat) :
  WordArray.getWord (WordArray.resize ws n) i
  = if (i <? n)%nat then WordArray.getWord ws i else 0.
Proof.
  unfold WordArray.getWord. revert ws i.
  induction n as [|n IH]; intros ws i; simpl.
  - destruct i; reflexivity.
  - destruct ws as [|h t]; destruct i as [|i]; simpl; try reflexivity.
    + rewrite IH. change (S i <? S n)%nat with (i <? n)%nat.
      destruct (i <? n)%nat; destruct i; reflexivity.
    + rewrite IH. reflexivity.
Qed.

Lemma concat_sigBytes (a b : WordArray) :
  sigBytes (WordArray.concat a b) = (sigBytes a + sigBytes b)%nat.
Proof. reflexivity. Qed.

Lemma ceil4_aligned (n : nat) :
  Nat.modulo n 4 = 0%nat -> WordArray.ceil4 n = Nat.div n 4.
Proof.
  intros H. unfold WordArray.ceil4.
  pose proof (Nat.div_mod_eq n 4) as E. rewrite H in E.
  set (q := Nat.div n 4) in *.
  replace (n + 3)%nat with (3 + q * 4)%nat by lia.
  rewrite Nat.div_add by lia. reflexivity.
Qed.

(** Setting words from an index on leaves the words before it alone. *)
Lemma getWord_fold_setWord {A} (idx : A -> nat) (val : list Z -> A -> Z)
      (l : list A) (ws : list Z) (bound i : nat) :
  (forall x, In x l -> bound <= idx x)%nat -> (i < bound)%nat ->
  WordArray.getWord
    (fold_left (fun ws x => WordArray.setWord ws (idx x) (val ws x)) l ws) i
  = WordArray.getWord ws i.
Proof.
  revert ws. induction l as [|x t IH]; intros ws Hl Hi; simpl; [reflexivity|].
  rewrite IH; [|intros y Hy; apply Hl; now right|exact Hi].
  rewrite getWord_setWord.
  destruct (Nat.eqb_spec i (idx x)) as [E|E]; [|reflexivity].
  specialize (Hl x (or_introl eq_refl)). lia.
Qed.

Lemma clamp_words (a : WordArray) :
  words (WordArray.clamp a)
  = WordArray.resize
      (WordArray.setWord (words a) (Nat.div (sigBytes a) 4)
         (JS.band (WordArray.getWord (words a) (Nat.div (sigBytes a) 4))
                  (JS.shl 0xffffffff
                          (32 - Z.of_nat (Nat.modulo (sigBytes a) 4) * 8))))
      (WordArray.ceil4 (sigBytes a)).
Proof. reflexivity. Qed.

Lemma concat_words_aligned (a b : WordArray) :
  Nat.modulo (sigBytes a) 4 = 0%nat ->
  words (WordArray.concat a b)
  = fold_left
      (fun ws j4 =>
         WordArray.setWord ws (Nat.div (sigBytes a + 4 * j4) 4)
                           (WordArray.getWord (words b) j4))
      (seq 0 (WordArray.ceil4 (sigBytes b))) (words (WordArray.clamp a)).
Proof.
  intros Hal. unfold WordArray.concat. rewrite Hal. reflexivity.
Qed.

(** Appending to a word array of whole words keeps its words. *)
Lemma concat_keeps_words (a b : WordArray) (i : nat) :
  Nat.modulo (sigBytes a) 4 = 0%nat -> (i < Nat.div (sigBytes a) 4)%nat ->
  WordArray.getWord (words (WordArray.concat a b)) i = WordArray.getWord (words a) i.
Proof.
  intros Hal Hi. rewrite concat_words_aligned by exact Hal.
  rewrite (getWord_fold_setWord
             (fun j4 => Nat.div (sigBytes a + 4 * j4) 4)
             (fun _ j4 => WordArray.getWord (words b) j4)
             _ _ (Nat.div (sigBytes a) 4)).
  - rewrite clamp_words, getWord_resize, ceil4_aligned by exact Hal.
    destruct (Nat.ltb_spec i (Nat.div (sigBytes a) 4)); [|lia].
    rewrite getWord_setWord.
    destruct (Nat.eqb_spec i (Nat.div (sigBytes a) 4)); [lia|reflexivity].
  - intros j4 _. apply Nat.Div0.div_le_mono. lia.
  - exact Hi.
Qed.

(** The bytes of a word array of whole words open the bytes of whatever is
    appended to it. *)
Lemma wordArrayToBuffer_concat (a b : WordArray) :
  Nat.modulo (sigBytes a) 4 = 0%nat ->
  firstn (sigBytes a) (wordArrayToBuffer (WordArray.concat a b))
  = wordArrayToBuffer a.
Proof.
  intros Hal. unfold wordArrayToBuffer.
  rewrite concat_sigBytes, seq_app, map_app.
  rewrite firstn_app, length_map, length_seq, Nat.sub_diag, firstn_O, app_nil_r.
  rewrite firstn_all2 by (rewrite length_map, length_seq; lia).
  apply map_ext_in. intros i Hi. apply in_seq in Hi.
  rewrite concat_keeps_words; [reflexivity|exact Hal|].
  pose proof (Nat.div_mod_eq (sigBytes a) 4) as E. rewrite Hal in E.
  apply Nat.Div0.div_lt_upper_bound. lia.
Qed.

(* ================================================================== *)
(** * Properties: the security handler *)
(* ================================================================== *)

Lemma random_run (nBytes : nat) (w : World) :
  WordArray.random nBytes w = (Ok (drawnWords nBytes w), afterDraw nBytes w).
Proof. reflexivity. Qed.

Lemma processPasswordR2R3R4_default :
  processPasswordR2R3R4 None = Ok (WordArray.ofUint8Array PASSWORD_PADDING).
Proof. vm_compute. reflexivity. Qed.

Lemma processPasswordR2R3R4_result (password : option JS.jsstring) :
  (exists w, processPasswordR2R3R4 password = Ok w /\ sigBytes w = 32%nat) \/
  processPasswordR2R3R4 password = Throw InvalidPasswordCharacter.
Proof.
  rewrite processPasswordR2R3R4_value. cbv zeta.
  destruct (existsb invalidCharacter _); [now right|left].
  eexists. split; [reflexivity|].
  rewrite ofUint8Array_sigBytes. apply paddedPassword_length.
Qed.

Lemma algorithmFor_cases (version : JS.jsstring) :
  algorithmFor version = 1 \/ algorithmFor version = 2 \/
  algorithmFor version = 4 \/ algorithmFor version = 5.
Proof.
  unfold algorithmFor.
  destruct (_ || _); [tauto|]. destruct (_ || _); [tauto|].
  destruct (jsstring_eqb _ _); tauto.
Qed.

Ltac run_handler :=
  cbv [bind ret throw get put modify liftR liftW this_get
       this_set_id this_set_encryption this_set_keyBits this_set_encryptionKey
       generateFileID generateRandomWordArray getEncryptionKeyR5
       getUserPasswordR5 getOwnerPasswordR5 getEncryptedPermissionsR5];
  cbn [fst snd id encryption keyBits encryptionKey context_header].

Section HandlerProperties.

Variable MD5 : WordArray -> WordArray.
Variable SHA256 : WordArray -> WordArray.
Variable RC4_encrypt : WordArray -> WordArray -> WordArray.
Variable AES_encrypt : WordArray -> WordArray -> CipherOptions -> WordArray.

Lemma initializeV5_run (options : SecurityOptions) (t : PDFSecurity) (w : World) :
  exists e key,
    initializeV5 SHA256 AES_encrypt options (t, w)
    = (Ok e,
       (mkPDFSecurity (context_header t) (id t) (encryption t) (Some 256) (Some key),
        afterV5 w)) /\
    key = drawnWords 32 w /\
    V e = 5 /\ R e = 5 /\ Length e = Some 256 /\
    P e = getPermissionsR3 (permissions options) /\
    (SHA256_digest_size SHA256 -> length (O e) = 48%nat /\ length (U e) = 48%nat) /\
    (AES_NoPadding_size AES_encrypt ->
     (exists oe, OE e = Some oe /\ length oe = 32%nat) /\
     (exists ue, UE e = Some ue /\ length ue = 32%nat) /\
     (exists perms, Perms e = Some perms /\ length perms = 16%nat)).
Proof.
  unfold initializeV5. run_handler. rewrite !random_run.
  run_handler. rewrite !random_run. run_handler.
  eexists. eexists. split; [reflexivity|].
  split; [reflexivity|].
  cbn [V R Length P O U OE UE Perms].
  repeat (split; [reflexivity|]).
  split.
  - intros Hsha. rewrite !wordArrayToBuffer_length, !concat_sigBytes, !Hsha.
    split; reflexivity.
  - intros Haes. unfold getOwnerEncryptionKeyR5, getUserEncryptionKeyR5.
    split; [|split]; eexists; (split; [reflexivity|]);
      rewrite wordArrayToBuffer_length, Haes; reflexivity.
Qed.

(** ** The legacy path *)

Lemma getUserPasswordR2_run (key : WordArray) :
  getUserPasswordR2 RC4_encrypt key
  = Ok (RC4_encrypt (WordArray.ofUint8Array PASSWORD_PADDING) key).
Proof.
  unfold getUserPasswordR2. rewrite processPasswordR2R3R4_default. reflexivity.
Qed.

Lemma getUserPasswordR3R4_run (documentId : Uint8Array) (key : WordArray) :
  exists u, getUserPasswordR3R4 MD5 RC4_encrypt documentId key = Ok u.
Proof.
  unfold getUserPasswordR3R4. rewrite processPasswordR2R3R4_default.
  destruct (fold_left _ _ _) as [k c]. eexists. reflexivity.
Qed.

#[local] Opaque getUserPasswordR3R4 getOwnerPasswordR2R3R4 getEncryptionKeyR2R3R4
  getUserPasswordR2 WordArray.ofUint8Array wordArrayToBuffer processPasswordR2R3R4.

(** One run of [initializeV1V2V4], on an object whose file identifier is
    set: it leaves the world as it is and computes [legacyDerivation MD5 RC4_encrypt]. *)
Lemma initializeV1V2V4_run (v : Z) (options : SecurityOptions)
      (t : PDFSecurity) (w : World) (fileId : Uint8Array) :
  v = 1 \/ v = 2 \/ v = 4 -> id t = Some fileId ->
  match legacyDerivation MD5 RC4_encrypt v options fileId with
  | Ok (e, key) =>
      initializeV1V2V4 MD5 RC4_encrypt v options (t, w)
      = (Ok e, (mkPDFSecurity (context_header t) (Some fileId) (encryption t)
                              (Some (keyBitsFor v)) (Some key), w))
  | Throw err =>
      exists t',
        initializeV1V2V4 MD5 RC4_encrypt v options (t, w) = (Throw err, (t', w))
  end.
Proof.
  intros Hv Hid. unfold legacyDerivation.
  assert (Hu2 := getUserPasswordR2_run).
  assert (Hu3 := getUserPasswordR3R4_run).
  destruct t as [hd i en kb ky]. simpl in Hid. subst i.
  destruct (processPasswordR2R3R4 (userPassword options)) as [pu|eu] eqn:Hpu;
    destruct (processPasswordR2R3R4 (ownerPassword options)) as [po|eo] eqn:Hpo;
    destruct (JS.truthy_string (ownerPassword options)) eqn:Hown;
    destruct Hv as [->|[->| ->]];
    unfold initializeV1V2V4, revisionFor, keyBitsFor;
    cbn [Z.eqb Pos.eqb Z.geb Z.compare Pos.compare Pos.compare_cont];
    run_handler; rewrite ?Hpu, ?Hpo, ?Hown; run_handler;
    rewrite ?Hown, ?Hpo; run_handler;
    cbn [Z.eqb Pos.eqb Z.geb Z.compare Pos.compare Pos.compare_cont];
    rewrite ?Hu2;
    try match goal with
        | |- context [getUserPasswordR3R4 MD5 RC4_encrypt ?i ?k] =>
            destruct (Hu3 i k) as [u Hu]; rewrite Hu
        end;
    run_handler;
    lazymatch goal with
    | |- exists _, _ => eexists; reflexivity
    | |- _ => reflexivity
    end.
Qed.

#[local] Transparent getUserPasswordR3R4 getOwnerPasswordR2R3R4 getEncryptionKeyR2R3R4
  getUserPasswordR2 WordArray.ofUint8Array wordArrayToBuffer processPasswordR2R3R4.

(** The legacy derivation fails only on an invalid password character. *)
Lemma legacyDerivation_Throw (v : Z) (options : SecurityOptions)
      (fileId : Uint8Array) (err : Error) :
  legacyDerivation MD5 RC4_encrypt v options fileId = Throw err -> err = InvalidPasswordCharacter.
Proof.
  unfold legacyDerivation.
  destruct (processPasswordR2R3R4_result (userPassword options))
    as [(pu & Hpu & _)|Hpu]; rewrite Hpu; [|congruence].
  destruct (JS.truthy_string (ownerPassword options)).
  - destruct (processPasswordR2R3R4_result (ownerPassword options))
      as [(po & Hpo & _)|Hpo]; rewrite Hpo; [|congruence].
    destruct (revisionFor v =? 2).
    + rewrite getUserPasswordR2_run. discriminate.
    + match goal with
      | |- context [getUserPasswordR3R4 MD5 RC4_encrypt ?i ?k] =>
          destruct (getUserPasswordR3R4_run i k) as [u Hu]; rewrite Hu
      end. discriminate.
  - destruct (revisionFor v =? 2).
    + rewrite getUserPasswordR2_run. discriminate.
    + match goal with
      | |- context [getUserPasswordR3R4 MD5 RC4_encrypt ?i ?k] =>
          destruct (getUserPasswordR3R4_run i k) as [u Hu]; rewrite Hu
      end. discriminate.
Qed.

(** ** The constructor *)

Lemma initialize_unfold (options : SecurityOptions) (header : PDFHeader)
      (w : World) :
  initialize MD5 SHA256 RC4_encrypt AES_encrypt options
             (mkPDFSecurity header None None None None, w)
  = let t := mkPDFSecurity header (Some (fileIdAt MD5 w)) None None None in
    let v := algorithmFor (getVersionString header) in
    (if (v =? 1) || (v =? 2) || (v =? 4) then
       bind (initializeV1V2V4 MD5 RC4_encrypt v options) this_set_encryption
     else if v =? 5 then
       bind (initializeV5 SHA256 AES_encrypt options) this_set_encryption
     else ret tt) (t, w).
Proof. reflexivity. Qed.

Lemma create_unfold (header : PDFHeader) (options : SecurityOptions) (w : World) :
  PDFSecurity_create MD5 SHA256 RC4_encrypt AES_encrypt header options w
  = if passwordSupplied options then
      match initialize MD5 SHA256 RC4_encrypt AES_encrypt options
                       (mkPDFSecurity header None None None None, w) with
      | (Ok _, (this, w')) => (Ok this, w')
      | (Throw e, (_, w')) => (Throw e, w')
      end
    else (Throw ConfigurationError, w).
Proof.
  unfold PDFSecurity_create, constructor, passwordSupplied.
  destruct (JS.truthy_string (ownerPassword options));
    destruct (JS.truthy_string (userPassword options)); reflexivity.
Qed.

(** Construction on the legacy path. *)
Lemma create_legacy (header : PDFHeader) (options : SecurityOptions) (w : World) :
  passwordSupplied options = true ->
  algorithmFor (getVersionString header) <> 5 ->
  PDFSecurity_create MD5 SHA256 RC4_encrypt AES_encrypt header options w
  = (match legacyDerivation MD5 RC4_encrypt (algorithmFor (getVersionString header)) options
                            (fileIdAt MD5 w) with
     | Ok (e, key) =>
         Ok (mkPDFSecurity header (Some (fileIdAt MD5 w)) (Some e)
                           (Some (keyBitsFor (algorithmFor (getVersionString header))))
                           (Some key))
     | Throw err => Throw err
     end, w).
Proof.
  intros Hpw Hv. rewrite create_unfold, Hpw, initialize_unfold. cbv zeta.
  set (v := algorithmFor (getVersionString header)) in *.
  assert (Hcases : v = 1 \/ v = 2 \/ v = 4).
  { destruct (algorithmFor_cases (getVersionString header)) as [H|[H|[H|H]]];
      fold v in H; tauto. }
  assert (Hsel : (v =? 1) || (v =? 2) || (v =? 4) = true).
  { destruct Hcases as [->|[->| ->]]; reflexivity. }
  rewrite Hsel.
  pose proof (initializeV1V2V4_run v options
                (mkPDFSecurity header (Some (fileIdAt MD5 w)) None None None) w
                (fileIdAt MD5 w) Hcases eq_refl) as Hrun.
  unfold bind.
  destruct (legacyDerivation MD5 RC4_encrypt v options (fileIdAt MD5 w)) as [[e key]|err].
  - rewrite Hrun. reflexivity.
  - destruct Hrun as [t' Hrun]. rewrite Hrun. reflexivity.
Qed.

(** Construction on the revision-5 path. *)
Lemma create_V5 (header : PDFHeader) (options : SecurityOptions) (w : World) :
  passwordSupplied options = true ->
  algorithmFor (getVersionString header) = 5 ->
  exists e key,
    PDFSecurity_create MD5 SHA256 RC4_encrypt AES_encrypt header options w
    = (Ok (mkPDFSecurity header (Some (fileIdAt MD5 w)) (Some e) (Some 256) (Some key)),
       afterV5 w) /\
    key = drawnWords 32 w /\
    V e = 5 /\ R e = 5 /\ Length e = Some 256 /\
    P e = getPermissionsR3 (permissions options) /\
    (SHA256_digest_size SHA256 -> length (O e) = 48%nat /\ length (U e) = 48%nat) /\
    (AES_NoPadding_size AES_encrypt ->
     (exists oe, OE e = Some oe /\ length oe = 32%nat) /\
     (exists ue, UE e = Some ue /\ length ue = 32%nat) /\
     (exists perms, Perms e = Some perms /\ length perms = 16%nat)).
Proof.
  intros Hpw Hv. rewrite create_unfold, Hpw, initialize_unfold. cbv zeta.
  rewrite Hv. cbn [Z.eqb Pos.eqb orb].
  destruct (initializeV5_run options
              (mkPDFSecurity header (Some (fileIdAt MD5 w)) None None None) w)
    as (e & key & Hrun & Hrest).
  exists e, key. split; [|exact Hrest].
  unfold bind. rewrite Hrun. reflexivity.
Qed.

(** ** What the constructor guarantees *)

(** C8 (amended).  Constructing a handler fails with the configuration
    error exactly when neither password is a non-empty string, and then
    before anything is read or derived.  Otherwise the constructor either
    returns a handler in which the file identifier, the dictionary, the key
    length and the encryption key are all set, or, on the legacy path only,
    fails with the invalid-character error; a failed construction returns
    no handler. *)
Theorem constructor_outcome (header : PDFHeader) (options : SecurityOptions)
        (w : World) :
  let create := PDFSecurity_create MD5 SHA256 RC4_encrypt AES_encrypt header options in
  (fst (create w) = Throw ConfigurationError <-> passwordSupplied options = false) /\
  (passwordSupplied options = false -> snd (create w) = w) /\
  match fst (create w) with
  | Ok h =>
      passwordSupplied options = true /\ context_header h = header /\
      id h = Some (fileIdAt MD5 w) /\ initialized h /\
      exists e, encryption h = Some e /\
                V e = algorithmFor (getVersionString header)
  | Throw err =>
      err = ConfigurationError \/
      (err = InvalidPasswordCharacter /\ passwordSupplied options = true /\
       algorithmFor (getVersionString header) <> 5)
  end.
Proof.
  intros create. subst create.
  destruct (passwordSupplied options) eqn:Hpw.
  - destruct (Z.eq_dec (algorithmFor (getVersionString header)) 5) as [Hv|Hv].
    + destruct (create_V5 header options w Hpw Hv)
        as (e & key & Hrun & _ & HV & _).
      rewrite Hrun. cbn [fst snd].
      split; [split; discriminate|]. split; [discriminate|].
      repeat split; try discriminate.
      exists e. split; [reflexivity|congruence].
    + rewrite (create_legacy header options w Hpw Hv). cbn [fst snd].
      pose proof (initializeV1V2V4_run
                    (algorithmFor (getVersionString header)) options
                    (mkPDFSecurity header (Some (fileIdAt MD5 w)) None None None) w
                    (fileIdAt MD5 w)) as Hrun.
      destruct (legacyDerivation MD5 RC4_encrypt (algorithmFor (getVersionString header)) options
                                 (fileIdAt MD5 w)) as [[e key]|err] eqn:Hd.
      * split; [split; discriminate|]. split; [discriminate|].
        repeat split; try discriminate.
        exists e. split; [reflexivity|].
        revert Hd. unfold legacyDerivation.
        repeat match goal with
               | |- context [match ?x with _ => _ end] => destruct x
               end; intros Hd; inversion Hd; reflexivity.
      * apply legacyDerivation_Throw in Hd. subst err.
        split; [split; discriminate|]. split; [discriminate|].
        right. auto.
  - rewrite create_unfold, Hpw. cbn [fst snd].
    split; [split; reflexivity|]. split; [reflexivity|]. now left.
Qed.

(** C9.  With a SHA-256 of 32 bytes and an AES that keeps the size of
    whole blocks, and at least one non-empty password, construction for the
    format version "1.7ext3" succeeds, and its dictionary has V = 5 and
    R = 5, a Perms entry of 16 bytes, OE and UE entries of 32 bytes and O
    and U entries of 48 bytes. *)
Theorem V5_dictionary_sizes (options : SecurityOptions) (w : World) :
  SHA256_digest_size SHA256 -> AES_NoPadding_size AES_encrypt ->
  passwordSupplied options = true ->
  exists h e oe ue perms,
    fst (PDFSecurity_create MD5 SHA256 RC4_encrypt AES_encrypt
                            (mkPDFHeader (JS.lit "1.7ext3")) options w) = Ok h /\
    encryption h = Some e /\
    V e = 5 /\ R e = 5 /\
    Perms e = Some perms /\ length perms = 16%nat /\
    OE e = Some oe /\ length oe = 32%nat /\
    UE e = Some ue /\ length ue = 32%nat /\
    length (O e) = 48%nat /\ length (U e) = 48%nat.
Proof.
  intros Hsha Haes Hpw.
  destruct (create_V5 (mkPDFHeader (JS.lit "1.7ext3")) options w Hpw eq_refl)
    as (e & key & Hrun & _ & HV & HR & _ & _ & HOU & Hrest).
  destruct (HOU Hsha) as [HO HU].
  destruct (Hrest Haes) as ((oe & HOE & Hoe) & (ue & HUE & Hue) & (perms & HP & Hperms)).
  exists (mkPDFSecurity (mkPDFHeader (JS.lit "1.7ext3")) (Some (fileIdAt MD5 w))
                        (Some e) (Some 256) (Some key)), e, oe, ue, perms.
  rewrite Hrun. cbn [fst encryption]. repeat split; assumption.
Qed.

(** Two legacy derivations from the same options agree on everything that
    does not depend on the file identifier. *)
Lemma legacyDerivation_any_id (v : Z) (options : SecurityOptions)
      (fileId1 fileId2 : Uint8Array) :
  match legacyDerivation MD5 RC4_encrypt v options fileId1, legacyDerivation MD5 RC4_encrypt v options fileId2 with
  | Ok (e1, _), Ok (e2, _) =>
      V e1 = v /\ V e2 = v /\ R e1 = revisionFor v /\ R e2 = revisionFor v /\
      P e1 = P e2 /\ O e1 = O e2
  | Throw err1, Throw err2 => err1 = err2
  | _, _ => False
  end.
Proof.
  unfold legacyDerivation.
  destruct (processPasswordR2R3R4 (userPassword options)) as [pu|eu];
    [|reflexivity].
  destruct (if JS.truthy_string (ownerPassword options)
            then processPasswordR2R3R4 (ownerPassword options)
            else Ok pu) as [po|eo]; [|reflexivity].
  cbv zeta.
  destruct (revisionFor v =? 2).
  - rewrite !getUserPasswordR2_run. cbn [V R P O]. repeat split.
  - repeat match goal with
           | |- context [getUserPasswordR3R4 MD5 RC4_encrypt ?i ?k] =>
               let u := fresh "u" in
               let Hu := fresh "Hu" in
               destruct (getUserPasswordR3R4_run i k) as [u Hu];
               rewrite Hu; clear Hu
           end.
    cbn [V R P O]. repeat split.
Qed.

(** C2 (amended).  For the format version 1.7, constructing a handler
    consults no random source and leaves the world as it is; its outcome
    depends on the world only through the file identifier, the MD5 digest
    of the clock reading: two constructions from the same options that read
    the same clock return the same handler, with the same O and U entries
    and the same encryption key.  Two constructions that read different
    clocks still agree on whether they succeed and on V, R, P and the O
    entry. *)
Theorem legacy_construction_reproducible (options : SecurityOptions)
        (w1 w2 : World) :
  let create := PDFSecurity_create MD5 SHA256 RC4_encrypt AES_encrypt
                                   (mkPDFHeader (JS.lit "1.7")) options in
  snd (create w1) = w1 /\
  (fileIdAt MD5 w1 = fileIdAt MD5 w2 -> fst (create w1) = fst (create w2)) /\
  (now w1 = now w2 -> fst (create w1) = fst (create w2)) /\
  match fst (create w1), fst (create w2) with
  | Ok h1, Ok h2 =>
      exists e1 e2,
        encryption h1 = Some e1 /\ encryption h2 = Some e2 /\
        V e1 = 4 /\ V e2 = 4 /\ R e1 = 4 /\ R e2 = 4 /\
        P e1 = P e2 /\ O e1 = O e2 /\
        (fileIdAt MD5 w1 = fileIdAt MD5 w2 ->
         U e1 = U e2 /\ encryptionKey h1 = encryptionKey h2)
  | Throw err1, Throw err2 => err1 = err2
  | _, _ => False
  end.
Proof.
  intros create. subst create.
  destruct (passwordSupplied options) eqn:Hpw.
  - rewrite !(create_legacy (mkPDFHeader (JS.lit "1.7")) options _ Hpw)
      by discriminate.
    change (algorithmFor (getVersionString (mkPDFHeader (JS.lit "1.7")))) with 4.
    cbn [fst snd].
    split; [reflexivity|].
    split; [intros ->; reflexivity|].
    split; [intros H; unfold fileIdAt; rewrite H; reflexivity|].
    pose proof (legacyDerivation_any_id 4 options (fileIdAt MD5 w1) (fileIdAt MD5 w2))
      as Hany.
    assert (Hsame : fileIdAt MD5 w1 = fileIdAt MD5 w2 ->
                    legacyDerivation MD5 RC4_encrypt 4 options (fileIdAt MD5 w1)
                    = legacyDerivation MD5 RC4_encrypt 4 options (fileIdAt MD5 w2))
      by (intros ->; reflexivity).
    destruct (legacyDerivation MD5 RC4_encrypt 4 options (fileIdAt MD5 w1)) as [[e1 k1]|err1];
      destruct (legacyDerivation MD5 RC4_encrypt 4 options (fileIdAt MD5 w2)) as [[e2 k2]|err2];
      try exact Hany.
    destruct Hany as (HV1 & HV2 & HR1 & HR2 & HP & HO).
    exists e1, e2. cbn [encryption encryptionKey].
    repeat (split; [assumption || reflexivity|]).
    intros Hid. specialize (Hsame Hid). inversion Hsame. split; reflexivity.
  - rewrite !create_unfold, Hpw. cbn [fst snd]. repeat split.
Qed.

(** ** The per-object encryption closure *)

Lemma getEncryptFn_AES_run (this : PDFSecurity) (e : Encryption) (key : WordArray)
      (obj gen : Z) (w : World) :
  encryption this = Some e -> V e = 4 \/ V e = 5 ->
  encryptionKey this = Some key ->
  getEncryptFn MD5 RC4_encrypt AES_encrypt obj gen (this, w)
  = (Ok (aesClosure AES_encrypt (aesKey MD5 (V e) key obj gen) (drawnWords 16 w)),
     (this, afterDraw 16 w)).
Proof.
  intros He Hv Hk. unfold getEncryptFn, aesKey, objectDigest.
  run_handler. rewrite He. run_handler.
  destruct Hv as [Hv|Hv]; rewrite !Hv;
    cbn [Z.eqb Pos.eqb Z.ltb Z.compare Pos.compare Pos.compare_cont orb];
    run_handler; rewrite ?Hk; run_handler; rewrite random_run; reflexivity.
Qed.

(** What the closure returns: the bytes of the initialization vector, then
    bytes that depend on the key, the vector and the buffer only. *)
Lemma aesClosure_run (key iv : WordArray) (buffer : Uint8Array) :
  Nat.modulo (sigBytes iv) 4 = 0%nat ->
  exists ciphertext,
    forall w : World,
      aesClosure AES_encrypt key iv buffer w = (Ok (wordArrayToBuffer iv ++ ciphertext), w).
Proof.
  intros Hal. unfold aesClosure, ret, WordArray.clone.
  set (out := wordArrayToBuffer (WordArray.concat iv _)).
  exists (skipn (sigBytes iv) out). intros w.
  rewrite <- (wordArrayToBuffer_concat iv
                (AES_encrypt (WordArray.ofUint8Array buffer) key
                             (mkCipherOptions CBC Pkcs7 (Some iv)))) by exact Hal.
  fold out. rewrite firstn_skipn. reflexivity.
Qed.

End HandlerProperties.

(* ================================================================== *)
(** * The properties on concrete handlers *)
(* ================================================================== *)

Lemma digest32_size : SHA256_digest_size CryptoJS.digest32.
Proof.
  intros m. unfold CryptoJS.digest32.
  rewrite ofUint8Array_sigBytes, length_firstn, length_app, repeat_length. lia.
Qed.

Lemma identityCipher_size : AES_NoPadding_size CryptoJS.identityCipher.
Proof. intros m key options _ _. reflexivity. Qed.

Lemma sampleHandlerV5_constructed :
  fst (PDFSecurity_create CryptoJS.MD5 CryptoJS.digest32
                          CryptoJS.RC4_encrypt CryptoJS.identityCipher
                          (mkPDFHeader (JS.lit "1.7ext3"))
                          sampleOptions (sampleWorld 0))
  = Ok sampleHandlerV5.
Proof. vm_compute. reflexivity. Qed.

Lemma V5_dictionary_sizes_witness :
  SHA256_digest_size CryptoJS.digest32 /\
  AES_NoPadding_size CryptoJS.identityCipher /\
  passwordSupplied sampleOptions = true /\
  exists h e oe ue perms,
    fst (PDFSecurity_create CryptoJS.MD5 CryptoJS.digest32
                            CryptoJS.RC4_encrypt CryptoJS.identityCipher
                            (mkPDFHeader (JS.lit "1.7ext3"))
                            sampleOptions (sampleWorld 0)) = Ok h /\
    encryption h = Some e /\
    V e = 5 /\ R e = 5 /\
    Perms e = Some perms /\ length perms = 16%nat /\
    OE e = Some oe /\ length oe = 32%nat /\
    UE e = Some ue /\ length ue = 32%nat /\
    length (O e) = 48%nat /\ length (U e) = 48%nat.
Proof.
  split; [exact digest32_size|]. split; [exact identityCipher_size|].
  split; [reflexivity|].
  apply (V5_dictionary_sizes CryptoJS.MD5 CryptoJS.digest32 CryptoJS.RC4_encrypt
                             CryptoJS.identityCipher sampleOptions (sampleWorld 0)
                             digest32_size identityCipher_size eq_refl).
Defined.

Lemma processPasswordR2R3R4_foo :
  processPasswordR2R3R4 (Some (JS.lit "foo"))
  = Ok (WordArray.ofUint8Array (paddedPassword (JS.lit "foo"))).
Proof. vm_compute. reflexivity. Qed.

(** The legacy derivation from [sampleOptions] succeeds. *)
Lemma legacyDerivation_sample (MD5 : WordArray -> WordArray)
      (RC4 : WordArray -> WordArray -> WordArray) (fileId : Uint8Array) :
  exists e key,
    legacyDerivation MD5 RC4 4 sampleOptions fileId = Ok (e, key) /\ V e = 4.
Proof.
  unfold legacyDerivation.
  change (userPassword sampleOptions) with (Some (JS.lit "foo")).
  rewrite processPasswordR2R3R4_foo.
  change (JS.truthy_string (ownerPassword sampleOptions)) with false.
  cbv iota zeta. change (revisionFor 4 =? 2) with false. cbv iota.
  match goal with
  | |- context [getUserPasswordR3R4 MD5 RC4 ?i ?k] =>
      destruct (getUserPasswordR3R4_run MD5 RC4 i k) as [u Hu]; rewrite Hu
  end.
  eexists. eexists. split; reflexivity.
Qed.

(** C1 (as stated, refuted).  Whatever the hash and cipher functions are,
    on a handler constructed for the version "1.7ext3" (V = 5) and on one
    constructed for "1.7" (V = 4), the closure returned by [getEncryptFn]
    for object 1, generation 0 returns the same bytes each time it is
    invoked on the buffer [1, 2, 3]. *)
Lemma getEncryptFn_closure_repeats :
  (forall (MD5 SHA256 : WordArray -> WordArray)
          (RC4 : WordArray -> WordArray -> WordArray)
          (AES : WordArray -> WordArray -> CipherOptions -> WordArray),
      exists h e w f out,
        PDFSecurity_create MD5 SHA256 RC4 AES (mkPDFHeader (JS.lit "1.7ext3"))
                           sampleOptions (sampleWorld 0) = (Ok h, w) /\
        encryption h = Some e /\ V e = 5 /\
        fst (getEncryptFn MD5 RC4 AES 1 0 (h, w)) = Ok f /\
        forall w', f [1; 2; 3] w' = (Ok out, w') /\
                   f [1; 2; 3] (snd (f [1; 2; 3] w')) = (Ok out, w')) /\
  (forall (MD5 SHA256 : WordArray -> WordArray)
          (RC4 : WordArray -> WordArray -> WordArray)
          (AES : WordArray -> WordArray -> CipherOptions -> WordArray),
      exists h e w f out,
        PDFSecurity_create MD5 SHA256 RC4 AES (mkPDFHeader (JS.lit "1.7"))
                           sampleOptions (sampleWorld 0) = (Ok h, w) /\
        encryption h = Some e /\ V e = 4 /\
        fst (getEncryptFn MD5 RC4 AES 1 0 (h, w)) = Ok f /\
        forall w', f [1; 2; 3] w' = (Ok out, w') /\
                   f [1; 2; 3] (snd (f [1; 2; 3] w')) = (Ok out, w')).
Proof.
  split; intros MD5 SHA256 RC4 AES.
  - destruct (create_V5 MD5 SHA256 RC4 AES (mkPDFHeader (JS.lit "1.7ext3"))
                        sampleOptions (sampleWorld 0) eq_refl eq_refl)
      as (e & key & Hrun & _ & HV & _).
    set (h := mkPDFSecurity _ _ _ _ _) in Hrun.
    pose proof (getEncryptFn_AES_run MD5 RC4 AES h e key 1 0 (afterV5 (sampleWorld 0))
                  eq_refl (or_intror HV) eq_refl) as Hfn.
    destruct (aesClosure_run AES (aesKey MD5 (V e) key 1 0)
                (drawnWords 16 (afterV5 (sampleWorld 0))) [1; 2; 3] eq_refl)
      as [c Hc].
    do 5 eexists. split; [exact Hrun|]. split; [reflexivity|].
    split; [exact HV|]. split; [rewrite Hfn; reflexivity|].
    intros w'. rewrite !Hc. split; reflexivity.
  - pose proof (create_legacy MD5 SHA256 RC4 AES (mkPDFHeader (JS.lit "1.7"))
                  sampleOptions (sampleWorld 0) eq_refl ltac:(discriminate))
      as Hrun.
    change (algorithmFor (getVersionString (mkPDFHeader (JS.lit "1.7")))) with 4
      in Hrun.
    destruct (legacyDerivation_sample MD5 RC4 (fileIdAt MD5 (sampleWorld 0)))
      as (e & key & Hd & HV).
    rewrite Hd in Hrun.
    set (h := mkPDFSecurity _ _ _ _ _) in Hrun.
    pose proof (getEncryptFn_AES_run MD5 RC4 AES h e key 1 0 (sampleWorld 0)
                  eq_refl (or_introl HV) eq_refl) as Hfn.
    destruct (aesClosure_run AES (aesKey MD5 (V e) key 1 0)
                (drawnWords 16 (sampleWorld 0)) [1; 2; 3] eq_refl)
      as [c Hc].
    do 5 eexists. split; [exact Hrun|]. split; [reflexivity|].
    split; [exact HV|]. split; [rewrite Hfn; reflexivity|].
    intros w'. rewrite !Hc. split; reflexivity.
Qed.

(** C2 (as stated, refuted).  With the library's MD5 and RC4, the same
    options [{userPassword: 'foo'}] and the same version 1.7, the handler
    constructed when the clock reads 0 and the one constructed when it
    reads 1 have different file identifiers, different U entries and
    different encryption keys; their O entries are the same. *)
Lemma legacy_construction_depends_on_clock :
  fst (PDFSecurity_create CryptoJS.MD5 CryptoJS.digest32 CryptoJS.RC4_encrypt
                          CryptoJS.identityCipher (mkPDFHeader (JS.lit "1.7"))
                          sampleOptions (sampleWorld 0))
  = Ok sampleHandlerR4_at0 /\
  fst (PDFSecurity_create CryptoJS.MD5 CryptoJS.digest32 CryptoJS.RC4_encrypt
                          CryptoJS.identityCipher (mkPDFHeader (JS.lit "1.7"))
                          sampleOptions (sampleWorld 1))
  = Ok sampleHandlerR4_at1 /\
  entryU sampleHandlerR4_at0
  = [ 73; 156; 141; 131; 108; 148; 114; 118; 47; 143; 89; 58; 88; 194; 81; 28;
      0; 0; 0; 0; 0; 0; 0; 0; 0; 0; 0; 0; 0; 0; 0; 0 ] /\
  entryU sampleHandlerR4_at1
  = [ 149; 100; 12; 11; 126; 42; 240; 247; 11; 210; 245; 75; 16; 35; 231; 37;
      0; 0; 0; 0; 0; 0; 0; 0; 0; 0; 0; 0; 0; 0; 0; 0 ] /\
  keyBytes sampleHandlerR4_at0
  = [ 163; 33; 228; 141; 108; 149; 105; 182; 212; 65; 33; 90; 142; 22; 173; 66 ] /\
  keyBytes sampleHandlerR4_at1
  = [ 65; 73; 82; 242; 123; 209; 119; 242; 205; 171; 114; 32; 146; 101; 162; 81 ] /\
  entryU sampleHandlerR4_at0 <> entryU sampleHandlerR4_at1 /\
  keyBytes sampleHandlerR4_at0 <> keyBytes sampleHandlerR4_at1 /\
  id sampleHandlerR4_at0 <> id sampleHandlerR4_at1 /\
  entryO sampleHandlerR4_at0 = entryO sampleHandlerR4_at1.
Proof.
  split; [vm_compute; reflexivity|]. split; [vm_compute; reflexivity|].
  repeat split; try reflexivity; intros H; vm_compute in H; discriminate H.
Qed.

(** C8 (as stated, refuted).  For [{userPassword: ''}] a user password is
    supplied, and construction fails with the configuration error,
    whatever the version, the world and the library functions are. *)
Lemma empty_user_password_rejected :
  userPassword emptyUserPassword = Some [] /\
  (forall (MD5 SHA256 : WordArray -> WordArray)
          (RC4 : WordArray -> WordArray -> WordArray)
          (AES : WordArray -> WordArray -> CipherOptions -> WordArray)
          (header : PDFHeader) (w : World),
      PDFSecurity_create MD5 SHA256 RC4 AES header emptyUserPassword w
      = (Throw ConfigurationError, w)).
Proof.
  split; [reflexivity|]. intros. reflexivity.
Qed.






(* ================================================================== *)
(** * Further properties: 32-bit operators, bit by bit *)
(* ================================================================== *)

Lemma ToInt32_mod (x : Z) : JS.ToInt32 x mod 2 ^ 32 = x mod 2 ^ 32.
Proof.
  unfold JS.ToInt32.
  rewrite Zminus_mod, Z.mod_mod by lia.
  rewrite <- Zminus_mod. f_equal. lia.
Qed.

Lemma testbit_ToInt32 (x i : Z) :
  0 <= i < 32 -> Z.testbit (JS.ToInt32 x) i = Z.testbit x i.
Proof.
  intros Hi.
  rewrite <- (Z.mod_pow2_bits_low (JS.ToInt32 x) 32 i) by lia.
  rewrite <- (Z.mod_pow2_bits_low x 32 i) by lia.
  rewrite ToInt32_mod. reflexivity.
Qed.

(** Above bit 31 a 32-bit value repeats its sign. *)
Lemma testbit_int32_high (y i : Z) :
  - 2 ^ 31 <= y < 2 ^ 31 -> 31 <= i -> Z.testbit y i = Z.testbit y 31.
Proof.
  intros Hy Hi.
  destruct (Z.neg_nonneg_cases y) as [Hneg|Hpos].
  - assert (Hb : forall j, 31 <= j -> Z.testbit y j = true).
    { intros j Hj.
      replace y with (Z.lnot (- y - 1)) by (unfold Z.lnot; lia).
      rewrite Z.lnot_spec by lia.
      destruct (Z.eq_dec (- y - 1) 0) as [E|E].
      - rewrite E, Z.testbit_0_l. reflexivity.
      - rewrite Z.bits_above_log2; [reflexivity|lia|].
        apply Z.log2_lt_pow2; [lia|].
        apply Z.lt_le_trans with (2 ^ 31); [lia|apply Z.pow_le_mono_r; lia]. }
    rewrite !Hb by lia. reflexivity.
  - assert (Hb : forall j, 31 <= j -> Z.testbit y j = false).
    { intros j Hj.
      destruct (Z.eq_dec y 0) as [E|E].
      - rewrite E, Z.testbit_0_l. reflexivity.
      - apply Z.bits_above_log2; [lia|]. apply Z.log2_lt_pow2; [lia|].
        apply Z.lt_le_trans with (2 ^ 31); [lia|apply Z.pow_le_mono_r; lia]. }
    rewrite !Hb by lia. reflexivity.
Qed.

Lemma testbit_bor (a b i : Z) :
  0 <= i < 32 -> Z.testbit (JS.bor a b) i = Z.testbit a i || Z.testbit b i.
Proof.
  intros Hi. unfold JS.bor.
  rewrite testbit_ToInt32, Z.lor_spec, !testbit_ToInt32 by exact Hi. reflexivity.
Qed.

Lemma testbit_band (a b i : Z) :
  0 <= i < 32 -> Z.testbit (JS.band a b) i = Z.testbit a i && Z.testbit b i.
Proof.
  intros Hi. unfold JS.band.
  rewrite testbit_ToInt32, Z.land_spec, !testbit_ToInt32 by exact Hi. reflexivity.
Qed.

Lemma testbit_bxor (a b i : Z) :
  0 <= i < 32 -> Z.testbit (JS.bxor a b) i = xorb (Z.testbit a i) (Z.testbit b i).
Proof.
  intros Hi. unfold JS.bxor.
  rewrite testbit_ToInt32, Z.lxor_spec, !testbit_ToInt32 by exact Hi. reflexivity.
Qed.

Lemma testbit_shl (a n i : Z) :
  0 <= n < 32 -> 0 <= i < 32 ->
  Z.testbit (JS.shl a n) i = if i <? n then false else Z.testbit a (i - n).
Proof.
  intros Hn Hi. unfold JS.shl.
  rewrite testbit_ToInt32 by exact Hi.
  rewrite Z.mod_small by lia.
  rewrite Z.shiftl_spec by lia.
  destruct (Z.ltb_spec i n).
  - apply Z.testbit_neg_r. lia.
  - apply testbit_ToInt32. lia.
Qed.

Lemma testbit_shr (a n i : Z) :
  0 <= n < 32 -> 0 <= i ->
  Z.testbit (JS.shr a n) i = Z.testbit a (Z.min (i + n) 31).
Proof.
  intros Hn Hi. unfold JS.shr.
  rewrite Z.mod_small by lia.
  rewrite Z.shiftr_spec by lia.
  destruct (Z.le_gt_cases 31 (i + n)).
  - rewrite Z.min_r by lia.
    rewrite testbit_int32_high by (apply ToInt32_range || lia).
    apply testbit_ToInt32. lia.
  - rewrite Z.min_l by lia. apply testbit_ToInt32. lia.
Qed.

Lemma shr_range (a n : Z) : 0 <= n < 32 -> - 2 ^ 31 <= JS.shr a n < 2 ^ 31.
Proof.
  intros Hn. unfold JS.shr. rewrite Z.mod_small by lia.
  pose proof (ToInt32_range a) as Ha.
  rewrite Z.shiftr_div_pow2 by lia.
  assert (Hp : 0 < 2 ^ n) by (apply Z.pow_pos_nonneg; lia).
  split.
  - apply Z.div_le_lower_bound; [exact Hp|]. nia.
  - apply Z.div_lt_upper_bound; [exact Hp|]. nia.
Qed.

Lemma byteOf_range (k x : Z) : 0 <= byteOf k x < 256.
Proof. unfold byteOf. apply Z.mod_pos_bound. lia. Qed.

Lemma testbit_byteOf (k x i : Z) :
  0 <= k -> 0 <= i ->
  Z.testbit (byteOf k x) i = if i <? 8 then Z.testbit x (i + 8 * k) else false.
Proof.
  intros Hk Hi. unfold byteOf. change 256 with (2 ^ 8).
  destruct (Z.ltb_spec i 8).
  - rewrite Z.mod_pow2_bits_low by lia. apply Z.div_pow2_bits; lia.
  - apply Z.mod_pow2_bits_high. lia.
Qed.

(** Two 32-bit values with the same 32 bits are equal. *)
Lemma int32_eq (a b : Z) :
  - 2 ^ 31 <= a < 2 ^ 31 -> - 2 ^ 31 <= b < 2 ^ 31 ->
  (forall i, 0 <= i < 32 -> Z.testbit a i = Z.testbit b i) -> a = b.
Proof.
  intros Ha Hb H. apply Z.bits_inj'. intros i Hi.
  destruct (Z.lt_ge_cases i 32) as [Hlt|Hge].
  - apply H. lia.
  - rewrite (testbit_int32_high a), (testbit_int32_high b) by lia.
    apply H. lia.
Qed.

(** Two bytes with the same eight bits are equal. *)
Lemma byte_eq (a b : Z) :
  0 <= a < 256 -> 0 <= b < 256 ->
  (forall i, 0 <= i < 8 -> Z.testbit a i = Z.testbit b i) -> a = b.
Proof.
  intros Ha Hb H. apply Z.bits_inj'. intros i Hi.
  destruct (Z.lt_ge_cases i 8) as [Hlt|Hge].
  - apply H. lia.
  - assert (Hhigh : forall c, 0 <= c < 256 -> Z.testbit c i = false).
    { intros c Hc. destruct (Z.eq_dec c 0) as [->|Hc0]; [apply Z.testbit_0_l|].
      apply Z.bits_above_log2; [lia|].
      apply Z.log2_lt_pow2; [lia|].
      apply Z.lt_le_trans with (2 ^ 8); [lia|apply Z.pow_le_mono_r; lia]. }
    rewrite !Hhigh by assumption. reflexivity.
Qed.

Lemma bits_below (n : nat) (P : Z -> Prop) :
  Forall P (map Z.of_nat (seq 0 n)) -> forall i, 0 <= i < Z.of_nat n -> P i.
Proof.
  intros H i Hi. rewrite Forall_forall in H. apply H.
  apply in_map_iff. exists (Z.to_nat i). split; [lia|]. apply in_seq. lia.
Qed.

Lemma testbit_255 (i : Z) : 0 <= i -> Z.testbit 255 i = (i <? 8).
Proof.
  intros Hi. change 255 with (Z.ones 8). apply Z.testbit_ones_nonneg; lia.
Qed.

Ltac byte_index k :=
  let H := fresh in
  assert (H : k = 0 \/ k = 1 \/ k = 2 \/ k = 3) by lia;
  destruct H as [->|[->|[->| ->]]].

Ltac split_ltb :=
  repeat match goal with
         | |- context [?a <? ?b] => destruct (Z.ltb_spec a b); try lia
         end.

Lemma testbit_0xff00 (i : Z) :
  0 <= i -> Z.testbit 0xff00 i = (8 <=? i) && (i <? 16).
Proof.
  intros Hi. change 0xff00 with (Z.shiftl (Z.ones 8) 8).
  destruct (Z.leb_spec 8 i).
  - rewrite Z.shiftl_spec by lia. rewrite Z.testbit_ones_nonneg by lia.
    destruct (Z.ltb_spec (i - 8) 8), (Z.ltb_spec i 16); try lia; reflexivity.
  - rewrite Z.shiftl_spec_low by lia. reflexivity.
Qed.

(** The bits of an expression of 32-bit operators, once the bit index is
    confined to a byte. *)
Ltac js_bits :=
  repeat first
    [ rewrite testbit_bor by lia
    | rewrite testbit_band by lia
    | rewrite testbit_bxor by lia
    | rewrite testbit_shl by lia
    | rewrite testbit_shr by lia
    | rewrite testbit_255 by lia
    | rewrite testbit_0xff00 by lia
    | rewrite Z.min_l by lia
    | rewrite Z.min_r by lia
    | match goal with
      | |- context [?a <? ?b] => destruct (Z.ltb_spec a b); try lia
      | |- context [?a <=? ?b] => destruct (Z.leb_spec a b); try lia
      end ].

Ltac bool_simpl :=
  cbn [andb orb];
  repeat first [ rewrite andb_true_r | rewrite andb_false_r
               | rewrite orb_false_r | rewrite orb_true_r ];
  cbn [andb orb].

(** [(w >> 8k) & 0xff] is byte [k] of [w]. *)
Lemma band_shr_byteOf (w k : Z) :
  0 <= k <= 3 -> JS.band (JS.shr w (8 * k)) 0xff = byteOf k w.
Proof.
  intros Hk. apply int32_eq.
  - apply ToInt32_range.
  - pose proof (byteOf_range k w). lia.
  - intros i Hi.
    rewrite testbit_band, testbit_shr, testbit_255, testbit_byteOf by lia.
    destruct (Z.ltb_spec i 8); [|apply andb_false_r].
    rewrite Z.min_l by lia. apply andb_true_r.
Qed.

(** [(w >>> 8k) & 0xff] is byte [k] of [w] as well. *)
Lemma band_ushr_byteOf (w k : Z) :
  0 <= k <= 3 -> JS.band (WordArray.ushr w (8 * k)) 0xff = byteOf k w.
Proof.
  intros Hk. apply int32_eq.
  - apply ToInt32_range.
  - pose proof (byteOf_range k w). lia.
  - intros i Hi.
    rewrite testbit_band, testbit_255, testbit_byteOf by lia.
    destruct (Z.ltb_spec i 8); [|apply andb_false_r].
    rewrite andb_true_r. unfold WordArray.ushr.
    rewrite (Z.mod_small (8 * k) 32) by lia.
    rewrite Z.shiftr_spec by lia.
    rewrite Z.mod_pow2_bits_low by lia.
    apply testbit_ToInt32. lia.
Qed.

Lemma byteOf_ToInt32 (k x : Z) :
  0 <= k <= 3 -> byteOf k (JS.ToInt32 x) = byteOf k x.
Proof.
  intros Hk. apply byte_eq; try apply byteOf_range.
  intros i Hi. rewrite !testbit_byteOf by lia.
  destruct (Z.ltb_spec i 8); [|reflexivity].
  apply testbit_ToInt32. lia.
Qed.

Lemma byteOf_0 (k : Z) : byteOf k 0 = 0.
Proof.
  unfold byteOf. rewrite Zdiv_0_l. reflexivity.
Qed.

Lemma byteOf_bor (k a b : Z) :
  0 <= k <= 3 -> byteOf k (JS.bor a b) = Z.lor (byteOf k a) (byteOf k b).
Proof.
  intros Hk. apply Z.bits_inj'. intros i Hi.
  rewrite Z.lor_spec, !testbit_byteOf by lia.
  destruct (Z.ltb_spec i 8); [|reflexivity].
  apply testbit_bor. lia.
Qed.

(** A byte shifted to the place of byte [k'] is byte [k'] and nothing
    else. *)
Lemma byteOf_shl_byte (k k' b : Z) :
  0 <= k <= 3 -> 0 <= k' <= 3 -> isByte b ->
  byteOf k (JS.shl b (8 * k')) = if k =? k' then b else 0.
Proof.
  intros Hk Hk' Hb.
  assert (Hhigh : forall j, 8 <= j -> Z.testbit b j = false).
  { intros j Hj. destruct (Z.eq_dec b 0) as [->|Hb0]; [apply Z.testbit_0_l|].
    unfold isByte in Hb.
    apply Z.bits_above_log2; [lia|]. apply Z.log2_lt_pow2; [lia|].
    apply Z.lt_le_trans with (2 ^ 8); [lia|apply Z.pow_le_mono_r; lia]. }
  apply byte_eq.
  - apply byteOf_range.
  - unfold isByte in Hb. destruct (k =? k'); lia.
  - intros i Hi. rewrite testbit_byteOf by lia.
    destruct (Z.ltb_spec i 8); [|lia].
    rewrite testbit_shl by lia.
    destruct (Z.eqb_spec k k') as [->|Hne].
    + destruct (Z.ltb_spec (i + 8 * k') (8 * k')); [lia|].
      f_equal. lia.
    + rewrite Z.testbit_0_l.
      destruct (Z.ltb_spec (i + 8 * k) (8 * k')); [reflexivity|].
      apply Hhigh. lia.
Qed.

(* ================================================================== *)
(** * Further properties: the bytes of a word array *)
(* ================================================================== *)

(** Linear arithmetic with quotients and remainders by 4. *)
Ltac note_divmod4 a :=
  lazymatch goal with
  | _ : a = (4 * Nat.div a 4 + Nat.modulo a 4)%nat |- _ => fail
  | _ => pose proof (Nat.div_mod_eq a 4);
         pose proof (Nat.mod_upper_bound a 4 ltac:(discriminate))
  end.

Ltac divmod4 :=
  repeat match goal with
         | |- context [Nat.div ?a 4] => note_divmod4 a
         | |- context [Nat.modulo ?a 4] => note_divmod4 a
         | _ : context [Nat.div ?a 4] |- _ => note_divmod4 a
         | _ : context [Nat.modulo ?a 4] |- _ => note_divmod4 a
         end;
  lia.

Lemma wordArrayToBuffer_byteAt (w : WordArray) :
  wordArrayToBuffer w = map (byteAt (words w)) (seq 0 (sigBytes w)).
Proof.
  unfold wordArrayToBuffer, byteAt. apply map_ext. intros i.
  apply band_shr_byteOf. divmod4.
Qed.

Lemma byteAt_range (ws : list Z) (i : nat) : isByte (byteAt ws i).
Proof. apply byteOf_range. Qed.

Lemma byteAt_nil (i : nat) : byteAt [] i = 0.
Proof.
  unfold byteAt, WordArray.getWord. destruct (Nat.div i 4); apply byteOf_0.
Qed.

(** Writing a byte into an empty place of the words changes that place
    only. *)
Lemma byteAt_or_byte (ws : list Z) (q : nat) (b : Z) (p : nat) :
  isByte b -> byteAt ws q = 0 ->
  byteAt (WordArray.setWord ws (Nat.div q 4)
            (JS.bor (WordArray.getWord ws (Nat.div q 4))
                    (JS.shl b (24 - Z.of_nat (Nat.modulo q 4) * 8)))) p
  = if (p =? q)%nat then b else byteAt ws p.
Proof.
  intros Hb Hq. unfold byteAt in *. rewrite getWord_setWord.
  replace (24 - Z.of_nat (Nat.modulo q 4) * 8)
    with (8 * (3 - Z.of_nat (Nat.modulo q 4))) by lia.
  destruct (Nat.eqb_spec (Nat.div p 4) (Nat.div q 4)) as [Hw|Hw].
  - rewrite byteOf_bor by divmod4.
    rewrite byteOf_shl_byte by (exact Hb || divmod4).
    destruct (Nat.eqb_spec p q) as [->|Hpq].
    + rewrite Z.eqb_refl, Hq. reflexivity.
    + destruct (Z.eqb_spec (3 - Z.of_nat (Nat.modulo p 4))
                           (3 - Z.of_nat (Nat.modulo q 4))) as [E|E];
        [exfalso; divmod4|].
      rewrite Hw. apply Z.lor_0_r.
  - destruct (Nat.eqb_spec p q) as [->|Hpq]; [congruence|reflexivity].
Qed.

(** A run of bytes written one after the other from the place [base] on,
    into words that are empty from there on. *)
Lemma byteAt_fold_or (b : nat -> Z) (base n : nat) (ws : list Z) (p : nat) :
  (forall i, (i < n)%nat -> isByte (b i)) ->
  (forall q, (base <= q)%nat -> byteAt ws q = 0) ->
  byteAt
    (fold_left
       (fun ws i =>
          WordArray.setWord ws (Nat.div (base + i) 4)
            (JS.bor (WordArray.getWord ws (Nat.div (base + i) 4))
                    (JS.shl (b i)
                            (24 - Z.of_nat (Nat.modulo (base + i) 4) * 8))))
       (seq 0 n) ws) p
  = if (p <? base)%nat then byteAt ws p
    else if (p <? base + n)%nat then b (p - base)%nat else 0.
Proof.
  intros Hb Hempty. revert p. induction n as [|n IH]; intros p.
  - simpl. destruct (Nat.ltb_spec p base); [reflexivity|].
    rewrite Nat.add_0_r. destruct (Nat.ltb_spec p base); [lia|].
    apply Hempty. lia.
  - rewrite seq_S, fold_left_app. cbn [fold_left Nat.add].
    assert (IH' := IH (fun i Hi => Hb i (Nat.lt_lt_succ_r _ _ Hi))). clear IH.
    set (ws' := fold_left _ (seq 0 n) ws) in *.
    rewrite byteAt_or_byte.
    + rewrite IH'.
      destruct (Nat.eqb_spec p (base + n)) as [->|Hne].
      * destruct (Nat.ltb_spec (base + n) base); [lia|].
        destruct (Nat.ltb_spec (base + n) (base + S n)); [|lia].
        f_equal. lia.
      * destruct (Nat.ltb_spec p base); [reflexivity|].
        destruct (Nat.ltb_spec p (base + n)), (Nat.ltb_spec p (base + S n));
          try lia; reflexivity.
    + apply Hb. lia.
    + rewrite IH'.
      destruct (Nat.ltb_spec (base + n) base); [lia|].
      destruct (Nat.ltb_spec (base + n) (base + n)); [lia|reflexivity].
Qed.

Lemma byteAt_ofUint8Array (bytes : list Z) (p : nat) :
  Forall isByte bytes ->
  byteAt (words (WordArray.ofUint8Array bytes)) p
  = if (p <? length bytes)%nat then nth p bytes 0 else 0.
Proof.
  intros Hbytes. unfold WordArray.ofUint8Array. cbn [words].
  assert (H := byteAt_fold_or (fun i => nth i bytes 0) 0 (length bytes) [] p).
  cbn [Nat.add] in H. rewrite H.
  - change (p <? 0)%nat with false. cbv iota. rewrite Nat.sub_0_r.
    destruct (p <? length bytes)%nat; reflexivity.
  - intros i Hi. rewrite Forall_forall in Hbytes. apply Hbytes, nth_In, Hi.
  - intros q _. apply byteAt_nil.
Qed.

Lemma testbit_ones32 (i : Z) : 0 <= i < 32 -> Z.testbit 0xffffffff i = true.
Proof.
  intros Hi. change 0xffffffff with (Z.ones 32). apply Z.ones_spec_low. lia.
Qed.

(** The mask of [clamp] keeps the first [m] bytes of a word. *)
Lemma byteOf_band_mask (k m w : Z) :
  0 <= k <= 3 -> 1 <= m <= 3 ->
  byteOf k (JS.band w (JS.shl 0xffffffff (32 - m * 8)))
  = if 3 - k <? m then byteOf k w else 0.
Proof.
  intros Hk Hm. apply byte_eq.
  - apply byteOf_range.
  - pose proof (byteOf_range k w). destruct (3 - k <? m); lia.
  - intros i Hi. rewrite testbit_byteOf by lia.
    destruct (Z.ltb_spec i 8); [|lia].
    rewrite testbit_band, testbit_shl by lia.
    destruct (Z.ltb_spec (3 - k) m).
    + destruct (Z.ltb_spec (i + 8 * k) (32 - m * 8)); [lia|].
      rewrite testbit_ones32 by lia. rewrite andb_true_r.
      rewrite testbit_byteOf by lia.
      destruct (Z.ltb_spec i 8); [reflexivity|lia].
    + destruct (Z.ltb_spec (i + 8 * k) (32 - m * 8)); [|lia].
      rewrite andb_false_r, Z.testbit_0_l. reflexivity.
Qed.

(** [clamp] keeps the significant bytes and clears every other byte. *)
Lemma byteAt_clamp (a : WordArray) (p : nat) :
  byteAt (words (WordArray.clamp a)) p
  = if (p <? sigBytes a)%nat then byteAt (words a) p else 0.
Proof.
  rewrite clamp_words. unfold byteAt.
  rewrite getWord_resize, getWord_setWord.
  destruct (Nat.eq_dec (Nat.modulo (sigBytes a) 4) 0) as [Hal|Hal].
  - rewrite ceil4_aligned by exact Hal.
    destruct (Nat.ltb_spec (Nat.div p 4) (Nat.div (sigBytes a) 4)).
    + destruct (Nat.eqb_spec (Nat.div p 4) (Nat.div (sigBytes a) 4)); [lia|].
      destruct (Nat.ltb_spec p (sigBytes a)); [reflexivity|divmod4].
    + destruct (Nat.ltb_spec p (sigBytes a)); [divmod4|apply byteOf_0].
  - assert (Hc : WordArray.ceil4 (sigBytes a) = S (Nat.div (sigBytes a) 4))
      by (unfold WordArray.ceil4; divmod4).
    rewrite Hc.
    destruct (Nat.ltb_spec (Nat.div p 4) (S (Nat.div (sigBytes a) 4))).
    + destruct (Nat.eqb_spec (Nat.div p 4) (Nat.div (sigBytes a) 4)) as [E|E].
      * rewrite byteOf_band_mask by divmod4. rewrite E.
        destruct (Z.ltb_spec (3 - (3 - Z.of_nat (Nat.modulo p 4)))
                             (Z.of_nat (Nat.modulo (sigBytes a) 4)));
          destruct (Nat.ltb_spec p (sigBytes a)); try reflexivity; divmod4.
      * destruct (Nat.ltb_spec p (sigBytes a)); [reflexivity|divmod4].
    + destruct (Nat.ltb_spec p (sigBytes a)); [divmod4|apply byteOf_0].
Qed.

(** Whole words copied one after the other from the word [base] on. *)
Lemma getWord_fold_copy (src : list Z) (sa n : nat) (ws : list Z) (q : nat) :
  Nat.modulo sa 4 = 0%nat ->
  WordArray.getWord
    (fold_left
       (fun ws j4 =>
          WordArray.setWord ws (Nat.div (sa + 4 * j4) 4) (WordArray.getWord src j4))
       (seq 0 n) ws) q
  = if (Nat.div sa 4 <=? q)%nat && (q <? Nat.div sa 4 + n)%nat
    then WordArray.getWord src (q - Nat.div sa 4)
    else WordArray.getWord ws q.
Proof.
  intros Hal. revert q. induction n as [|n IH]; intros q.
  - cbn [seq fold_left]. rewrite Nat.add_0_r.
    destruct (Nat.leb_spec (Nat.div sa 4) q); cbn [andb]; [|reflexivity].
    destruct (Nat.ltb_spec q (Nat.div sa 4)); [lia|reflexivity].
  - rewrite seq_S, fold_left_app. cbn [fold_left Nat.add].
    rewrite getWord_setWord, IH.
    assert (E : Nat.div (sa + 4 * n) 4 = (Nat.div sa 4 + n)%nat) by divmod4.
    rewrite E.
    destruct (Nat.eqb_spec q (Nat.div sa 4 + n)) as [->|Hne].
    + destruct (Nat.leb_spec (Nat.div sa 4) (Nat.div sa 4 + n)); [|lia].
      destruct (Nat.ltb_spec (Nat.div sa 4 + n) (Nat.div sa 4 + S n)); [|lia].
      cbn [andb]. f_equal. lia.
    + destruct (Nat.leb_spec (Nat.div sa 4) q); cbn [andb]; [|reflexivity].
      destruct (Nat.ltb_spec q (Nat.div sa 4 + n)),
               (Nat.ltb_spec q (Nat.div sa 4 + S n)); try lia; reflexivity.
Qed.

(** The bytes of [this.concat(that)]: those of [this], then those of
    [that], whether [this] ends on a word boundary or not. *)
Lemma byteAt_concat (a b : WordArray) (p : nat) :
  (p < sigBytes a + sigBytes b)%nat ->
  byteAt (words (WordArray.concat a b)) p
  = if (p <? sigBytes a)%nat then byteAt (words a) p
    else byteAt (words b) (p - sigBytes a).
Proof.
  intros Hp.
  destruct (Nat.eq_dec (Nat.modulo (sigBytes a) 4) 0) as [Hal|Hal].
  - rewrite concat_words_aligned by exact Hal.
    unfold byteAt at 1. rewrite getWord_fold_copy by exact Hal.
    assert (Hc : (sigBytes b <= 4 * WordArray.ceil4 (sigBytes b))%nat)
      by (unfold WordArray.ceil4; divmod4).
    destruct (Nat.ltb_spec p (sigBytes a)) as [Hlt|Hge].
    + destruct (Nat.leb_spec (Nat.div (sigBytes a) 4) (Nat.div p 4));
        [divmod4|]. cbn [andb].
      fold (byteAt (words (WordArray.clamp a)) p).
      rewrite byteAt_clamp.
      destruct (Nat.ltb_spec p (sigBytes a)); [reflexivity|lia].
    + destruct (Nat.leb_spec (Nat.div (sigBytes a) 4) (Nat.div p 4));
        [|divmod4].
      destruct (Nat.ltb_spec (Nat.div p 4)
                  (Nat.div (sigBytes a) 4 + WordArray.ceil4 (sigBytes b)));
        [|divmod4].
      cbn [andb]. unfold byteAt. f_equal.
      * f_equal. f_equal. divmod4.
      * f_equal. divmod4.
  - unfold WordArray.concat. cbn [words].
    destruct (Nat.eqb_spec (Nat.modulo (sigBytes a) 4) 0) as [E|_]; [lia|].
    cbn [negb].
    rewrite (byteAt_fold_or
               (fun i =>
                  JS.band (WordArray.ushr
                             (WordArray.getWord (words b) (Nat.div i 4))
                             (24 - Z.of_nat (Nat.modulo i 4) * 8)) 0xff)
               (sigBytes a) (sigBytes b)).
    + rewrite byteAt_clamp.
      destruct (Nat.ltb_spec p (sigBytes a)); [reflexivity|].
      destruct (Nat.ltb_spec p (sigBytes a + sigBytes b)); [|lia].
      replace (24 - Z.of_nat (Nat.modulo (p - sigBytes a) 4) * 8)
        with (8 * (3 - Z.of_nat (Nat.modulo (p - sigBytes a) 4))) by lia.
      apply band_ushr_byteOf. divmod4.
    + intros i _.
      replace (24 - Z.of_nat (Nat.modulo i 4) * 8)
        with (8 * (3 - Z.of_nat (Nat.modulo i 4))) by lia.
      rewrite band_ushr_byteOf by divmod4. apply byteOf_range.
    + intros q Hq. rewrite byteAt_clamp.
      destruct (Nat.ltb_spec q (sigBytes a)); [lia|reflexivity].
Qed.

Lemma map_seq_from {A} (f : nat -> A) (base n : nat) :
  map f (seq base n) = map (fun i => f (base + i)%nat) (seq 0 n).
Proof.
  revert base. induction n as [|n IH]; intros base; [reflexivity|].
  cbn [seq map]. rewrite Nat.add_0_r. f_equal.
  rewrite IH, <- seq_shift, map_map. apply map_ext. intros i. f_equal. lia.
Qed.

Lemma wordArrayToBuffer_concat_app (a b : WordArray) :
  wordArrayToBuffer (WordArray.concat a b)
  = wordArrayToBuffer a ++ wordArrayToBuffer b.
Proof.
  rewrite !wordArrayToBuffer_byteAt, concat_sigBytes, seq_app, map_app.
  f_equal.
  - apply map_ext_in. intros p Hp. apply in_seq in Hp.
    rewrite byteAt_concat by lia.
    destruct (Nat.ltb_spec p (sigBytes a)); [reflexivity|lia].
  - cbn [Nat.add]. rewrite map_seq_from. apply map_ext_in. intros p Hp.
    apply in_seq in Hp. rewrite byteAt_concat by lia.
    destruct (Nat.ltb_spec (sigBytes a + p) (sigBytes a)); [lia|].
    f_equal. lia.
Qed.

(* ================================================================== *)
(** * Further properties: the permission masks *)
(* ================================================================== *)

(** X1.  The revision-2 mask of any permission input is a negative 32-bit
    value in which bit 3 is set exactly when [printing] is truthy (the two
    resolution strings included), bits 4, 5 and 6 exactly when [modifying],
    [copying] and [annotating] are true, bits 1 and 2 are 0 and bits 7 to
    32 are 1; the three revision-3 permissions do not reach it. *)
Theorem getPermissionsR2_bits (permissions : option UserPermissions) :
  let p := match permissions with Some p => p | None => noPermissions end in
  let P := getPermissionsR2 permissions in
  - 2 ^ 31 <= P < 0 /\
  pdfBit P 3 = truthy_printing (printing p) /\
  pdfBit P 4 = JS.truthy_bool (modifying p) /\
  pdfBit P 5 = JS.truthy_bool (copying p) /\
  pdfBit P 6 = JS.truthy_bool (annotating p) /\
  forall b, 1 <= b <= 32 -> b < 3 \/ 6 < b -> pdfBit P b = negb (b <? 3).
Proof.
  assert (Hall : forall q : UserPermissions,
             let P := getPermissionsR2 (Some q) in
             - 2 ^ 31 <= P < 0 /\
             pdfBit P 3 = truthy_printing (printing q) /\
             pdfBit P 4 = JS.truthy_bool (modifying q) /\
             pdfBit P 5 = JS.truthy_bool (copying q) /\
             pdfBit P 6 = JS.truthy_bool (annotating q) /\
             forallb (fun b => (3 <=? b) && (b <=? 6)
                               || Bool.eqb (pdfBit P b) (negb (b <? 3)))
                     (map Z.of_nat (seq 1 32)) = true).
  { intros [pr m c a f ca d].
    destruct pr as [[[|]| |]|];
      destruct m as [[|]|]; destruct c as [[|]|]; destruct a as [[|]|];
      vm_compute; repeat split; intros; discriminate. }
  intros p P.
  assert (HP : P = getPermissionsR2 (Some p)) by (destruct permissions; reflexivity).
  rewrite HP. clear HP P.
  destruct (Hall p) as (Hr & H3 & H4 & H5 & H6 & Hrest).
  repeat (split; [assumption|]).
  intros b Hb Hout.
  pose proof (forall_bit_positions _ Hrest b Hb) as H. cbv beta in H.
  apply orb_true_iff in H. destruct H as [H|H].
  - apply andb_true_iff in H. lia.
  - apply Bool.eqb_prop, H.
Qed.

(** X2.  The mask of revision 3 and later, for any permission input: bit 3
    is set exactly when [printing] is truthy, bit 12 exactly when it is
    ['highResolution'], bits 4, 5, 6, 9, 10 and 11 exactly when
    [modifying], [copying], [annotating], [fillingForms],
    [contentAccessibility] and [documentAssembly] are true; bits 1 and 2
    are 0 and bits 7, 8 and 13 to 32 are 1 whatever the input. *)
Theorem getPermissionsR3_bits (permissions : option UserPermissions) :
  let p := match permissions with Some p => p | None => noPermissions end in
  let P := getPermissionsR3 permissions in
  - 2 ^ 31 <= P < 0 /\
  pdfBit P 3 = truthy_printing (printing p) /\
  pdfBit P 12 = is_highResolution (printing p) /\
  pdfBit P 4 = JS.truthy_bool (modifying p) /\
  pdfBit P 5 = JS.truthy_bool (copying p) /\
  pdfBit P 6 = JS.truthy_bool (annotating p) /\
  pdfBit P 9 = JS.truthy_bool (fillingForms p) /\
  pdfBit P 10 = JS.truthy_bool (contentAccessibility p) /\
  pdfBit P 11 = JS.truthy_bool (documentAssembly p) /\
  forall b, 1 <= b <= 32 -> b < 3 \/ b = 7 \/ b = 8 \/ 12 < b ->
            pdfBit P b = negb (b <? 3).
Proof.
  intros p P.
  assert (HP : P = Z.lor (-3904) (grantedR3 p)).
  { subst P p. destruct permissions as [q|];
      [|rewrite getPermissionsR3_default]; apply getPermissionsR3_granted. }
  rewrite HP. clear HP P. unfold grantedR3.
  generalize (truthy_printing (printing p)) (is_highResolution (printing p))
             (JS.truthy_bool (modifying p)) (JS.truthy_bool (copying p))
             (JS.truthy_bool (annotating p)) (JS.truthy_bool (fillingForms p))
             (JS.truthy_bool (contentAccessibility p))
             (JS.truthy_bool (documentAssembly p)).
  intros b3 b12 b4 b5 b6 b9 b10 b11.
  assert (Hall :
            let P := Z.lor (-3904)
                       (Z.lor (if b3 then 4 else 0)
                       (Z.lor (if b12 then 2048 else 0)
                       (Z.lor (if b4 then 8 else 0)
                       (Z.lor (if b5 then 16 else 0)
                       (Z.lor (if b6 then 32 else 0)
                       (Z.lor (if b9 then 256 else 0)
                       (Z.lor (if b10 then 512 else 0)
                              (if b11 then 1024 else 0)))))))) in
            - 2 ^ 31 <= P < 0 /\
            pdfBit P 3 = b3 /\ pdfBit P 12 = b12 /\ pdfBit P 4 = b4 /\
            pdfBit P 5 = b5 /\ pdfBit P 6 = b6 /\ pdfBit P 9 = b9 /\
            pdfBit P 10 = b10 /\ pdfBit P 11 = b11 /\
            forallb (fun b => (3 <=? b) && (b <=? 6) || (9 <=? b) && (b <=? 12)
                              || Bool.eqb (pdfBit P b) (negb (b <? 3)))
                    (map Z.of_nat (seq 1 32)) = true).
  { destruct b3, b12, b4, b5, b6, b9, b10, b11;
      vm_compute; repeat split; intros; discriminate. }
  cbv zeta in Hall.
  destruct Hall as (Hr & H3 & H12 & H4 & H5 & H6 & H9 & H10 & H11 & Hrest).
  repeat (split; [assumption|]).
  intros b Hb Hout.
  pose proof (forall_bit_positions _ Hrest b Hb) as H. cbv beta in H.
  apply orb_true_iff in H. destruct H as [H|H].
  - apply orb_true_iff in H. destruct H as [H|H]; apply andb_true_iff in H; lia.
  - apply Bool.eqb_prop, H.
Qed.

(* ================================================================== *)
(** * Further properties: byte order *)
(* ================================================================== *)

(** Two 32-bit values with the same four bytes are equal. *)
Lemma int32_eq_bytes (a b : Z) :
  - 2 ^ 31 <= a < 2 ^ 31 -> - 2 ^ 31 <= b < 2 ^ 31 ->
  (forall k, 0 <= k <= 3 -> byteOf k a = byteOf k b) -> a = b.
Proof.
  intros Ha Hb H. apply int32_eq; try assumption.
  intros i Hi.
  assert (Hk : 0 <= i / 8 <= 3).
  { split; [apply Z.div_pos; lia|]. apply Z.lt_succ_r, Z.div_lt_upper_bound; lia. }
  pose proof (Z.div_mod i 8 ltac:(lia)) as Hdm.
  pose proof (Z.mod_pos_bound i 8 ltac:(lia)) as Hm.
  pose proof (f_equal (fun v => Z.testbit v (i mod 8)) (H (i / 8) Hk)) as E.
  cbv beta in E. rewrite !testbit_byteOf in E by lia.
  destruct (Z.ltb_spec (i mod 8) 8); [|lia].
  replace (i mod 8 + 8 * (i / 8)) with i in E by lia. exact E.
Qed.

Lemma byteOf_lsbFirstWord (k x : Z) :
  0 <= k <= 3 -> byteOf k (lsbFirstWord x) = byteOf (3 - k) x.
Proof.
  intros Hk. apply byte_eq; try apply byteOf_range.
  intros i Hi. rewrite !testbit_byteOf by lia.
  destruct (Z.ltb_spec i 8); [|lia].
  unfold lsbFirstWord. byte_index k; js_bits; bool_simpl; f_equal; lia.
Qed.

(** X3.  [lsbFirstWord] reverses the four bytes of a 32-bit value: in a
    word array the resulting word reads as the value least significant
    byte first, and applying it twice gives the value back. *)
Theorem lsbFirstWord_reverses_bytes (data : Z) :
  wordArrayToBuffer (WordArray.create [lsbFirstWord data] 4) = bytesLSBFirst data /\
  lsbFirstWord (lsbFirstWord data) = JS.ToInt32 data /\
  lsbFirstWord (JS.ToInt32 data) = lsbFirstWord data.
Proof.
  split; [|split].
  - rewrite wordArrayToBuffer_byteAt. unfold bytesLSBFirst, byteAt.
    cbn [WordArray.create words sigBytes seq map].
    change (Nat.div 0 4) with 0%nat. change (Nat.div 1 4) with 0%nat.
    change (Nat.div 2 4) with 0%nat. change (Nat.div 3 4) with 0%nat.
    change (Nat.modulo 0 4) with 0%nat. change (Nat.modulo 1 4) with 1%nat.
    change (Nat.modulo 2 4) with 2%nat. change (Nat.modulo 3 4) with 3%nat.
    cbn [WordArray.getWord nth].
    rewrite !byteOf_lsbFirstWord by lia. reflexivity.
  - apply int32_eq_bytes; try apply ToInt32_range.
    intros k Hk. rewrite !byteOf_lsbFirstWord, byteOf_ToInt32 by lia.
    f_equal. lia.
  - apply int32_eq_bytes; try apply ToInt32_range.
    intros k Hk. rewrite !byteOf_lsbFirstWord, byteOf_ToInt32 by lia.
    reflexivity.
Qed.

Lemma wordArrayToBuffer_create_nil (n : nat) :
  wordArrayToBuffer (WordArray.create [] n) = repeat 0 n.
Proof.
  rewrite wordArrayToBuffer_byteAt. cbn [WordArray.create words sigBytes].
  rewrite (map_ext _ (fun _ => 0)) by (intros; apply byteAt_nil).
  generalize 0%nat at 1. induction n as [|n IH]; intros start; [reflexivity|].
  cbn [seq map repeat]. f_equal. apply IH.
Qed.

Lemma wordArrayToBuffer_isByte (w : WordArray) : Forall isByte (wordArrayToBuffer w).
Proof.
  rewrite wordArrayToBuffer_byteAt. apply Forall_forall. intros b Hb.
  apply in_map_iff in Hb. destruct Hb as (i & <- & _). apply byteAt_range.
Qed.

(** X4.  [wordArrayToBuffer] returns exactly [sigBytes] elements, each of
    them a byte; words that are missing read as zero bytes, so the word
    array [create(null, n)] gives [n] zero bytes. *)
Theorem wordArrayToBuffer_gives_bytes (wordArray : WordArray) (n : nat) :
  length (wordArrayToBuffer wordArray) = sigBytes wordArray /\
  Forall isByte (wordArrayToBuffer wordArray) /\
  wordArrayToBuffer (WordArray.create [] n) = repeat 0 n.
Proof.
  split; [apply wordArrayToBuffer_length|]. split.
  - apply wordArrayToBuffer_isByte.
  - apply wordArrayToBuffer_create_nil.
Qed.

Lemma wordArrayToBuffer_ofUint8Array_id (bytes : Uint8Array) :
  Forall isByte bytes ->
  wordArrayToBuffer (WordArray.ofUint8Array bytes) = bytes.
Proof.
  intros Hbytes. rewrite wordArrayToBuffer_byteAt, ofUint8Array_sigBytes.
  apply nth_ext with (d := 0) (d' := 0).
  - rewrite length_map, length_seq. reflexivity.
  - intros i Hi. rewrite length_map, length_seq in Hi.
    rewrite (nth_indep _ 0 (byteAt (words (WordArray.ofUint8Array bytes)) 0%nat))
      by (rewrite length_map, length_seq; exact Hi).
    rewrite map_nth, seq_nth by exact Hi. cbn [Nat.add].
    rewrite byteAt_ofUint8Array by exact Hbytes.
    destruct (Nat.ltb_spec i (length bytes)); [reflexivity|lia].
Qed.

(** X5.  The bytes of a typed array survive the conversion to a word array
    and back: [wordArrayToBuffer(WordArray.create(bytes))] is [bytes]. *)
Theorem wordArrayToBuffer_ofUint8Array (bytes : Uint8Array) :
  Forall isByte bytes ->
  wordArrayToBuffer (WordArray.ofUint8Array bytes) = bytes.
Proof. apply wordArrayToBuffer_ofUint8Array_id. Qed.

Lemma wordArrayToBuffer_ofUint8Array_witness :
  wordArrayToBuffer (WordArray.ofUint8Array [0x25; 0x50; 0x44; 0x46; 0xff])
  = [0x25; 0x50; 0x44; 0x46; 0xff].
Proof.
  apply (wordArrayToBuffer_ofUint8Array [0x25; 0x50; 0x44; 0x46; 0xff]).
  repeat (apply Forall_cons; [unfold isByte; lia|]). apply Forall_nil.
Defined.

(** X6.  The bytes of [a.concat(b)] are the bytes of [a] followed by the
    bytes of [b], whether or not [a] ends on a word boundary and whatever
    lies in the words of [a] past its significant bytes. *)
Theorem wordArrayToBuffer_concat_bytes (a b : WordArray) :
  wordArrayToBuffer (WordArray.concat a b)
  = wordArrayToBuffer a ++ wordArrayToBuffer b.
Proof. apply wordArrayToBuffer_concat_app. Qed.

(** ** The object number and generation in the key of an object *)

Lemma byteOf_low (k n x y : Z) :
  0 <= k -> 8 * k + 8 <= n -> x mod 2 ^ n = y mod 2 ^ n ->
  byteOf k x = byteOf k y.
Proof.
  intros Hk Hn Hxy. apply byte_eq; try apply byteOf_range.
  intros i Hi. rewrite !testbit_byteOf by lia.
  destruct (Z.ltb_spec i 8); [|lia].
  rewrite <- (Z.mod_pow2_bits_low x n), <- (Z.mod_pow2_bits_low y n) by lia.
  rewrite Hxy. reflexivity.
Qed.

(** The first word appended to the file key: the low three bytes of the
    object number, low byte first, then the low byte of the generation. *)
Lemma byteOf_objectWord (k obj gen : Z) :
  0 <= k <= 3 ->
  byteOf k (JS.bor (JS.bor (JS.bor (JS.shl (JS.band obj 0xff) 24)
                                   (JS.shl (JS.band obj 0xff00) 8))
                           (JS.band (JS.shr obj 8) 0xff00))
                   (JS.band gen 0xff))
  = if k =? 0 then byteOf 0 gen else byteOf (3 - k) obj.
Proof.
  intros Hk. apply byte_eq.
  - apply byteOf_range.
  - destruct (k =? 0); apply byteOf_range.
  - intros i Hi. rewrite testbit_byteOf by lia.
    destruct (Z.ltb_spec i 8); [|lia].
    byte_index k; cbn [Z.eqb Pos.eqb]; rewrite testbit_byteOf by lia;
      (destruct (Z.ltb_spec i 8); [|lia]);
      js_bits; bool_simpl; f_equal; lia.
Qed.

(** The second word: the second byte of the generation, and nothing
    else. *)
Lemma byteOf_generationWord (k gen : Z) :
  0 <= k <= 3 ->
  byteOf k (JS.shl (JS.band gen 0xff00) 16)
  = if k =? 3 then byteOf 1 gen else 0.
Proof.
  intros Hk. apply byte_eq.
  - apply byteOf_range.
  - pose proof (byteOf_range 1 gen). destruct (k =? 3); lia.
  - intros i Hi. rewrite testbit_byteOf by lia.
    destruct (Z.ltb_spec i 8); [|lia].
    byte_index k; cbn [Z.eqb Pos.eqb]; rewrite ?testbit_byteOf by lia;
      rewrite ?Z.testbit_0_l;
      try (destruct (Z.ltb_spec i 8); [|lia]);
      js_bits; bool_simpl; try reflexivity; f_equal; lia.
Qed.

Lemma objectWord_low (obj gen obj' gen' : Z) :
  obj mod 2 ^ 24 = obj' mod 2 ^ 24 -> gen mod 2 ^ 16 = gen' mod 2 ^ 16 ->
  JS.bor (JS.bor (JS.bor (JS.shl (JS.band obj 0xff) 24)
                         (JS.shl (JS.band obj 0xff00) 8))
                 (JS.band (JS.shr obj 8) 0xff00))
         (JS.band gen 0xff)
  = JS.bor (JS.bor (JS.bor (JS.shl (JS.band obj' 0xff) 24)
                           (JS.shl (JS.band obj' 0xff00) 8))
                   (JS.band (JS.shr obj' 8) 0xff00))
           (JS.band gen' 0xff).
Proof.
  intros Hobj Hgen. apply int32_eq_bytes; try apply ToInt32_range.
  intros k Hk. rewrite !byteOf_objectWord by exact Hk.
  destruct (k =? 0) eqn:E.
  - apply (byteOf_low 0 16); [lia|lia|exact Hgen].
  - apply Z.eqb_neq in E. apply (byteOf_low (3 - k) 24); [lia|lia|exact Hobj].
Qed.

Lemma generationWord_low (gen gen' : Z) :
  gen mod 2 ^ 16 = gen' mod 2 ^ 16 ->
  JS.shl (JS.band gen 0xff00) 16 = JS.shl (JS.band gen' 0xff00) 16.
Proof.
  intros Hgen. apply int32_eq_bytes; try apply ToInt32_range.
  intros k Hk. rewrite !byteOf_generationWord by exact Hk.
  destruct (k =? 3); [|reflexivity].
  apply (byteOf_low 1 16); [lia|lia|exact Hgen].
Qed.

(** ** The key of an RC4 round *)

Lemma byteOf_bxor (k a b : Z) :
  0 <= k <= 3 -> byteOf k (JS.bxor a b) = Z.lxor (byteOf k a) (byteOf k b).
Proof.
  intros Hk. apply Z.bits_inj'. intros i Hi.
  rewrite Z.lxor_spec, !testbit_byteOf by lia.
  destruct (Z.ltb_spec i 8); [|reflexivity].
  apply testbit_bxor. lia.
Qed.

Lemma byteOf_byte (k b : Z) :
  0 <= k -> isByte b -> byteOf k b = if k =? 0 then b else 0.
Proof.
  intros Hk Hb. unfold byteOf, isByte in *.
  destruct (Z.eqb_spec k 0) as [->|Hne].
  - change (2 ^ (8 * 0)) with 1. rewrite Z.div_1_r. apply Z.mod_small, Hb.
  - rewrite Z.div_small; [reflexivity|]. split; [lia|].
    apply Z.lt_le_trans with (2 ^ 8); [lia|apply Z.pow_le_mono_r; lia].
Qed.

(** [i | (i << 8) | (i << 16) | (i << 24)] holds the byte [i] four
    times. *)
Lemma byteOf_roundMask (k i : Z) :
  0 <= k <= 3 -> isByte i -> byteOf k (roundMask i) = i.
Proof.
  intros Hk Hi. unfold roundMask.
  rewrite !byteOf_bor by exact Hk.
  rewrite (byteOf_shl_byte k 1), (byteOf_shl_byte k 2), (byteOf_shl_byte k 3)
    by (exact Hi || lia).
  rewrite byteOf_byte by (exact Hi || lia).
  byte_index k; cbn [Z.eqb Pos.eqb]; rewrite ?Z.lor_0_r, ?Z.lor_0_l; reflexivity.
Qed.

Lemma xorKeyWords_sigBytes (key source : WordArray) (i : Z) :
  sigBytes (xorKeyWords key source i) = sigBytes key.
Proof.
  unfold xorKeyWords. generalize (seq 0 (WordArray.ceil4 (sigBytes key))).
  intros l. assert (H : forall k, sigBytes k = sigBytes key ->
                                  sigBytes (fold_left
                                              (fun key0 j =>
                                                 mkWordArray
                                                   (WordArray.setWord (words key0) j
                                                      (JS.bxor (WordArray.getWord (words source) j)
                                                               (roundMask i)))
                                                   (sigBytes key0)) l k)
                                  = sigBytes key).
  { induction l as [|j rest IH]; intros k Hk; [exact Hk|].
    cbn [fold_left]. apply IH. exact Hk. }
  apply H. reflexivity.
Qed.

Lemma xorKeyWords_getWord (key source : WordArray) (i : Z) (j : nat) :
  WordArray.getWord (words (xorKeyWords key source i)) j
  = if (j <? WordArray.ceil4 (sigBytes key))%nat
    then JS.bxor (WordArray.getWord (words source) j) (roundMask i)
    else WordArray.getWord (words key) j.
Proof.
  unfold xorKeyWords. generalize (WordArray.ceil4 (sigBytes key)). intros n.
  induction n as [|n IH]; [reflexivity|].
  rewrite seq_S, fold_left_app. cbn [fold_left Nat.add words].
  rewrite getWord_setWord, IH.
  destruct (Nat.eqb_spec j n) as [->|Hne].
  - destruct (Nat.ltb_spec n (S n)); [reflexivity|lia].
  - destruct (Nat.ltb_spec j n), (Nat.ltb_spec j (S n)); try lia; reflexivity.
Qed.

(** X26.  The key of an RC4 round is the base key with every byte xored
    with the round number: the word mask [i | (i << 8) | (i << 16) |
    (i << 24)] applied word by word changes each significant byte [b] of
    the key to [b ^ i], and keeps the length of the key. *)
Theorem round_key_bytes (key source : WordArray) (i : Z) :
  isByte i ->
  sigBytes (xorKeyWords key source i) = sigBytes key /\
  wordArrayToBuffer (xorKeyWords key source i)
  = map (fun b => Z.lxor b i)
        (wordArrayToBuffer (WordArray.withSigBytes source (sigBytes key))).
Proof.
  intros Hi. split; [apply xorKeyWords_sigBytes|].
  rewrite !wordArrayToBuffer_byteAt, xorKeyWords_sigBytes, map_map.
  cbn [WordArray.withSigBytes words sigBytes].
  apply map_ext_in. intros p Hp. apply in_seq in Hp.
  unfold byteAt. rewrite xorKeyWords_getWord.
  destruct (Nat.ltb_spec (Nat.div p 4) (WordArray.ceil4 (sigBytes key)));
    [|unfold WordArray.ceil4 in *; divmod4].
  rewrite byteOf_bxor, byteOf_roundMask by (exact Hi || divmod4).
  reflexivity.
Qed.

Lemma round_key_bytes_witness :
  wordArrayToBuffer
    (xorKeyWords (mkWordArray [0x01020304; 0x05060708] 5)
                 (mkWordArray [0x01020304; 0x05060708] 5) 19)
  = map (fun b => Z.lxor b 19) [1; 2; 3; 4; 5].
Proof.
  apply (proj2 (round_key_bytes (mkWordArray [0x01020304; 0x05060708] 5)
                                (mkWordArray [0x01020304; 0x05060708] 5) 19
                                ltac:(unfold isByte; lia))).
Defined.

(* ================================================================== *)
(** * Further properties: the revision-5 password *)
(* ================================================================== *)

Lemma nth_store {A} (l : list A) (i p : nat) (v d : A) :
  nth p (JS.store l i v) d
  = if (p =? i)%nat && (i <? length l)%nat then v else nth p l d.
Proof.
  revert i p. induction l as [|h t IH]; intros i p.
  - assert (E : JS.store (@nil A) i v = []) by (destruct i; reflexivity).
    rewrite E. cbn [length]. change (i <? 0)%nat with false.
    rewrite andb_false_r. reflexivity.
  - destruct i as [|i], p as [|p]; cbn [JS.store nth length]; try reflexivity.
    rewrite IH. reflexivity.
Qed.

Lemma fold_store_length {A} (f : nat -> A) (idx : list nat) (out : list A) :
  length (fold_left (fun out i => JS.store out i (f i)) idx out) = length out.
Proof.
  revert out. induction idx as [|i idx IH]; intros out; [reflexivity|].
  cbn [fold_left]. rewrite IH. apply store_length.
Qed.

Lemma fold_store_nth {A} (f : nat -> A) (n : nat) (out : list A) (p : nat) (d : A) :
  (n <= length out)%nat ->
  nth p (fold_left (fun out i => JS.store out i (f i)) (seq 0 n) out) d
  = if (p <? n)%nat then f p else nth p out d.
Proof.
  revert p. induction n as [|n IH]; intros p Hn; [reflexivity|].
  rewrite seq_S, fold_left_app. cbn [fold_left Nat.add].
  rewrite nth_store, fold_store_length, IH by lia.
  destruct (Nat.eqb_spec p n) as [->|Hne].
  - destruct (Nat.ltb_spec n (length out)); [|lia].
    destruct (Nat.ltb_spec n (S n)); [reflexivity|lia].
  - cbn [andb].
    destruct (Nat.ltb_spec p n), (Nat.ltb_spec p (S n)); try lia; reflexivity.
Qed.

Lemma processPasswordR5_words (password : JS.jsstring) :
  processPasswordR5 (Some password)
  = WordArray.ofUint8Array (map JS.toUint8 (firstn 127 password)).
Proof.
  unfold processPasswordR5. f_equal.
  apply nth_ext with (d := 0) (d' := 0).
  - rewrite fold_store_length, repeat_length, length_map, length_firstn.
    reflexivity.
  - intros i Hi. rewrite fold_store_length, repeat_length in Hi.
    rewrite fold_store_nth by (rewrite repeat_length; lia).
    destruct (Nat.ltb_spec i (Nat.min 127 (length password))); [|lia].
    change (nth i (map JS.toUint8 (firstn 127 password)) 0)
      with (nth i (map JS.toUint8 (firstn 127 password)) (JS.toUint8 0)).
    rewrite map_nth.
    unfold JS.charCodeAt. rewrite nth_firstn.
    destruct (Nat.ltb_spec i 127); [reflexivity|lia].
Qed.

Lemma toUint8_isByte (z : Z) : isByte (JS.toUint8 z).
Proof. apply Z.mod_pos_bound. lia. Qed.

(** X7.  Revision-5 password processing never fails: it keeps the first
    127 characters, each reduced to its low eight bits, and ignores the
    rest; an absent password is the empty one.  Unlike the legacy
    processing it neither pads nor rejects a character above 0xff. *)
Theorem processPasswordR5_bytes (password : option JS.jsstring) :
  let p := match password with Some p => p | None => [] end in
  wordArrayToBuffer (processPasswordR5 password) = map JS.toUint8 (firstn 127 p) /\
  sigBytes (processPasswordR5 password) = Nat.min 127 (length p) /\
  processPasswordR5 (Some (firstn 127 p)) = processPasswordR5 password /\
  forall rest, (127 <= length p)%nat ->
               processPasswordR5 (Some (p ++ rest)) = processPasswordR5 password.
Proof.
  intros p.
  assert (Hp : processPasswordR5 password = processPasswordR5 (Some p))
    by (destruct password; reflexivity).
  rewrite Hp, !processPasswordR5_words.
  split; [|split; [|split]].
  - apply wordArrayToBuffer_ofUint8Array_id.
    apply Forall_forall. intros b Hb. apply in_map_iff in Hb.
    destruct Hb as (c & <- & _). apply toUint8_isByte.
  - rewrite ofUint8Array_sigBytes, length_map, length_firstn. reflexivity.
  - rewrite firstn_firstn. reflexivity.
  - intros rest Hlen. rewrite processPasswordR5_words, firstn_app.
    replace (127 - length p)%nat with 0%nat by lia.
    rewrite firstn_O, app_nil_r. reflexivity.
Qed.

(* ================================================================== *)
(** * Further properties: lookups in the object graph *)
(* ================================================================== *)

Section LookupProperties.

Variable number : Type.
Variable byteArrayToHexString : list Z -> JS.jsstring.

Local Abbreviation Context := (PDFContext number).
Local Abbreviation Object := (PDFObject number).
Local Abbreviation Key := (option (PDFObject number)).

(** ** The map of indirect objects *)

Lemma PDFRef_eqb_refl (r : PDFRef) : PDFRef_eqb r r = true.
Proof. apply PDFRef_eqb_eq. reflexivity. Qed.

Lemma PDFRef_eqb_neq (a b : PDFRef) : a <> b -> PDFRef_eqb a b = false.
Proof.
  intros H. destruct (PDFRef_eqb a b) eqn:E; [|reflexivity].
  apply PDFRef_eqb_eq in E. contradiction.
Qed.

Lemma assoc_get_set (l : list (PDFRef * Object)) (k k' : PDFRef) (v : Object) :
  assoc_get PDFRef_eqb (assoc_set PDFRef_eqb l k v) k'
  = if PDFRef_eqb k k' then Some v else assoc_get PDFRef_eqb l k'.
Proof.
  induction l as [|[k0 v0] t IH]; cbn [assoc_set assoc_get]; [reflexivity|].
  destruct (PDFRef_eqb k0 k) eqn:E0.
  - apply PDFRef_eqb_eq in E0. subst k0. cbn [assoc_get].
    destruct (PDFRef_eqb k k'); reflexivity.
  - cbn [assoc_get]. rewrite IH.
    destruct (PDFRef_eqb k0 k') eqn:E1; [|reflexivity].
    apply PDFRef_eqb_eq in E1. subst k'.
    rewrite (PDFRef_eqb_neq k k0); [reflexivity|].
    intros ->. rewrite PDFRef_eqb_refl in E0. discriminate.
Qed.

Lemma assoc_get_delete (l : list (PDFRef * Object)) (k k' : PDFRef) :
  assoc_get PDFRef_eqb (assoc_delete PDFRef_eqb l k) k'
  = if PDFRef_eqb k k' then None else assoc_get PDFRef_eqb l k'.
Proof.
  unfold assoc_delete.
  induction l as [|[k0 v0] t IH]; cbn [filter assoc_get fst].
  - destruct (PDFRef_eqb k k'); reflexivity.
  - destruct (PDFRef_eqb k0 k) eqn:E0; cbn [negb].
    + apply PDFRef_eqb_eq in E0. subst k0. rewrite IH.
      destruct (PDFRef_eqb k k'); reflexivity.
    + cbn [assoc_get]. rewrite IH.
      destruct (PDFRef_eqb k0 k') eqn:E1; [|reflexivity].
      apply PDFRef_eqb_eq in E1. subst k'.
      rewrite (PDFRef_eqb_neq k k0); [reflexivity|].
      intros ->. rewrite PDFRef_eqb_refl in E0. discriminate.
Qed.

Lemma assoc_get_In (l : list (PDFRef * Object)) (k : PDFRef) (v : Object) :
  assoc_get PDFRef_eqb l k = Some v -> In (k, v) l.
Proof.
  induction l as [|[k0 v0] t IH]; cbn [assoc_get]; [discriminate|].
  destruct (PDFRef_eqb k0 k) eqn:E0.
  - apply PDFRef_eqb_eq in E0. intros H. inversion H. subst. now left.
  - intros H. right. apply IH, H.
Qed.

Lemma assoc_get_None (l : list (PDFRef * Object)) (k : PDFRef) :
  assoc_get PDFRef_eqb l k = None <-> ~ In k (map fst l).
Proof.
  induction l as [|[k0 v0] t IH]; cbn [assoc_get map fst In]; [tauto|].
  destruct (PDFRef_eqb k0 k) eqn:E0.
  - apply PDFRef_eqb_eq in E0. split; [discriminate|tauto].
  - rewrite IH. split; [|tauto].
    intros H [E|Hin]; [|tauto]. subst k0.
    rewrite PDFRef_eqb_refl in E0. discriminate.
Qed.

Lemma In_assoc_get (l : list (PDFRef * Object)) (k : PDFRef) (v : Object) :
  NoDup (map fst l) -> In (k, v) l -> assoc_get PDFRef_eqb l k = Some v.
Proof.
  induction l as [|[k0 v0] t IH]; cbn [assoc_get map fst In]; [tauto|].
  intros Hnd [E|Hin].
  - inversion E. subst. rewrite PDFRef_eqb_refl. reflexivity.
  - inversion Hnd as [|? ? Hk0 Hnd']. subst.
    destruct (PDFRef_eqb k0 k) eqn:E0; [|apply IH; assumption].
    apply PDFRef_eqb_eq in E0. subst k0.
    exfalso. apply Hk0. apply in_map_iff. exists (k, v). auto.
Qed.

Lemma assoc_set_keys (l : list (PDFRef * Object)) (k : PDFRef) (v : Object) :
  map fst (assoc_set PDFRef_eqb l k v)
  = if assoc_has PDFRef_eqb l k then map fst l else map fst l ++ [k].
Proof.
  unfold assoc_has.
  induction l as [|[k0 v0] t IH]; cbn [assoc_set assoc_get map fst app]; [reflexivity|].
  destruct (PDFRef_eqb k0 k) eqn:E0; cbn [map fst]; [reflexivity|].
  rewrite IH. destruct (assoc_get PDFRef_eqb t k); reflexivity.
Qed.

Lemma assoc_set_NoDup (l : list (PDFRef * Object)) (k : PDFRef) (v : Object) :
  NoDup (map fst l) -> NoDup (map fst (assoc_set PDFRef_eqb l k v)).
Proof.
  intros Hnd. rewrite assoc_set_keys. unfold assoc_has.
  destruct (assoc_get PDFRef_eqb l k) eqn:E; [exact Hnd|].
  apply assoc_get_None in E.
  apply NoDup_app; [exact Hnd|repeat constructor; intros []|].
  intros x Hx [<-|[]]. contradiction.
Qed.

Lemma assoc_delete_NoDup (l : list (PDFRef * Object)) (k : PDFRef) :
  NoDup (map fst l) -> NoDup (map fst (assoc_delete PDFRef_eqb l k)).
Proof.
  unfold assoc_delete.
  induction l as [|[k0 v0] t IH]; cbn [filter map fst]; intros Hnd; [constructor|].
  inversion Hnd as [|? ? Hk0 Hnd']. subst.
  destruct (negb (PDFRef_eqb k0 k)); [|apply IH, Hnd'].
  cbn [map fst]. constructor; [|apply IH, Hnd'].
  intros Hin. apply Hk0. apply in_map_iff in Hin.
  destruct Hin as (e & <- & He). apply filter_In in He.
  apply in_map, He.
Qed.

(** ** Lookups read the graph through the map only *)

Lemma resolved_ref (c : Context) (r : PDFRef) :
  resolved c (Some (PDFRefObject r)) = assoc_get PDFRef_eqb (indirectObjects c) r.
Proof. reflexivity. Qed.

Lemma lookup_resolved (c : Context) (ref : Key) (types : list PDFType) :
  lookup c ref types
  = if (length types =? 0)%nat then Returned (resolved c ref)
    else if typesAccept types (resolved c ref) then Returned (resolved c ref)
    else UnexpectedObjectTypeError types (resolved c ref).
Proof. reflexivity. Qed.

Lemma lookupMaybe_resolved (c : Context) (ref : Key) (types : list PDFType) :
  lookupMaybe c ref types
  = if match resolved c ref with None => true | Some _ => false end
       || (is_PDFNull (resolved c ref) && negb (existsb is_typeof_PDFNull types))
    then Returned None
    else if typesAccept types (resolved c ref) then Returned (resolved c ref)
    else UnexpectedObjectTypeError types (resolved c ref).
Proof. reflexivity. Qed.

Lemma typesAccept_existsb (types : list PDFType) (result : Key) :
  typesAccept types result = existsb (accepts result) types.
Proof.
  induction types as [|type rest IH]; cbn [typesAccept existsb]; [reflexivity|].
  unfold accepts at 1. rewrite IH.
  destruct (is_typeof_PDFNull type); [destruct (is_PDFNull result)|
                                      destruct (instanceof result type)];
    reflexivity.
Qed.

Lemma PDFObject_is_null (o : Object) : o = PDFNull \/ o <> PDFNull.
Proof. destruct o; (now left) || (right; discriminate). Qed.

(** ** Assigning, deleting and looking up *)

(** X8.  [assign] never fails; afterwards the reference looks up to the
    object assigned, every other reference looks up (with [lookup] and
    with [lookupMaybe], for any types) as it did before, and the counter
    is the larger of its old value and the assigned object number.  An
    assignment to a reference that is in use replaces its object and adds
    no entry. *)
Theorem assign_then_lookup (c : Context) (ref : PDFRef) (object : Object) :
  let c' := snd (assign ref object c) in
  fst (assign ref object c) = Ok tt /\
  lookup c' (Some (PDFRefObject ref)) [] = Returned (Some object) /\
  (forall ref' types,
      ref' <> ref ->
      lookup c' (Some (PDFRefObject ref')) types
      = lookup c (Some (PDFRefObject ref')) types /\
      lookupMaybe c' (Some (PDFRefObject ref')) types
      = lookupMaybe c (Some (PDFRefObject ref')) types) /\
  largestObjectNumber c' = Z.max (largestObjectNumber c) (objectNumber ref) /\
  length (indirectObjects c')
  = match resolved c (Some (PDFRefObject ref)) with
    | Some _ => length (indirectObjects c)
    | None => S (length (indirectObjects c))
    end.
Proof.
  intros c'. subst c'. rewrite assign_run. cbn [fst snd].
  split; [reflexivity|]. split; [|split; [|split]].
  - rewrite lookup_resolved, resolved_ref. cbn [length Nat.eqb].
    cbn [indirectObjects set_largestObjectNumber set_indirectObjects].
    rewrite assoc_get_set, PDFRef_eqb_refl. reflexivity.
  - intros ref' types Hne.
    assert (E : resolved
                  (set_largestObjectNumber
                     (Z.max (largestObjectNumber c) (objectNumber ref))
                     (set_indirectObjects
                        (assoc_set PDFRef_eqb (indirectObjects c) ref object) c))
                  (Some (PDFRefObject ref'))
                = resolved c (Some (PDFRefObject ref'))).
    { rewrite !resolved_ref.
      cbn [indirectObjects set_largestObjectNumber set_indirectObjects].
      rewrite assoc_get_set, PDFRef_eqb_neq by congruence. reflexivity. }
    rewrite !lookup_resolved, !lookupMaybe_resolved, E. split; reflexivity.
  - reflexivity.
  - rewrite resolved_ref.
    cbn [indirectObjects set_largestObjectNumber set_indirectObjects].
    rewrite <- (length_map fst), assoc_set_keys. unfold assoc_has.
    destruct (assoc_get PDFRef_eqb (indirectObjects c) ref).
    + apply length_map.
    + rewrite length_app, length_map. cbn [length]. lia.
Qed.

(** X9.  [delete] reports whether the reference was assigned; afterwards
    the reference looks up to [undefined], every other reference looks up
    as before, and the counter is unchanged, so that deleting the same
    reference again reports [false]. *)
Theorem delete_then_lookup (c : Context) (ref : PDFRef) :
  let c' := snd (delete ref c) in
  fst (delete ref c)
  = Ok (match resolved c (Some (PDFRefObject ref)) with
        | Some _ => true
        | None => false
        end) /\
  lookup c' (Some (PDFRefObject ref)) [] = Returned None /\
  (forall ref' types,
      ref' <> ref ->
      lookup c' (Some (PDFRefObject ref')) types
      = lookup c (Some (PDFRefObject ref')) types /\
      lookupMaybe c' (Some (PDFRefObject ref')) types
      = lookupMaybe c (Some (PDFRefObject ref')) types) /\
  largestObjectNumber c' = largestObjectNumber c /\
  fst (delete ref c') = Ok false.
Proof.
  intros c'. subst c'. rewrite !delete_run. cbn [fst snd].
  split; [reflexivity|]. split; [|split; [|split]].
  - rewrite lookup_resolved, resolved_ref. cbn [length Nat.eqb].
    cbn [indirectObjects set_indirectObjects].
    rewrite assoc_get_delete, PDFRef_eqb_refl. reflexivity.
  - intros ref' types Hne.
    assert (E : resolved
                  (set_indirectObjects
                     (assoc_delete PDFRef_eqb (indirectObjects c) ref) c)
                  (Some (PDFRefObject ref'))
                = resolved c (Some (PDFRefObject ref'))).
    { rewrite !resolved_ref. cbn [indirectObjects set_indirectObjects].
      rewrite assoc_get_delete, PDFRef_eqb_neq by congruence. reflexivity. }
    rewrite !lookup_resolved, !lookupMaybe_resolved, E. split; reflexivity.
  - reflexivity.
  - unfold assoc_has. cbn [indirectObjects set_indirectObjects].
    rewrite assoc_get_delete, PDFRef_eqb_refl. reflexivity.
Qed.

(** ** Typed lookups *)

(** X10.  A lookup with types returns the object the key stands for when
    one of the requested types accepts it ([PDFNull] by identity, a class
    by [instanceof]), in whatever order the types are listed, and throws
    [UnexpectedObjectTypeError] with the types and the object otherwise;
    in particular it throws for a reference that is not assigned.  A
    lookup without types returns whatever the key stands for and never
    throws, and a key that is no reference stands for itself. *)
Theorem lookup_types (c : Context) (ref : Key) (types : list PDFType) :
  lookup c ref [] = Returned (resolved c ref) /\
  (forall o, ref = Some o -> instanceof ref typeof_PDFRef = false ->
             resolved c ref = Some o) /\
  (types <> [] ->
   lookup c ref types
   = if existsb (accepts (resolved c ref)) types
     then Returned (resolved c ref)
     else UnexpectedObjectTypeError types (resolved c ref)) /\
  (types <> [] -> resolved c ref = None ->
   lookup c ref types = UnexpectedObjectTypeError types None).
Proof.
  split; [reflexivity|]. split; [|split].
  - intros o -> Hnoref. destruct o; try reflexivity. discriminate Hnoref.
  - intros Hne. rewrite lookup_resolved, typesAccept_existsb.
    destruct types; [contradiction|reflexivity].
  - intros Hne Hnone. rewrite lookup_resolved, typesAccept_existsb, Hnone.
    destruct types as [|t ts]; [contradiction|]. cbn [length Nat.eqb].
    assert (H : existsb (accepts (number := number) None) (t :: ts) = false).
    { apply not_true_is_false. intros H. apply existsb_exists in H.
      destruct H as (x & _ & Hx). destruct x; discriminate Hx. }
    rewrite H. reflexivity.
Qed.

(** X11.  [lookupMaybe] differs from [lookup] in three ways: for a key
    that stands for nothing it returns [undefined] instead of throwing;
    it returns [undefined] for [PDFNull] unless [PDFNull] is among the
    requested types, so that it never returns [PDFNull] unasked; and
    called without types it throws for every object other than [PDFNull].
    In every other case the two agree. *)
Theorem lookupMaybe_and_lookup (c : Context) (ref : Key) (types : list PDFType) :
  (resolved c ref = None -> lookupMaybe c ref types = Returned None) /\
  (resolved c ref = Some PDFNull ->
   lookupMaybe c ref types
   = if existsb is_typeof_PDFNull types then Returned (Some PDFNull)
     else Returned None) /\
  (forall o, resolved c ref = Some o -> o <> PDFNull ->
             lookupMaybe c ref types
             = match types with
               | [] => UnexpectedObjectTypeError [] (Some o)
               | _ :: _ => lookup c ref types
               end) /\
  (lookupMaybe c ref types = Returned (Some PDFNull) ->
   In typeof_PDFNull types).
Proof.
  assert (Hnull : resolved c ref = Some PDFNull ->
                  lookupMaybe c ref types
                  = if existsb is_typeof_PDFNull types then Returned (Some PDFNull)
                    else Returned None).
  { intros Hr. rewrite lookupMaybe_resolved, typesAccept_existsb, Hr.
    cbn [is_PDFNull orb andb].
    destruct (existsb is_typeof_PDFNull types) eqn:E; cbn [negb]; [|reflexivity].
    assert (H : existsb (accepts (number := number) (Some PDFNull)) types = true).
    { apply existsb_exists in E. destruct E as (t & Hin & Ht).
      apply existsb_exists. exists t. split; [exact Hin|].
      unfold accepts. rewrite Ht. reflexivity. }
    rewrite H. reflexivity. }
  split; [|split; [|split]].
  - intros Hr. rewrite lookupMaybe_resolved, Hr. reflexivity.
  - exact Hnull.
  - intros o Hr Ho. rewrite lookupMaybe_resolved, lookup_resolved, Hr.
    assert (E : is_PDFNull (Some o) = false) 
      by (destruct o; first [reflexivity|exfalso; apply Ho; reflexivity]).
    rewrite E. cbn [orb andb].
    destruct types; reflexivity.
  - intros H.
    destruct (resolved c ref) as [o|] eqn:Hr.
    + destruct (PDFObject_is_null o) as [->|Ho].
      * rewrite (Hnull eq_refl) in H.
        destruct (existsb is_typeof_PDFNull types) eqn:E; [|discriminate H].
        apply existsb_exists in E. destruct E as (t & Hin & Ht).
        destruct t; try discriminate Ht. exact Hin.
      * rewrite lookupMaybe_resolved, Hr in H.
        assert (E : is_PDFNull (Some o) = false) 
      by (destruct o; first [reflexivity|exfalso; apply Ho; reflexivity]).
        rewrite E in H. cbn [orb andb] in H.
        destruct (typesAccept types (Some o)); inversion H. contradiction.
    + rewrite lookupMaybe_resolved, Hr in H. discriminate H.
Qed.

(** ** Graphs reached from a fresh one *)

Lemma distinctRefs_after (op : GraphOp number) (c : Context) :
  distinctRefs c -> distinctRefs (after byteArrayToHexString op c).
Proof.
  unfold distinctRefs, after, call, bind. intros Hnd.
  destruct op as [ref o|o| |ref| |].
  - rewrite assign_run. cbn [fst snd ret]. apply assoc_set_NoDup, Hnd.
  - rewrite register_run. cbn [fst snd ret]. apply assoc_set_NoDup, Hnd.
  - rewrite nextRef_run. exact Hnd.
  - rewrite delete_run. cbn [fst snd ret]. apply assoc_delete_NoDup, Hnd.
  - rewrite getPush_run.
    destruct (pushGraphicsStateContentStreamRef c); [exact Hnd|].
    rewrite register_run. cbn [fst snd ret]. apply assoc_set_NoDup, Hnd.
  - rewrite getPop_run.
    destruct (popGraphicsStateContentStreamRef c); [exact Hnd|].
    rewrite register_run. cbn [fst snd ret]. apply assoc_set_NoDup, Hnd.
Qed.

Lemma distinctRefs_history (ops : list (GraphOp number)) (c : Context) :
  distinctRefs c -> distinctRefs (snd (history byteArrayToHexString ops c)).
Proof.
  revert c. induction ops as [|op rest IH]; intros c Hnd; [exact Hnd|].
  cbn [history].
  specialize (IH (after byteArrayToHexString op c) (distinctRefs_after op c Hnd)).
  destruct (history byteArrayToHexString rest (after byteArrayToHexString op c)).
  exact IH.
Qed.

Lemma graphAfter_bounded (ops : list (GraphOp number)) :
  largestObjectNumber (graphAfter byteArrayToHexString ops) < 2 ^ 53 ->
  bounded (graphAfter byteArrayToHexString ops).
Proof.
  intros Hs.
  apply (history_bounded number byteArrayToHexString ops PDFContext_create);
    [apply bounded_create|exact Hs].
Qed.

Lemma graphAfter_distinctRefs (ops : list (GraphOp number)) :
  distinctRefs (graphAfter byteArrayToHexString ops).
Proof. apply distinctRefs_history. constructor. Qed.

(** X12.  On a graph reached from a fresh one by any calls that leave
    the counter below 2^53, [register] hands out a reference that is not
    in use: its object number is at least 1 and its generation 0, it
    looked up to [undefined] before and looks up to the registered object
    afterwards, every other reference looks up as before, and the graph
    has exactly one entry more.  Below 2^53 no registration overwrites an
    object, also after deletions. *)
Theorem register_then_lookup (ops : list (GraphOp number)) (object : Object) :
  let c := graphAfter byteArrayToHexString ops in
  let c' := snd (register object c) in
  largestObjectNumber c < 2 ^ 53 ->
  exists ref,
    fst (register object c) = Ok ref /\
    1 <= objectNumber ref /\ generationNumber ref = 0 /\
    lookup c (Some (PDFRefObject ref)) [] = Returned None /\
    lookup c' (Some (PDFRefObject ref)) [] = Returned (Some object) /\
    (forall ref' types,
        ref' <> ref ->
        lookup c' (Some (PDFRefObject ref')) types
        = lookup c (Some (PDFRefObject ref')) types /\
        lookupMaybe c' (Some (PDFRefObject ref')) types
        = lookupMaybe c (Some (PDFRefObject ref')) types) /\
    length (indirectObjects c') = S (length (indirectObjects c)).
Proof.
  intros c c' Hs. pose proof (graphAfter_bounded ops Hs) as Hb. fold c in Hb.
  subst c'. rewrite register_run, (bounded_next number c Hb Hs). cbn [fst snd].
  exists (PDFRef_of (largestObjectNumber c + 1)).
  destruct Hb as (Hkeys & _ & _ & Hpos).
  assert (Hfresh : assoc_get PDFRef_eqb (indirectObjects c)
                             (PDFRef_of (largestObjectNumber c + 1)) = None).
  { apply (assoc_get_bounded number _ (largestObjectNumber c)); [exact Hkeys|].
    cbn [PDFRef_of objectNumber]. lia. }
  split; [reflexivity|]. split; [cbn [PDFRef_of objectNumber]; lia|].
  split; [reflexivity|]. split; [|split; [|split]].
  - rewrite lookup_resolved, resolved_ref, Hfresh. reflexivity.
  - rewrite lookup_resolved, resolved_ref.
    cbn [indirectObjects set_largestObjectNumber set_indirectObjects].
    rewrite assoc_get_set, PDFRef_eqb_refl. reflexivity.
  - intros ref' types Hne.
    rewrite !lookup_resolved, !lookupMaybe_resolved, !resolved_ref.
    cbn [indirectObjects set_largestObjectNumber set_indirectObjects].
    rewrite assoc_get_set, PDFRef_eqb_neq by congruence. split; reflexivity.
  - cbn [indirectObjects set_largestObjectNumber set_indirectObjects].
    rewrite assoc_set_length, Hfresh. reflexivity.
Qed.

(** X13.  On a graph reached from a fresh one by any calls,
    [enumerateIndirectObjects] lists exactly what [lookup] finds: a pair of
    a reference and an object is listed if and only if the reference looks
    up to the object, no reference is listed twice, and the graph is left
    as it is. *)
Theorem enumerateIndirectObjects_lists_lookups (ops : list (GraphOp number)) :
  let c := graphAfter byteArrayToHexString ops in
  snd (enumerateIndirectObjects c) = c /\
  fst (enumerateIndirectObjects c) = Ok (enumerated c) /\
  NoDup (map fst (enumerated c)) /\
  forall ref object,
    In (ref, object) (enumerated c)
    <-> lookup c (Some (PDFRefObject ref)) [] = Returned (Some object).
Proof.
  intros c. pose proof (graphAfter_distinctRefs ops) as Hnd. fold c in Hnd.
  unfold distinctRefs in Hnd.
  assert (Hperm : Permutation (enumerated c) (indirectObjects c)).
  { unfold enumerated. rewrite enumerateIndirectObjects_run. cbn [fst].
    apply Array_sort_perm. }
  split; [reflexivity|]. split; [reflexivity|]. split.
  - apply (Permutation_NoDup (l := map fst (indirectObjects c))); [|exact Hnd].
    apply Permutation_map. symmetry. exact Hperm.
  - intros ref object. rewrite lookup_resolved, resolved_ref. cbn [length Nat.eqb].
    split.
    + intros Hin. f_equal. apply In_assoc_get; [exact Hnd|].
      apply (Permutation_in _ Hperm), Hin.
    + intros H. inversion H as [Hget].
      apply (Permutation_in _ (Permutation_sym Hperm)).
      apply assoc_get_In, Hget.
Qed.

(** ** Registration in sequence *)

Lemma Array_sort_ascending_id (l : list (PDFRef * Object)) :
  ascending l -> Array_sort byAscendingObjectNumber l = l.
Proof.
  unfold ascending. induction 1 as [|x t Ht IH Hx]; [reflexivity|].
  cbn [Array_sort fold_right]. fold (Array_sort byAscendingObjectNumber t).
  rewrite IH. destruct t as [|y t']; [reflexivity|].
  cbn [sort_insert]. inversion Hx as [|? ? Hxy _]. subst.
  unfold byAscendingObjectNumber.
  destruct (Z.leb_spec (objectNumber (fst x) - objectNumber (fst y)) 0);
    [reflexivity|lia].
Qed.

Lemma ascending_app_one (l : list (PDFRef * Object)) (x : PDFRef * Object) :
  ascending l ->
  Forall (fun e => objectNumber (fst e) <= objectNumber (fst x)) l ->
  ascending (l ++ [x]).
Proof.
  unfold ascending. induction 1 as [|y t Ht IH Hy]; intros Hall; cbn [app].
  - repeat constructor.
  - inversion Hall as [|? ? Hyx Hall']. subst.
    constructor; [apply IH, Hall'|].
    apply Forall_app. split; [exact Hy|]. constructor; [exact Hyx|constructor].
Qed.

Lemma history_registers (objects : list Object) (c : Context) :
  Forall (fun e => objectNumber (fst e) <= largestObjectNumber c) (indirectObjects c) ->
  0 <= largestObjectNumber c ->
  largestObjectNumber c + Z.of_nat (length objects) <= 2 ^ 53 ->
  let run := history byteArrayToHexString (map OpRegister objects) c in
  let refs := map (fun i => PDFRef_of (largestObjectNumber c + Z.of_nat i))
                  (seq 1 (length objects)) in
  fst run = refs /\
  largestObjectNumber (snd run) = largestObjectNumber c + Z.of_nat (length objects) /\
  indirectObjects (snd run) = indirectObjects c ++ combine refs objects.
Proof.
  revert c. induction objects as [|o rest IH]; intros c Hkeys H0 Hend.
  - cbn. rewrite Z.add_0_r, app_nil_r. auto.
  - cbn [length] in Hend.
    assert (Hn : JS.add (largestObjectNumber c) 1 = largestObjectNumber c + 1)
      by (apply add_one_exact; lia).
    cbn [map history length].
    assert (Hafter : after byteArrayToHexString (OpRegister o) c
                     = snd (register o c)).
    { unfold after, call, bind. rewrite register_run. reflexivity. }
    assert (Hout : handedOut byteArrayToHexString (OpRegister o) c
                   = [PDFRef_of (largestObjectNumber c + 1)]).
    { unfold handedOut, call, bind. rewrite register_run, Hn. reflexivity. }
    rewrite Hafter, Hout. rewrite register_run, Hn. cbn [snd].
    set (c1 := set_largestObjectNumber _ _).
    assert (Hfresh : assoc_set PDFRef_eqb (indirectObjects c)
                               (PDFRef_of (largestObjectNumber c + 1)) o
                     = indirectObjects c ++ [(PDFRef_of (largestObjectNumber c + 1), o)]).
    { apply assoc_set_fresh. apply assoc_get_None.
      apply (assoc_get_bounded number _ (largestObjectNumber c)); [exact Hkeys|].
      cbn [PDFRef_of objectNumber]. lia. }
    assert (Hkeys1 : Forall (fun e => objectNumber (fst e) <= largestObjectNumber c1)
                            (indirectObjects c1)).
    { subst c1. cbn [indirectObjects largestObjectNumber set_largestObjectNumber
                     set_indirectObjects].
      rewrite Hfresh. apply Forall_app. split.
      - eapply Forall_impl; [|exact Hkeys]. cbv beta. intros; lia.
      - constructor; [|constructor]. cbn [fst PDFRef_of objectNumber]. lia. }
    assert (HL : largestObjectNumber c1 = largestObjectNumber c + 1) by reflexivity.
    specialize (IH c1 Hkeys1 ltac:(lia) ltac:(lia)). cbv zeta in IH.
    destruct (history byteArrayToHexString (map OpRegister rest) c1) as [refs c'].
    cbn [fst snd] in *. destruct IH as (Hrefs & Hlarge & Hmap).
    assert (Hshift : refs
                     = map (fun i => PDFRef_of (largestObjectNumber c + Z.of_nat i))
                           (seq 2 (length rest))).
    { rewrite Hrefs, HL, <- (seq_shift (length rest) 1), map_map.
      apply map_ext. intros i. f_equal. lia. }
    split; [|split].
    + cbn [seq map app]. rewrite Hshift. f_equal.
    + rewrite Hlarge, HL. lia.
    + rewrite Hmap, <- Hrefs, Hshift.
      change (indirectObjects c1)
        with (assoc_set PDFRef_eqb (indirectObjects c)
                        (PDFRef_of (largestObjectNumber c + 1)) o).
      rewrite Hfresh, <- app_assoc. reflexivity.
Qed.

(** X14.  Registering objects one after the other in a fresh graph, up to
    2^53 of them, hands out the references 1, 2, 3, ... in that order, and
    the graph then enumerates exactly these references with their objects,
    in the order of registration. *)
Theorem register_in_sequence (objects : list Object) :
  let run := history byteArrayToHexString (map OpRegister objects) PDFContext_create in
  let refs := map (fun i => PDFRef_of (Z.of_nat i)) (seq 1 (length objects)) in
  Z.of_nat (length objects) <= 2 ^ 53 ->
  fst run = refs /\
  largestObjectNumber (snd run) = Z.of_nat (length objects) /\
  enumerated (snd run) = combine refs objects.
Proof.
  intros run refs Hcount.
  destruct (history_registers objects PDFContext_create (Forall_nil _)
                              ltac:(cbn; lia) ltac:(cbn; lia))
    as (Hrefs & Hlarge & Hmap).
  fold run in Hrefs, Hlarge, Hmap.
  change (largestObjectNumber (PDFContext_create (number := number))) with 0
    in Hrefs, Hlarge, Hmap.
  cbn [Z.add] in Hrefs, Hlarge, Hmap.
  change (indirectObjects (PDFContext_create (number := number)))
    with (@nil (PDFRef * Object)) in Hmap.
  cbn [app] in Hmap.
  split; [exact Hrefs|]. split; [exact Hlarge|].
  unfold enumerated. rewrite enumerateIndirectObjects_run. cbn [fst].
  rewrite Hmap. apply Array_sort_ascending_id.
  clear. subst refs. generalize 1%nat as start.
  induction objects as [|o rest IH]; intros start; [constructor|].
  cbn [length seq map combine]. constructor; [apply IH|].
  apply Forall_forall. intros [r o'] Hin. apply in_combine_l in Hin.
  apply in_map_iff in Hin. destruct Hin as (i & <- & Hi). apply in_seq in Hi.
  cbn [fst PDFRef_of objectNumber]. lia.
Qed.

End LookupProperties.

(* ================================================================== *)
(** * Further properties: publishing the encryption dictionary *)
(* ================================================================== *)

Section EncryptProperties.

Variable number : Type.
Variable number_of_Z : Z -> number.
Variable byteArrayToHexString : list Z -> JS.jsstring.

Local Abbreviation Context := (PDFContext number).
Local Abbreviation Object := (PDFObject number).

Lemma encrypt_run (this : PDFSecurity) (i : Uint8Array) (e : Encryption)
      (c : Context) :
  id this = Some i -> encryption this = Some e ->
  - 2 ^ 53 <= largestObjectNumber c < 2 ^ 53 ->
  encrypt number_of_Z byteArrayToHexString this c
  = (Ok this,
     set_trailerInfo_Encrypt
       (PDFRefObject (PDFRef_of (largestObjectNumber c + 1)))
       (snd (register
               (obj byteArrayToHexString (Encryption_literal number_of_Z e))
               (set_trailerInfo_ID
                  (PDFArray [PDFHexString_fromBytes byteArrayToHexString i;
                             PDFHexString_fromBytes byteArrayToHexString i])
                  c)))).
Proof.
  intros Hid He Hs. unfold encrypt, bind, modify, ret. rewrite Hid, He.
  rewrite !register_run_exact by exact Hs. reflexivity.
Qed.

Lemma Encryption_literal_entries (e : Encryption) :
  let dict := obj byteArrayToHexString (Encryption_literal number_of_Z e) in
  instanceof (Some dict) typeof_PDFDict = true /\
  dictEntry dict "Filter" = Some (PDFName (Filter e)) /\
  dictEntry dict "V" = Some (PDFNumber (number_of_Z (V e))) /\
  dictEntry dict "R" = Some (PDFNumber (number_of_Z (R e))) /\
  dictEntry dict "P" = Some (PDFNumber (number_of_Z (P e))) /\
  dictEntry dict "O" = Some (PDFHexString (byteArrayToHexString (O e))) /\
  dictEntry dict "U" = Some (PDFHexString (byteArrayToHexString (U e))) /\
  dictEntry dict "Length"
  = option_map (fun n => PDFNumber (number_of_Z n)) (Length e) /\
  dictEntry dict "OE"
  = option_map (fun b => PDFHexString (byteArrayToHexString b)) (OE e) /\
  dictEntry dict "UE"
  = option_map (fun b => PDFHexString (byteArrayToHexString b)) (UE e) /\
  dictEntry dict "Perms"
  = option_map (fun b => PDFHexString (byteArrayToHexString b)) (Perms e).
Proof.
  destruct e as [v r o u p filter len cf stmf strf oe ue perms].
  destruct len, cf, stmf, strf, oe, ue, perms;
    vm_compute; repeat split.
Qed.

(** X15.  [encrypt()] of a handler whose file identifier and dictionary
    are set, on a graph reached from a fresh one with room for two more
    object numbers below 2^53: it returns the handler;
    the trailer's ID becomes an array of two copies of the file identifier
    as hexadecimal strings and its Encrypt entry a reference that was not
    in use, under which the dictionary is registered; Root and Info, and
    what every other reference looks up to, are untouched.  In the
    dictionary Filter is a name, V, R and P are numbers, O and U (and OE, UE
    and Perms when present) are hexadecimal strings.  Nothing is memoized:
    a second call registers a second dictionary under the next number. *)
Theorem encrypt_registers_dictionary (this : PDFSecurity) (i : Uint8Array)
        (e : Encryption) (ops : list (GraphOp number)) :
  let c := graphAfter byteArrayToHexString ops in
  let c' := snd (encrypt number_of_Z byteArrayToHexString this c) in
  let c'' := snd (encrypt number_of_Z byteArrayToHexString this c') in
  let dict := obj byteArrayToHexString (Encryption_literal number_of_Z e) in
  let ref := PDFRef_of (largestObjectNumber c + 1) in
  id this = Some i -> encryption this = Some e ->
  largestObjectNumber c + 1 < 2 ^ 53 ->
  fst (encrypt number_of_Z byteArrayToHexString this c) = Ok this /\
  Encrypt (trailerInfo c') = Some (PDFRefObject ref) /\
  ID (trailerInfo c')
  = Some (PDFArray [PDFHexString (byteArrayToHexString i);
                    PDFHexString (byteArrayToHexString i)]) /\
  Root (trailerInfo c') = Root (trailerInfo c) /\
  Info (trailerInfo c') = Info (trailerInfo c) /\
  lookup c (Some (PDFRefObject ref)) [] = Returned None /\
  lookup c' (Some (PDFRefObject ref)) [typeof_PDFDict] = Returned (Some dict) /\
  (forall ref' types,
      ref' <> ref ->
      lookup c' (Some (PDFRefObject ref')) types
      = lookup c (Some (PDFRefObject ref')) types) /\
  length (indirectObjects c') = S (length (indirectObjects c)) /\
  (dictEntry dict "Filter" = Some (PDFName (Filter e)) /\
   dictEntry dict "V" = Some (PDFNumber (number_of_Z (V e))) /\
   dictEntry dict "R" = Some (PDFNumber (number_of_Z (R e))) /\
   dictEntry dict "P" = Some (PDFNumber (number_of_Z (P e))) /\
   dictEntry dict "O" = Some (PDFHexString (byteArrayToHexString (O e))) /\
   dictEntry dict "U" = Some (PDFHexString (byteArrayToHexString (U e))) /\
   dictEntry dict "OE"
   = option_map (fun b => PDFHexString (byteArrayToHexString b)) (OE e) /\
   dictEntry dict "UE"
   = option_map (fun b => PDFHexString (byteArrayToHexString b)) (UE e) /\
   dictEntry dict "Perms"
   = option_map (fun b => PDFHexString (byteArrayToHexString b)) (Perms e)) /\
  Encrypt (trailerInfo c'')
  = Some (PDFRefObject (PDFRef_of (largestObjectNumber c + 2))) /\
  lookup c'' (Some (PDFRefObject ref)) [typeof_PDFDict] = Returned (Some dict) /\
  length (indirectObjects c'') = S (S (length (indirectObjects c))).
Proof.
  intros c c' c'' dict ref Hid He Hroom.
  assert (Hs : largestObjectNumber c < 2 ^ 53) by lia.
  pose proof (graphAfter_bounded number byteArrayToHexString ops Hs) as Hb.
  fold c in Hb. destruct Hb as (Hkeys & _ & _ & Hpos).
  assert (Hs0 : - 2 ^ 53 <= largestObjectNumber c < 2 ^ 53) by lia.
  assert (Hfresh : assoc_get PDFRef_eqb (indirectObjects c) ref = None).
  { apply (assoc_get_bounded number _ (largestObjectNumber c)); [exact Hkeys|].
    subst ref. cbn [PDFRef_of objectNumber]. lia. }
  destruct (Encryption_literal_entries e)
    as (Hdict & HF & HV & HR & HP & HO & HU & _ & HOE & HUE & HPerms).
  fold dict in Hdict, HF, HV, HR, HP, HO, HU, HOE, HUE, HPerms.
  assert (Hc' : c' = set_trailerInfo_Encrypt
                       (PDFRefObject ref)
                       (snd (register dict
                               (set_trailerInfo_ID
                                  (PDFArray
                                     [PDFHexString_fromBytes byteArrayToHexString i;
                                      PDFHexString_fromBytes byteArrayToHexString i])
                                  c)))).
  { subst c'. rewrite (encrypt_run this i e c Hid He Hs0). reflexivity. }
  assert (Hmap' : indirectObjects c'
                  = assoc_set PDFRef_eqb (indirectObjects c) ref dict).
  { rewrite Hc', register_run_exact by exact Hs0. reflexivity. }
  assert (Hlarge' : largestObjectNumber c' = largestObjectNumber c + 1).
  { rewrite Hc', register_run_exact by exact Hs0. reflexivity. }
  assert (Hs1 : - 2 ^ 53 <= largestObjectNumber c' < 2 ^ 53) by lia.
  assert (Haccept : typesAccept [typeof_PDFDict] (Some dict) = true).
  { cbn [typesAccept is_typeof_PDFNull]. rewrite Hdict. reflexivity. }
  assert (Hc'' : c'' = set_trailerInfo_Encrypt
                         (PDFRefObject (PDFRef_of (largestObjectNumber c' + 1)))
                         (snd (register dict
                                 (set_trailerInfo_ID
                                    (PDFArray
                                       [PDFHexString_fromBytes byteArrayToHexString i;
                                        PDFHexString_fromBytes byteArrayToHexString i])
                                    c')))).
  { subst c''. rewrite (encrypt_run this i e c' Hid He Hs1). reflexivity. }
  assert (Hmap'' : indirectObjects c''
                   = assoc_set PDFRef_eqb (indirectObjects c')
                               (PDFRef_of (largestObjectNumber c' + 1)) dict).
  { rewrite Hc'', register_run_exact by exact Hs1. reflexivity. }
  split; [rewrite (encrypt_run this i e c Hid He Hs0); reflexivity|].
  split; [rewrite Hc', register_run_exact by exact Hs0; reflexivity|].
  split; [rewrite Hc', register_run_exact by exact Hs0; reflexivity|].
  split; [rewrite Hc', register_run_exact by exact Hs0; reflexivity|].
  split; [rewrite Hc', register_run_exact by exact Hs0; reflexivity|].
  split; [rewrite lookup_resolved, resolved_ref, Hfresh; reflexivity|].
  split.
  { rewrite lookup_resolved, resolved_ref, Hmap', assoc_get_set, PDFRef_eqb_refl.
    cbn [length Nat.eqb]. rewrite Haccept. reflexivity. }
  split.
  { intros ref' types Hne.
    rewrite !lookup_resolved, !resolved_ref, Hmap', assoc_get_set.
    rewrite PDFRef_eqb_neq by congruence. reflexivity. }
  split; [rewrite Hmap', assoc_set_length, Hfresh; reflexivity|].
  split; [repeat split; assumption|].
  split; [rewrite Hc'', register_run_exact, Hlarge' by exact Hs1;
          cbn [trailerInfo Encrypt set_trailerInfo_Encrypt]; do 3 f_equal; lia|].
  assert (Hne : PDFRef_eqb (PDFRef_of (largestObjectNumber c' + 1)) ref = false).
  { apply PDFRef_eqb_neq. rewrite Hlarge'. subst ref. intros H.
    apply (f_equal objectNumber) in H. cbn [PDFRef_of objectNumber] in H. lia. }
  split.
  { rewrite lookup_resolved, resolved_ref, Hmap'', assoc_get_set, Hne, Hmap'.
    rewrite assoc_get_set, PDFRef_eqb_refl.
    cbn [length Nat.eqb]. rewrite Haccept. reflexivity. }
  rewrite Hmap'', assoc_set_length, Hmap', assoc_get_set, assoc_set_length, Hfresh.
  assert (Hne' : PDFRef_eqb ref (PDFRef_of (largestObjectNumber c' + 1)) = false).
  { apply PDFRef_eqb_neq. rewrite Hlarge'. subst ref. intros H.
    apply (f_equal objectNumber) in H. cbn [PDFRef_of objectNumber] in H. lia. }
  rewrite Hne'.
  rewrite (assoc_get_bounded number _ (largestObjectNumber c)); [reflexivity|exact Hkeys|].
  rewrite Hlarge'. cbn [PDFRef_of objectNumber]. lia.
Qed.

End EncryptProperties.

(* ================================================================== *)
(** * Further properties: the security handler *)
(* ================================================================== *)

Section HandlerFurtherProperties.

Variable MD5 : WordArray -> WordArray.
Variable SHA256 : WordArray -> WordArray.
Variable RC4_encrypt : WordArray -> WordArray -> WordArray.
Variable AES_encrypt : WordArray -> WordArray -> CipherOptions -> WordArray.

Local Abbreviation create :=
  (PDFSecurity_create MD5 SHA256 RC4_encrypt AES_encrypt).

(** ** Passwords that are left out *)

Lemma legacyDerivation_owner_default (v : Z) (owner : option JS.jsstring)
      (ch : Z) (rest : JS.jsstring) (perms : option UserPermissions)
      (fileId : Uint8Array) :
  JS.truthy_string owner = false ->
  legacyDerivation MD5 RC4_encrypt v
                   (mkSecurityOptions owner (Some (ch :: rest)) perms) fileId
  = legacyDerivation MD5 RC4_encrypt v
                     (mkSecurityOptions (Some (ch :: rest)) (Some (ch :: rest)) perms)
                     fileId.
Proof.
  intros Hown. unfold legacyDerivation.
  cbn [ownerPassword userPassword permissions]. rewrite Hown.
  cbn [JS.truthy_string].
  destruct (processPasswordR2R3R4 (Some (ch :: rest))); reflexivity.
Qed.

Lemma initializeV5_owner_default (owner : option JS.jsstring)
      (ch : Z) (rest : JS.jsstring) (perms : option UserPermissions) (s : Self) :
  JS.truthy_string owner = false ->
  initializeV5 SHA256 AES_encrypt
               (mkSecurityOptions owner (Some (ch :: rest)) perms) s
  = initializeV5 SHA256 AES_encrypt
                 (mkSecurityOptions (Some (ch :: rest)) (Some (ch :: rest)) perms) s.
Proof.
  intros Hown. unfold initializeV5.
  cbn [ownerPassword userPassword permissions]. rewrite Hown.
  cbn [JS.truthy_string]. reflexivity.
Qed.

Lemma legacyDerivation_user_default (v : Z) (owner : option JS.jsstring)
      (perms : option UserPermissions) (fileId : Uint8Array) :
  legacyDerivation MD5 RC4_encrypt v (mkSecurityOptions owner None perms) fileId
  = legacyDerivation MD5 RC4_encrypt v (mkSecurityOptions owner (Some []) perms)
                     fileId.
Proof. reflexivity. Qed.

(** X16.  Leaving the owner password out, or giving the empty string for
    it, is the same as giving the user password for both, and leaving the
    user password out is the same as giving the empty string for it: the
    constructor returns the same handler (or the same error) and leaves
    the same world, on the legacy paths and on the revision-5 path. *)
Theorem passwords_left_out (header : PDFHeader)
        (ch : Z) (rest : JS.jsstring) (perms : option UserPermissions) (w : World) :
  let password := ch :: rest in
  create header (mkSecurityOptions None (Some password) perms) w
  = create header (mkSecurityOptions (Some password) (Some password) perms) w /\
  create header (mkSecurityOptions (Some []) (Some password) perms) w
  = create header (mkSecurityOptions (Some password) (Some password) perms) w /\
  create header (mkSecurityOptions (Some password) None perms) w
  = create header (mkSecurityOptions (Some password) (Some []) perms) w.
Proof.
  intros password.
  assert (H : forall owner,
             JS.truthy_string owner = false ->
             create header (mkSecurityOptions owner (Some password) perms) w
             = create header
                      (mkSecurityOptions (Some password) (Some password) perms) w).
  { intros owner Hown.
    destruct (Z.eq_dec (algorithmFor (getVersionString header)) 5) as [Hv|Hv].
    - rewrite !create_unfold, !initialize_unfold. cbv zeta.
      unfold passwordSupplied. cbn [ownerPassword userPassword].
      rewrite Hown. subst password. cbn [JS.truthy_string orb].
      rewrite Hv. cbn [Z.eqb Pos.eqb orb]. unfold bind.
      rewrite (initializeV5_owner_default owner ch rest perms _ Hown).
      reflexivity.
    - rewrite !create_legacy; try exact Hv.
      + subst password.
        rewrite (legacyDerivation_owner_default _ owner) by exact Hown.
        reflexivity.
      + reflexivity.
      + unfold passwordSupplied. cbn [ownerPassword userPassword].
        subst password. cbn [JS.truthy_string]. apply orb_true_r. }
  split; [apply H; reflexivity|]. split; [apply H; reflexivity|].
  destruct (Z.eq_dec (algorithmFor (getVersionString header)) 5) as [Hv|Hv].
  - rewrite !create_unfold, !initialize_unfold. reflexivity.
  - rewrite !create_legacy; try exact Hv; try reflexivity.
Qed.

(** ** What the constructor sets, by algorithm *)

Lemma getEncryptionKeyR2R3R4_sigBytes (r keyBits : Z) (documentId : Uint8Array)
      (paddedUserPassword ownerPasswordEntry : WordArray) (permissions : Z) :
  sigBytes (getEncryptionKeyR2R3R4 MD5 r keyBits documentId paddedUserPassword
                                   ownerPasswordEntry permissions)
  = Z.to_nat (keyBits / 8).
Proof.
  unfold getEncryptionKeyR2R3R4.
  destruct (r >=? 3).
  - change 51%nat with (S 50). rewrite seq_S, fold_left_app. reflexivity.
  - reflexivity.
Qed.

Lemma legacyDerivation_Ok (v : Z) (options : SecurityOptions)
      (fileId : Uint8Array) (e : Encryption) (key : WordArray) :
  legacyDerivation MD5 RC4_encrypt v options fileId = Ok (e, key) ->
  exists pu po u,
    processPasswordR2R3R4 (userPassword options) = Ok pu /\
    processPasswordR2R3R4 (effectiveOwnerPassword options) = Ok po /\
    (if revisionFor v =? 2 then getUserPasswordR2 RC4_encrypt key
     else getUserPasswordR3R4 MD5 RC4_encrypt fileId key) = Ok u /\
    let perms := if v =? 1 then getPermissionsR2 (permissions options)
                 else getPermissionsR3 (permissions options) in
    let o := getOwnerPasswordR2R3R4 MD5 RC4_encrypt (revisionFor v) (keyBitsFor v)
                                    pu po in
    key = getEncryptionKeyR2R3R4 MD5 (revisionFor v) (keyBitsFor v) fileId pu o perms /\
    e = mkEncryption v (revisionFor v) (wordArrayToBuffer o) (wordArrayToBuffer u)
                     perms (JS.lit "Standard")
                     (if v >=? 2 then Some (keyBitsFor v) else None)
                     (if v =? 4
                      then Some (mkStdCF (JS.lit "DocOpen") AESV2 (keyBitsFor v / 8))
                      else None)
                     (if v =? 4 then Some (JS.lit "StdCF") else None)
                     (if v =? 4 then Some (JS.lit "StdCF") else None)
                     None None None.
Proof.
  unfold legacyDerivation, effectiveOwnerPassword.
  destruct (processPasswordR2R3R4 (userPassword options)) as [pu|] eqn:Hpu;
    [|discriminate].
  destruct (JS.truthy_string (ownerPassword options)) eqn:Hown.
  - destruct (processPasswordR2R3R4 (ownerPassword options)) as [po|] eqn:Hpo;
      [|discriminate].
    cbv zeta.
    destruct (if revisionFor v =? 2 then _ else _) as [u|] eqn:Hu; [|discriminate].
    intros H. inversion H. subst. exists pu, po, u. repeat split; assumption.
  - cbv zeta.
    destruct (if revisionFor v =? 2 then _ else _) as [u|] eqn:Hu; [|discriminate].
    intros H. inversion H. subst. exists pu, pu, u. repeat split; assumption.
Qed.

(** One run of [initializeV5]: it computes [derivationR5] and draws the
    six random word arrays. *)
Lemma initializeV5_explicit (options : SecurityOptions) (t : PDFSecurity) (w : World) :
  initializeV5 SHA256 AES_encrypt options (t, w)
  = (Ok (derivationR5 SHA256 AES_encrypt options w),
     (mkPDFSecurity (context_header t) (id t) (encryption t) (Some 256)
                    (Some (fileKeyR5 w)),
      afterV5 w)).
Proof.
  unfold initializeV5, derivationR5, userEntryR5, ownerEntryR5,
    effectiveOwnerPassword. cbv zeta. run_handler.
  rewrite !random_run. run_handler. rewrite !random_run. run_handler.
  unfold getUserEncryptionKeyR5, getOwnerEncryptionKeyR5, WordArray.clone,
    keyWrapOptions, fileKeyR5, userValidationSalt, userKeySalt,
    ownerValidationSalt, ownerKeySalt, permissionsFill.
  destruct (JS.truthy_string (ownerPassword options)); reflexivity.
Qed.

Lemma create_V5_explicit (header : PDFHeader) (options : SecurityOptions) (w : World) :
  passwordSupplied options = true ->
  algorithmFor (getVersionString header) = 5 ->
  create header options w
  = (Ok (mkPDFSecurity header (Some (fileIdAt MD5 w))
                       (Some (derivationR5 SHA256 AES_encrypt options w))
                       (Some 256) (Some (fileKeyR5 w))),
     afterV5 w).
Proof.
  intros Hpw Hv. rewrite create_unfold, Hpw, initialize_unfold. cbv zeta.
  rewrite Hv. cbn [Z.eqb Pos.eqb orb]. unfold bind.
  rewrite initializeV5_explicit. reflexivity.
Qed.

(** X17.  What a constructed handler holds, by the algorithm the format
    version selects (1.4 and 1.5 give 2; 1.6 and 1.7 give 4; 1.7ext3 gives 5;
    every other version string gives 1).  V, R and the key length are (1, 2,
    40), (2, 3, 128), (4, 4, 128) or (5, 5, 256); the encryption key has
    exactly that many bits; Filter is "Standard"; Length is present from V = 2
    on; the crypt filter is present for V = 4 (AESV2, 16 bytes) and V = 5
    (AESV3, 32 bytes) together with StmF and StrF; P is the revision-2 mask for
    V = 1 and the revision-3 mask otherwise; OE, UE and Perms are present
    for V = 5 only. *)
Theorem constructed_handler_parameters (header : PDFHeader)
        (options : SecurityOptions) (w : World) :
  let v := algorithmFor (getVersionString header) in
  match fst (create header options w) with
  | Ok h =>
      exists e key bits,
        encryption h = Some e /\ encryptionKey h = Some key /\
        keyBits h = Some bits /\
        (V e, R e, bits)
        = (if v =? 1 then (1, 2, 40) else if v =? 2 then (2, 3, 128)
           else if v =? 4 then (4, 4, 128) else (5, 5, 256)) /\
        length (wordArrayToBuffer key) = Z.to_nat (bits / 8) /\
        Filter e = JS.lit "Standard" /\
        Length e = (if v =? 1 then None else Some bits) /\
        CF e = (if v =? 4 then Some (mkStdCF (JS.lit "DocOpen") AESV2 16)
                else if v =? 5 then Some (mkStdCF (JS.lit "DocOpen") AESV3 32)
                else None) /\
        StmF e = (if (v =? 4) || (v =? 5) then Some (JS.lit "StdCF") else None) /\
        StrF e = StmF e /\
        P e = (if v =? 1 then getPermissionsR2 (permissions options)
               else getPermissionsR3 (permissions options)) /\
        (OE e <> None <-> v = 5) /\ (UE e <> None <-> v = 5) /\
        (Perms e <> None <-> v = 5)
  | Throw _ => True
  end.
Proof.
  intros v.
  destruct (passwordSupplied options) eqn:Hpw;
    [|rewrite create_unfold, Hpw; exact I].
  destruct (Z.eq_dec v 5) as [Hv|Hv].
  - rewrite (create_V5_explicit header options w Hpw Hv). cbn [fst].
    exists (derivationR5 SHA256 AES_encrypt options w), (fileKeyR5 w), 256.
    rewrite Hv. cbn [encryption encryptionKey keyBits].
    unfold derivationR5. cbv zeta. cbn [V R Filter Length CF StmF StrF P OE UE Perms].
    repeat split; try reflexivity; try discriminate.
  - rewrite (create_legacy MD5 SHA256 RC4_encrypt AES_encrypt header options w Hpw Hv).
    cbn [fst]. fold v.
    destruct (legacyDerivation MD5 RC4_encrypt v options (fileIdAt MD5 w))
      as [[e key]|err] eqn:Hd; [|exact I].
    apply legacyDerivation_Ok in Hd.
    destruct Hd as (pu & po & u & _ & _ & _ & Hkey & He).
    exists e, key, (keyBitsFor v).
    cbn [encryption encryptionKey keyBits].
    assert (Hlen : length (wordArrayToBuffer key) = Z.to_nat (keyBitsFor v / 8)).
    { rewrite wordArrayToBuffer_length, Hkey.
      apply getEncryptionKeyR2R3R4_sigBytes. }
    rewrite He. cbn [V R Filter Length CF StmF StrF P OE UE Perms].
    destruct (algorithmFor_cases (getVersionString header)) as [H|[H|[H|H]]];
      fold v in H; try contradiction; rewrite H in *;
      repeat split; try reflexivity; try exact Hlen;
      try (intros; discriminate); try (intros Hc; exfalso; apply Hc; reflexivity).
Qed.

(** ** Sizes on the legacy paths *)

Lemma RC4_rounds_sigBytes {A} (nextKey : WordArray -> A -> WordArray)
      (rounds : list A) (key cipher : WordArray) :
  RC4_keeps_size RC4_encrypt ->
  sigBytes (snd (fold_left
                   (fun kc i =>
                      let key := nextKey (fst kc) i in
                      (key, RC4_encrypt (snd kc) key))
                   rounds (key, cipher)))
  = sigBytes cipher.
Proof.
  intros Hrc4. revert key cipher.
  induction rounds as [|i rest IH]; intros key cipher; [reflexivity|].
  cbn [fold_left fst snd]. rewrite IH. apply Hrc4.
Qed.

Lemma getOwnerPasswordR2R3R4_sigBytes (r keyBits : Z)
      (paddedUserPassword paddedOwnerPassword : WordArray) :
  RC4_keeps_size RC4_encrypt ->
  sigBytes (getOwnerPasswordR2R3R4 MD5 RC4_encrypt r keyBits
                                   paddedUserPassword paddedOwnerPassword)
  = sigBytes paddedUserPassword.
Proof.
  intros Hrc4. unfold getOwnerPasswordR2R3R4. cbv zeta.
  match goal with
  | |- sigBytes (let '(_, _) := ?f in _) = _ =>
      replace (let '(_, cipher) := f in cipher) with (snd f)
        by (destruct f; reflexivity)
  end.
  apply (RC4_rounds_sigBytes
           (fun key i => xorKeyWords key _ (Z.of_nat i))), Hrc4.
Qed.

Lemma getUserPasswordR3R4_bytes (documentId : Uint8Array) (key : WordArray) :
  MD5_digest_size MD5 -> RC4_keeps_size RC4_encrypt ->
  exists cipher,
    getUserPasswordR3R4 MD5 RC4_encrypt documentId key
    = Ok (WordArray.concat cipher (WordArray.create [] 16)) /\
    sigBytes cipher = 16%nat.
Proof.
  intros Hmd5 Hrc4. unfold getUserPasswordR3R4.
  rewrite processPasswordR2R3R4_default. cbv zeta.
  match goal with
  | |- exists _, (let '(_, _) := ?f in _) = _ /\ _ =>
      exists (snd f); split; [destruct f; reflexivity|]
  end.
  rewrite (RC4_rounds_sigBytes
             (fun k i => xorKeyWords k key (Z.of_nat i))) by exact Hrc4.
  apply Hmd5.
Qed.

(** X18.  With an MD5 of 16 bytes and an RC4 that returns as many bytes as
    it is given, the file identifier of every constructed handler has 16
    bytes, and on the legacy paths the O and U entries have 32 bytes each;
    from revision 3 on the last 16 bytes of U are zero, the padding that
    [WordArray.create(null, 16)] appends. *)
Theorem legacy_dictionary_sizes (header : PDFHeader) (options : SecurityOptions)
        (w : World) :
  MD5_digest_size MD5 -> RC4_keeps_size RC4_encrypt ->
  match fst (create header options w) with
  | Ok h =>
      exists e fileId,
        encryption h = Some e /\ id h = Some fileId /\
        length fileId = 16%nat /\
        (V e <> 5 ->
         length (O e) = 32%nat /\ length (U e) = 32%nat /\
         (3 <= R e -> skipn 16 (U e) = repeat 0 16))
  | Throw _ => True
  end.
Proof.
  intros Hmd5 Hrc4.
  assert (Hid : length (fileIdAt MD5 w) = 16%nat).
  { unfold fileIdAt. rewrite wordArrayToBuffer_length. apply Hmd5. }
  destruct (passwordSupplied options) eqn:Hpw;
    [|rewrite create_unfold, Hpw; exact I].
  destruct (Z.eq_dec (algorithmFor (getVersionString header)) 5) as [Hv|Hv].
  - rewrite (create_V5_explicit header options w Hpw Hv). cbn [fst].
    eexists. eexists. cbn [encryption id].
    split; [reflexivity|]. split; [reflexivity|]. split; [exact Hid|].
    intros H. exfalso. apply H. reflexivity.
  - rewrite (create_legacy MD5 SHA256 RC4_encrypt AES_encrypt header options w Hpw Hv).
    cbn [fst]. set (v := algorithmFor (getVersionString header)) in *.
    destruct (legacyDerivation MD5 RC4_encrypt v options (fileIdAt MD5 w))
      as [[e key]|err] eqn:Hd; [|exact I].
    apply legacyDerivation_Ok in Hd.
    destruct Hd as (pu & po & u & Hpu & Hpo & Hu & Hkey & He).
    exists e, (fileIdAt MD5 w). cbn [encryption id].
    split; [reflexivity|]. split; [reflexivity|]. split; [exact Hid|].
    intros _. rewrite He. cbn [O U R].
    assert (Hpu32 : sigBytes pu = 32%nat).
    { destruct (processPasswordR2R3R4_result (userPassword options))
        as [(p & Hp & Hs)|Hp]; rewrite Hp in Hpu; inversion Hpu; subst; exact Hs. }
    split; [|split].
    + rewrite wordArrayToBuffer_length, getOwnerPasswordR2R3R4_sigBytes by exact Hrc4.
      exact Hpu32.
    + destruct (revisionFor v =? 2).
      * rewrite getUserPasswordR2_run in Hu. inversion Hu.
        rewrite wordArrayToBuffer_length, Hrc4, ofUint8Array_sigBytes.
        reflexivity.
      * destruct (getUserPasswordR3R4_bytes (fileIdAt MD5 w) key Hmd5 Hrc4)
          as (cipher & Hrun & Hc).
        rewrite Hrun in Hu. inversion Hu.
        rewrite wordArrayToBuffer_length, concat_sigBytes, Hc. reflexivity.
    + intros HR.
      assert (Hrev : (revisionFor v =? 2) = false).
      { destruct (Z.eqb_spec (revisionFor v) 2); [lia|reflexivity]. }
      rewrite Hrev in Hu.
      destruct (getUserPasswordR3R4_bytes (fileIdAt MD5 w) key Hmd5 Hrc4)
        as (cipher & Hrun & Hc).
      rewrite Hrun in Hu. inversion Hu.
      rewrite wordArrayToBuffer_concat_app.
      rewrite skipn_app, wordArrayToBuffer_length, Hc.
      rewrite skipn_all2 by (rewrite wordArrayToBuffer_length; lia).
      change (16 - 16)%nat with 0%nat. rewrite skipn_O, app_nil_l.
      apply wordArrayToBuffer_create_nil.
Qed.

(** ** The closure of an object *)

Lemma getEncryptFn_RC4_run (this : PDFSecurity) (e : Encryption) (key : WordArray)
      (bits obj gen : Z) (w : World) :
  encryption this = Some e -> V e = 1 \/ V e = 2 ->
  encryptionKey this = Some key -> keyBits this = Some bits ->
  getEncryptFn MD5 RC4_encrypt AES_encrypt obj gen (this, w)
  = (Ok (rc4Closure RC4_encrypt (rc4Key MD5 bits key obj gen)), (this, w)).
Proof.
  intros He Hv Hk Hb. unfold getEncryptFn, rc4Closure, rc4Key, objectDigest.
  run_handler. rewrite He. run_handler.
  destruct Hv as [Hv|Hv]; rewrite !Hv;
    cbn [Z.eqb Pos.eqb Z.ltb Z.compare Pos.compare Pos.compare_cont orb];
    run_handler; rewrite ?Hk; run_handler; rewrite ?Hb; reflexivity.
Qed.

(** X19.  On the paths V = 1 and V = 2 (every format version other than
    1.6, 1.7 and 1.7ext3), [getEncryptFn] of a constructed handler succeeds
    for every object number and generation, reads no randomness and leaves
    the world as it is.  The closure is RC4 under the MD5 digest of the file
    key and the object's five bytes, cut to 10 bytes for V = 1 and to 16
    bytes for V = 2; it never fails, two invocations on one buffer give the
    same bytes, and with an RC4 that returns as many bytes as it is given
    the output is as long as the buffer. *)
Theorem getEncryptFn_RC4_closure (header : PDFHeader) (options : SecurityOptions)
        (w w' : World) (obj gen : Z) :
  let v := algorithmFor (getVersionString header) in
  v = 1 \/ v = 2 ->
  match fst (create header options w) with
  | Ok h =>
      exists key,
        encryptionKey h = Some key /\
        getEncryptFn MD5 RC4_encrypt AES_encrypt obj gen (h, w')
        = (Ok (rc4Closure RC4_encrypt (rc4Key MD5 (keyBitsFor v) key obj gen)),
           (h, w')) /\
        sigBytes (rc4Key MD5 (keyBitsFor v) key obj gen)
        = (if v =? 1 then 10%nat else 16%nat) /\
        forall (buffer : Uint8Array) (w1 w2 : World),
          rc4Closure RC4_encrypt (rc4Key MD5 (keyBitsFor v) key obj gen) buffer w1
          = (Ok (wordArrayToBuffer
                   (RC4_encrypt (WordArray.ofUint8Array buffer)
                                (rc4Key MD5 (keyBitsFor v) key obj gen))), w1) /\
          fst (rc4Closure RC4_encrypt (rc4Key MD5 (keyBitsFor v) key obj gen) buffer w1)
          = fst (rc4Closure RC4_encrypt (rc4Key MD5 (keyBitsFor v) key obj gen) buffer w2) /\
          (RC4_keeps_size RC4_encrypt ->
           length (wordArrayToBuffer
                     (RC4_encrypt (WordArray.ofUint8Array buffer)
                                  (rc4Key MD5 (keyBitsFor v) key obj gen)))
           = length buffer)
  | Throw _ => True
  end.
Proof.
  intros v Hv12.
  destruct (passwordSupplied options) eqn:Hpw;
    [|rewrite create_unfold, Hpw; exact I].
  destruct (Z.eq_dec v 5) as [Hv|Hv].
  - destruct (create_V5 MD5 SHA256 RC4_encrypt AES_encrypt header options w Hpw Hv)
      as (e & key & Hrun & _).
    exfalso. destruct Hv12 as [H|H]; lia.
  - rewrite (create_legacy MD5 SHA256 RC4_encrypt AES_encrypt header options w Hpw Hv).
    cbn [fst]. fold v.
    destruct (legacyDerivation MD5 RC4_encrypt v options (fileIdAt MD5 w))
      as [[e key]|err] eqn:Hd; [|exact I].
    apply legacyDerivation_Ok in Hd.
    destruct Hd as (pu & po & u & _ & _ & _ & _ & He).
    exists key. split; [reflexivity|]. split; [|split].
    + apply (getEncryptFn_RC4_run _ e); try reflexivity.
      rewrite He. exact Hv12.
    + unfold rc4Key. cbn [sigBytes WordArray.withSigBytes].
      destruct Hv12 as [->| ->]; reflexivity.
    + intros buffer w1 w2. split; [reflexivity|]. split; [reflexivity|].
      intros Hrc4. rewrite wordArrayToBuffer_length, Hrc4, ofUint8Array_sigBytes.
      reflexivity.
Qed.

(** X20.  [getEncryptFn] of a constructed handler never fails, whatever
    the object number and the generation are: the error for an unsupported
    algorithm cannot be reached from a constructor run.  It leaves the
    handler as it is, draws sixteen random bytes on the AES paths (V = 4
    and V = 5) and none on the RC4 paths, and the closure it returns never
    fails and never touches the world. *)
Theorem getEncryptFn_total (header : PDFHeader) (options : SecurityOptions)
        (w w' : World) (obj gen : Z) :
  let v := algorithmFor (getVersionString header) in
  match fst (create header options w) with
  | Ok h =>
      exists fn,
        getEncryptFn MD5 RC4_encrypt AES_encrypt obj gen (h, w')
        = (Ok fn, (h, if (v =? 4) || (v =? 5) then afterDraw 16 w' else w')) /\
        forall (buffer : Uint8Array) (w1 : World),
          exists out, fn buffer w1 = (Ok out, w1)
  | Throw _ => True
  end.
Proof.
  intros v.
  destruct (passwordSupplied options) eqn:Hpw;
    [|rewrite create_unfold, Hpw; exact I].
  destruct (Z.eq_dec v 5) as [Hv|Hv].
  - destruct (create_V5 MD5 SHA256 RC4_encrypt AES_encrypt header options w Hpw Hv)
      as (e & key & Hrun & _ & HV & _).
    rewrite Hrun. cbn [fst]. rewrite Hv. cbn [Z.eqb Pos.eqb orb].
    eexists. split.
    + rewrite (getEncryptFn_AES_run MD5 RC4_encrypt AES_encrypt _ e key obj gen w');
        [reflexivity|reflexivity|now right|reflexivity].
    + intros buffer w1. eexists. reflexivity.
  - rewrite (create_legacy MD5 SHA256 RC4_encrypt AES_encrypt header options w Hpw Hv).
    cbn [fst]. fold v.
    destruct (legacyDerivation MD5 RC4_encrypt v options (fileIdAt MD5 w))
      as [[e key]|err] eqn:Hd; [|exact I].
    apply legacyDerivation_Ok in Hd.
    destruct Hd as (pu & po & u & _ & _ & _ & _ & He).
    assert (HV : V e = v) by (rewrite He; reflexivity).
    destruct (algorithmFor_cases (getVersionString header)) as [H|[H|[H|H]]];
      fold v in H; try contradiction; rewrite H in *;
      cbn [Z.eqb Pos.eqb orb]; eexists; (split; [|intros buffer w1; eexists; reflexivity]).
    + apply (getEncryptFn_RC4_run _ e key 40); auto.
    + apply (getEncryptFn_RC4_run _ e key 128); auto.
    + rewrite (getEncryptFn_AES_run MD5 RC4_encrypt AES_encrypt _ e key obj gen w');
        [reflexivity|reflexivity|now left|reflexivity].
Qed.

(** X21.  Of the object number only the low three bytes, and of the
    generation only the low two bytes, reach the key of an object: object
    numbers that differ by a multiple of 2^24 and generations that differ
    by a multiple of 2^16 give the same result of [getEncryptFn], for any
    handler.  The bytes appended to the file key are the three bytes of
    the object number, low byte first, then the two of the generation. *)
Theorem getEncryptFn_low_bytes (this : PDFSecurity) (w : World)
        (obj gen k j : Z) (key : WordArray) :
  getEncryptFn MD5 RC4_encrypt AES_encrypt (obj + k * 2 ^ 24) (gen + j * 2 ^ 16)
               (this, w)
  = getEncryptFn MD5 RC4_encrypt AES_encrypt obj gen (this, w) /\
  wordArrayToBuffer (objectDigest key obj gen)
  = wordArrayToBuffer key
    ++ [byteOf 0 obj; byteOf 1 obj; byteOf 2 obj; byteOf 0 gen; byteOf 1 gen].
Proof.
  split.
  - unfold getEncryptFn.
    rewrite (objectWord_low (obj + k * 2 ^ 24) (gen + j * 2 ^ 16) obj gen)
      by (apply Z.mod_add; lia).
    rewrite (generationWord_low (gen + j * 2 ^ 16) gen) by (apply Z.mod_add; lia).
    reflexivity.
  - unfold objectDigest, WordArray.clone.
    rewrite wordArrayToBuffer_concat_app. f_equal.
    rewrite wordArrayToBuffer_byteAt. unfold byteAt.
    cbn [WordArray.create words sigBytes seq map].
    change (Nat.div 0 4) with 0%nat. change (Nat.div 1 4) with 0%nat.
    change (Nat.div 2 4) with 0%nat. change (Nat.div 3 4) with 0%nat.
    change (Nat.div 4 4) with 1%nat.
    change (Nat.modulo 0 4) with 0%nat. change (Nat.modulo 1 4) with 1%nat.
    change (Nat.modulo 2 4) with 2%nat. change (Nat.modulo 3 4) with 3%nat.
    change (Nat.modulo 4 4) with 0%nat.
    cbn [WordArray.getWord nth].
    rewrite !byteOf_objectWord, byteOf_generationWord by lia.
    reflexivity.
Qed.

(** ** The entries of revision 5 *)

Lemma getWord_slice (ws : list Z) (from to k : nat) :
  WordArray.getWord (WordArray.slice ws from to) k
  = if (k <? to - from)%nat then WordArray.getWord ws (from + k) else 0.
Proof.
  unfold WordArray.getWord, WordArray.slice.
  rewrite nth_firstn. destruct (k <? to - from)%nat; [|reflexivity].
  apply nth_skipn.
Qed.

(** The two words [words.slice(10, 12)] of an entry of 48 bytes are its
    last eight bytes. *)
Lemma wordArrayToBuffer_slice_tail (entry : WordArray) :
  sigBytes entry = 48%nat ->
  wordArrayToBuffer (WordArray.create (WordArray.slice (words entry) 10 12) 8)
  = skipn 40 (wordArrayToBuffer entry).
Proof.
  intros Hs. rewrite !wordArrayToBuffer_byteAt, Hs.
  cbn [WordArray.create words sigBytes].
  change (seq 0 48) with (seq 0 40 ++ seq 40 8).
  rewrite map_app, skipn_app, length_map, length_seq.
  rewrite skipn_all2 by (rewrite length_map, length_seq; lia).
  change (40 - 40)%nat with 0%nat. rewrite skipn_O, app_nil_l.
  rewrite (map_seq_from _ 40 8). apply map_ext_in. intros i Hi.
  apply in_seq in Hi. unfold byteAt. rewrite getWord_slice.
  destruct (Nat.ltb_spec (Nat.div i 4) (12 - 10)); [|divmod4].
  f_equal; [f_equal; f_equal; divmod4|f_equal; divmod4].
Qed.

Lemma entryR5_bytes (digest validationSalt keySalt : WordArray) :
  sigBytes digest = 32%nat -> sigBytes validationSalt = 8%nat ->
  sigBytes keySalt = 8%nat ->
  let entry := WordArray.concat (WordArray.concat digest validationSalt) keySalt in
  sigBytes entry = 48%nat /\
  firstn 32 (wordArrayToBuffer entry) = wordArrayToBuffer digest /\
  firstn 8 (skipn 32 (wordArrayToBuffer entry)) = wordArrayToBuffer validationSalt /\
  skipn 40 (wordArrayToBuffer entry) = wordArrayToBuffer keySalt.
Proof.
  intros Hd Hv Hk entry. subst entry.
  rewrite !wordArrayToBuffer_concat_app, !concat_sigBytes, Hd, Hv, Hk.
  pose proof (wordArrayToBuffer_length digest) as Ld. rewrite Hd in Ld.
  pose proof (wordArrayToBuffer_length validationSalt) as Lv. rewrite Hv in Lv.
  split; [reflexivity|]. split; [|split].
  - rewrite <- app_assoc, firstn_app, Ld.
    change (32 - 32)%nat with 0%nat. rewrite firstn_O, app_nil_r.
    apply firstn_all2. lia.
  - rewrite <- app_assoc, skipn_app, Ld.
    change (32 - 32)%nat with 0%nat. rewrite skipn_O.
    rewrite skipn_all2 by lia. rewrite app_nil_l.
    rewrite firstn_app, Lv.
    change (8 - 8)%nat with 0%nat. rewrite firstn_O, app_nil_r.
    apply firstn_all2. lia.
  - rewrite skipn_app, length_app, Ld, Lv.
    change (40 - (32 + 8))%nat with 0%nat. rewrite skipn_O.
    rewrite skipn_all2 by (rewrite length_app; lia). reflexivity.
Qed.

Lemma drawnWords_sigBytes (n : nat) (w : World) : sigBytes (drawnWords n w) = n.
Proof. reflexivity. Qed.

(** X22.  On the revision-5 path, with a SHA-256 of 32 bytes, the entries
    of the dictionary check against the passwords as a reader checks
    them.  U is the digest of the user password followed by bytes 32 to 39
    of U, then these eight bytes (the validation salt), then eight more
    (the key salt); UE is the file key under AES-CBC without padding, with
    a zero initialization vector and the digest of the user password
    followed by bytes 40 to 47 of U for its key.  O and OE are made in the
    same way from the owner password, with the whole of U appended to what
    is digested.  The four salts are the random bytes drawn after the 32
    bytes of the file key, in the order in which they appear in U and O. *)
Theorem revision5_entries_validate (options : SecurityOptions) (w : World) :
  SHA256_digest_size SHA256 -> passwordSupplied options = true ->
  exists h e ue oe,
    fst (create (mkPDFHeader (JS.lit "1.7ext3")) options w) = Ok h /\
    encryption h = Some e /\ UE e = Some ue /\ OE e = Some oe /\
    encryptionKey h = Some (fileKeyR5 w) /\
    let user := wordArrayToBuffer (processPasswordR5 (userPassword options)) in
    let owner :=
      wordArrayToBuffer (processPasswordR5 (effectiveOwnerPassword options)) in
    (exists m, wordArrayToBuffer m = user ++ firstn 8 (skipn 32 (U e)) /\
               firstn 32 (U e) = wordArrayToBuffer (SHA256 m)) /\
    (exists m, wordArrayToBuffer m = user ++ skipn 40 (U e) /\
               ue = wordArrayToBuffer
                      (AES_encrypt (fileKeyR5 w) (SHA256 m) keyWrapOptions)) /\
    (exists m, wordArrayToBuffer m = owner ++ firstn 8 (skipn 32 (O e)) ++ U e /\
               firstn 32 (O e) = wordArrayToBuffer (SHA256 m)) /\
    (exists m, wordArrayToBuffer m = owner ++ skipn 40 (O e) ++ U e /\
               oe = wordArrayToBuffer
                      (AES_encrypt (fileKeyR5 w) (SHA256 m) keyWrapOptions)) /\
    skipn 32 (U e)
    = wordArrayToBuffer (userValidationSalt w) ++ wordArrayToBuffer (userKeySalt w) /\
    skipn 32 (O e)
    = wordArrayToBuffer (ownerValidationSalt w)
      ++ wordArrayToBuffer (ownerKeySalt w).
Proof.
  intros Hsha Hpw.
  rewrite (create_V5_explicit (mkPDFHeader (JS.lit "1.7ext3")) options w Hpw eq_refl).
  cbn [fst]. eexists. eexists. eexists. eexists.
  cbn [encryption encryptionKey].
  split; [reflexivity|]. split; [reflexivity|].
  unfold derivationR5. cbv zeta. cbn [U O UE OE].
  split; [reflexivity|]. split; [reflexivity|]. split; [reflexivity|].
  set (user := processPasswordR5 (userPassword options)).
  set (owner := processPasswordR5 (effectiveOwnerPassword options)).
  set (u := userEntryR5 SHA256 options w).
  set (o := ownerEntryR5 SHA256 options w).
  destruct (entryR5_bytes
              (SHA256 (WordArray.concat user (userValidationSalt w)))
              (userValidationSalt w) (userKeySalt w)
              (Hsha _) eq_refl eq_refl) as (Hu48 & Hu32 & Hu8 & Hu40).
  destruct (entryR5_bytes
              (SHA256 (WordArray.concat
                         (WordArray.concat owner (ownerValidationSalt w)) u))
              (ownerValidationSalt w) (ownerKeySalt w)
              (Hsha _) eq_refl eq_refl) as (Ho48 & Ho32 & Ho8 & Ho40).
  cbv zeta in Hu48, Hu32, Hu8, Hu40, Ho48, Ho32, Ho8, Ho40.
  change (WordArray.concat
            (WordArray.concat (SHA256 (WordArray.concat user (userValidationSalt w)))
                              (userValidationSalt w)) (userKeySalt w))
    with u in Hu48, Hu32, Hu8, Hu40.
  change (WordArray.concat
            (WordArray.concat
               (SHA256 (WordArray.concat
                          (WordArray.concat owner (ownerValidationSalt w)) u))
               (ownerValidationSalt w)) (ownerKeySalt w))
    with o in Ho48, Ho32, Ho8, Ho40.
  cbv zeta. split; [|split; [|split; [|split; [|split]]]].
  - exists (WordArray.concat user (userValidationSalt w)).
    rewrite wordArrayToBuffer_concat_app, Hu8, Hu32. split; reflexivity.
  - exists (WordArray.concat user
              (WordArray.create (WordArray.slice (words u) 10 12) 8)).
    rewrite wordArrayToBuffer_concat_app, wordArrayToBuffer_slice_tail by exact Hu48.
    split; reflexivity.
  - exists (WordArray.concat (WordArray.concat owner (ownerValidationSalt w)) u).
    rewrite !wordArrayToBuffer_concat_app, Ho8, Ho32, <- app_assoc.
    split; reflexivity.
  - exists (WordArray.concat
              (WordArray.concat owner
                 (WordArray.create (WordArray.slice (words o) 10 12) 8)) u).
    rewrite !wordArrayToBuffer_concat_app, wordArrayToBuffer_slice_tail by exact Ho48.
    rewrite <- app_assoc. split; reflexivity.
  - rewrite <- Hu8, <- Hu40.
    rewrite <- (firstn_skipn 8 (skipn 32 (wordArrayToBuffer u))) at 1.
    rewrite skipn_skipn. reflexivity.
  - rewrite <- Ho8, <- Ho40.
    rewrite <- (firstn_skipn 8 (skipn 32 (wordArrayToBuffer o))) at 1.
    rewrite skipn_skipn. reflexivity.
Qed.

(** X23.  On the revision-5 path the Perms entry is one AES block, made in
    ECB mode without padding under the file key from sixteen bytes: the
    permission mask P, low byte first; four bytes 0xff; the bytes 'T', 'a',
    'd', 'b'; and four random bytes, the last the constructor draws. *)
Theorem revision5_permission_block (options : SecurityOptions) (w : World) :
  passwordSupplied options = true ->
  exists h e perms block,
    fst (create (mkPDFHeader (JS.lit "1.7ext3")) options w) = Ok h /\
    encryption h = Some e /\ Perms e = Some perms /\
    P e = getPermissionsR3 (permissions options) /\
    perms = wordArrayToBuffer
              (AES_encrypt block (fileKeyR5 w) (mkCipherOptions ECB NoPadding None)) /\
    wordArrayToBuffer block
    = bytesLSBFirst (P e) ++ [0xff; 0xff; 0xff; 0xff] ++ [0x54; 0x61; 0x64; 0x62]
      ++ wordArrayToBuffer (permissionsFill w) /\
    length (wordArrayToBuffer block) = 16%nat.
Proof.
  intros Hpw.
  rewrite (create_V5_explicit (mkPDFHeader (JS.lit "1.7ext3")) options w Hpw eq_refl).
  cbn [fst]. eexists. eexists. eexists. eexists.
  cbn [encryption].
  split; [reflexivity|]. split; [reflexivity|].
  unfold derivationR5. cbv zeta. cbn [Perms P].
  split; [reflexivity|]. split; [reflexivity|]. split; [reflexivity|].
  rewrite wordArrayToBuffer_concat_app. split.
  - rewrite app_assoc, app_assoc. f_equal. rewrite <- app_assoc.
    rewrite wordArrayToBuffer_byteAt. unfold byteAt, bytesLSBFirst.
    cbn [WordArray.create words sigBytes].
    change (seq 0 12) with (seq 0 4 ++ seq 4 8).
    rewrite map_app.
    assert (Hfixed :
              map (fun i =>
                     byteOf (3 - Z.of_nat (Nat.modulo i 4))
                            (WordArray.getWord
                               [lsbFirstWord (getPermissionsR3 (permissions options));
                                0xffffffff; 0x54616462] (Nat.div i 4)))
                  (seq 4 8)
              = [0xff; 0xff; 0xff; 0xff] ++ [0x54; 0x61; 0x64; 0x62])
      by (vm_compute; reflexivity).
    rewrite Hfixed. f_equal.
    cbn [seq map].
    change (Nat.div 0 4) with 0%nat. change (Nat.div 1 4) with 0%nat.
    change (Nat.div 2 4) with 0%nat. change (Nat.div 3 4) with 0%nat.
    change (Nat.modulo 0 4) with 0%nat. change (Nat.modulo 1 4) with 1%nat.
    change (Nat.modulo 2 4) with 2%nat. change (Nat.modulo 3 4) with 3%nat.
    cbn [WordArray.getWord nth].
    rewrite !byteOf_lsbFirstWord by lia. reflexivity.
  - rewrite length_app, !wordArrayToBuffer_length. reflexivity.
Qed.

(** ** When construction fails *)

Lemma processPasswordR2R3R4_invalid (password : option JS.jsstring) :
  processPasswordR2R3R4 password
  = if invalidPassword password then Throw InvalidPasswordCharacter
    else Ok (WordArray.ofUint8Array
               (paddedPassword (match password with Some p => p | None => [] end))).
Proof. apply processPasswordR2R3R4_value. Qed.

Lemma legacy_user_entry_Ok (v : Z) (fileId : Uint8Array) (key : WordArray) :
  exists u,
    (if revisionFor v =? 2 then getUserPasswordR2 RC4_encrypt key
     else getUserPasswordR3R4 MD5 RC4_encrypt fileId key) = Ok u.
Proof.
  destruct (revisionFor v =? 2).
  - rewrite getUserPasswordR2_run. eexists. reflexivity.
  - apply getUserPasswordR3R4_run.
Qed.

Lemma legacyDerivation_fails (v : Z) (options : SecurityOptions) (fileId : Uint8Array) :
  (exists err, legacyDerivation MD5 RC4_encrypt v options fileId = Throw err) <->
  invalidPassword (userPassword options)
  || JS.truthy_string (ownerPassword options)
     && invalidPassword (ownerPassword options) = true.
Proof.
  unfold legacyDerivation.
  rewrite (processPasswordR2R3R4_invalid (userPassword options)).
  destruct (invalidPassword (userPassword options)); cbn [orb].
  { split; [reflexivity|intros _; eexists; reflexivity]. }
  destruct (JS.truthy_string (ownerPassword options)); cbn [andb].
  - rewrite (processPasswordR2R3R4_invalid (ownerPassword options)).
    destruct (invalidPassword (ownerPassword options)).
    { split; [reflexivity|intros _; eexists; reflexivity]. }
    cbv zeta.
    match goal with
    | |- context [if revisionFor v =? 2 then getUserPasswordR2 _ ?k
                  else getUserPasswordR3R4 _ _ ?i ?k] =>
        destruct (legacy_user_entry_Ok v i k) as [u Hu]; rewrite Hu
    end.
    split; [intros [err H]; discriminate H|discriminate].
  - cbv zeta.
    match goal with
    | |- context [if revisionFor v =? 2 then getUserPasswordR2 _ ?k
                  else getUserPasswordR3R4 _ _ ?i ?k] =>
        destruct (legacy_user_entry_Ok v i k) as [u Hu]; rewrite Hu
    end.
    split; [intros [err H]; discriminate H|discriminate].
Qed.

(** X24.  Once a password is supplied, construction can fail in one way
    only: on a legacy path, when one of the first 32 characters of the user
    password, or of an owner password that is given and not empty, has a
    code above 255.  A failed or successful legacy construction leaves the
    world as it is; construction for the version 1.7ext3 always succeeds
    and draws 68 random bytes in whole words. *)
Theorem construction_failure (header : PDFHeader) (options : SecurityOptions)
        (w : World) :
  passwordSupplied options = true ->
  let v := algorithmFor (getVersionString header) in
  (fst (create header options w) = Throw InvalidPasswordCharacter <->
   v <> 5 /\
   invalidPassword (userPassword options)
   || JS.truthy_string (ownerPassword options)
      && invalidPassword (ownerPassword options) = true) /\
  (forall err, fst (create header options w) = Throw err ->
               err = InvalidPasswordCharacter) /\
  snd (create header options w) = (if v =? 5 then afterV5 w else w).
Proof.
  intros Hpw v.
  destruct (Z.eq_dec v 5) as [Hv|Hv].
  - rewrite (create_V5_explicit header options w Hpw Hv). cbn [fst snd].
    rewrite Hv. cbn [Z.eqb Pos.eqb].
    split; [split; [discriminate|intros [H _]; contradiction]|].
    split; [discriminate|reflexivity].
  - rewrite (create_legacy MD5 SHA256 RC4_encrypt AES_encrypt header options w Hpw Hv).
    cbn [fst snd]. fold v.
    assert (Hv5 : (v =? 5) = false) by (apply Z.eqb_neq, Hv). rewrite Hv5.
    pose proof (legacyDerivation_fails v options (fileIdAt MD5 w)) as Hfail.
    destruct (legacyDerivation MD5 RC4_encrypt v options (fileIdAt MD5 w))
      as [[e key]|err] eqn:Hd.
    + split; [|split; [discriminate|reflexivity]].
      split; [discriminate|]. intros [_ H].
      apply Hfail in H. destruct H as [err H]. discriminate H.
    + pose proof (legacyDerivation_Throw MD5 RC4_encrypt v options _ _ Hd) as Herr.
      subst err.
      split; [|split; [|reflexivity]].
      * split; [|reflexivity]. intros _. split; [exact Hv|].
        apply Hfail. eexists. reflexivity.
      * intros err H. inversion H. reflexivity.
Qed.

(** ** The closure of the AES paths *)

(** What the closure returns: the bytes of the initialization vector, then
    the bytes of the ciphertext. *)
Lemma aesClosure_bytes (key iv : WordArray) (buffer : Uint8Array) (w : World) :
  aesClosure AES_encrypt key iv buffer w
  = (Ok (wordArrayToBuffer iv
         ++ wordArrayToBuffer
              (AES_encrypt (WordArray.ofUint8Array buffer) key
                           (mkCipherOptions CBC Pkcs7 (Some iv)))), w).
Proof.
  unfold aesClosure, ret, WordArray.clone.
  rewrite wordArrayToBuffer_concat_app. reflexivity.
Qed.

(** C1 (amended).  On the AES paths (V = 4 and V = 5), for every handler
    that has its dictionary and key, and every object number and
    generation: [getEncryptFn] draws one 16-byte initialization vector from
    the random source, leaves the handler and its key as they are, and
    returns a closure that draws nothing.  Every invocation on a buffer
    returns the same bytes: the initialization vector, followed by the
    AES encryption of the buffer in CBC mode with PKCS#7 padding under that
    vector and the key of the object, which is the file key for V = 5 and,
    for V = 4, the MD5 digest of the file key, the object's five bytes and
    the salt "sAlT".  A second call of [getEncryptFn] draws the next 16
    bytes, and when the two vectors differ so do the outputs of the two
    closures. *)
Theorem getEncryptFn_AES_closure (this : PDFSecurity) (e : Encryption)
        (key : WordArray) (obj gen : Z) (w : World) (buffer : Uint8Array) :
  encryption this = Some e -> V e = 4 \/ V e = 5 ->
  encryptionKey this = Some key ->
  let iv1 := drawnWords 16 w in
  let iv2 := drawnWords 16 (afterDraw 16 w) in
  let objectKey :=
    if V e =? 4
    then MD5 (WordArray.concat (objectDigest key obj gen)
                               (WordArray.create [0x73416c54] 4))
    else key in
  let output (iv : WordArray) :=
    wordArrayToBuffer iv
    ++ wordArrayToBuffer
         (AES_encrypt (WordArray.ofUint8Array buffer) objectKey
                      (mkCipherOptions CBC Pkcs7 (Some iv))) in
  exists f1 f2,
    getEncryptFn MD5 RC4_encrypt AES_encrypt obj gen (this, w)
    = (Ok f1, (this, afterDraw 16 w)) /\
    getEncryptFn MD5 RC4_encrypt AES_encrypt obj gen (this, afterDraw 16 w)
    = (Ok f2, (this, afterDraw 16 (afterDraw 16 w))) /\
    length (wordArrayToBuffer iv1) = 16%nat /\
    length (wordArrayToBuffer iv2) = 16%nat /\
    (forall w', f1 buffer w' = (Ok (output iv1), w')) /\
    (forall w', f2 buffer w' = (Ok (output iv2), w')) /\
    (forall w', f1 buffer (snd (f1 buffer w')) = f1 buffer w') /\
    (wordArrayToBuffer iv1 <> wordArrayToBuffer iv2 -> output iv1 <> output iv2).
Proof.
  intros He Hv Hk iv1 iv2 objectKey output.
  exists (aesClosure AES_encrypt (aesKey MD5 (V e) key obj gen) iv1),
         (aesClosure AES_encrypt (aesKey MD5 (V e) key obj gen) iv2).
  split; [apply (getEncryptFn_AES_run MD5 RC4_encrypt AES_encrypt
                   this e key obj gen w He Hv Hk)|].
  split; [apply (getEncryptFn_AES_run MD5 RC4_encrypt AES_encrypt
                   this e key obj gen _ He Hv Hk)|].
  assert (Hl1 : length (wordArrayToBuffer iv1) = 16%nat)
    by apply wordArrayToBuffer_length.
  assert (Hl2 : length (wordArrayToBuffer iv2) = 16%nat)
    by apply wordArrayToBuffer_length.
  split; [exact Hl1|]. split; [exact Hl2|].
  split; [intros w'; apply aesClosure_bytes|].
  split; [intros w'; apply aesClosure_bytes|].
  split.
  - intros w'. rewrite !aesClosure_bytes. reflexivity.
  - intros Hne Heq. apply Hne. subst output. cbv beta in Heq.
    apply (f_equal (firstn 16)) in Heq.
    rewrite !firstn_app, Hl1, Hl2 in Heq.
    change (16 - 16)%nat with 0%nat in Heq.
    rewrite !firstn_O, !app_nil_r, !firstn_all2 in Heq by lia.
    exact Heq.
Qed.

End HandlerFurtherProperties.

(* ================================================================== *)
(** * Further properties: the memoized content streams *)
(* ================================================================== *)

Section MemoProperties.

Variable number : Type.
Variable byteArrayToHexString : list Z -> JS.jsstring.

Local Abbreviation Context := (PDFContext number).
Local Abbreviation Object := (PDFObject number).
Local Abbreviation getPush := (getPushGraphicsStateContentStream byteArrayToHexString).
Local Abbreviation getPop := (getPopGraphicsStateContentStream byteArrayToHexString).

Lemma getPush_result (c : Context) :
  exists r,
    fst (getPush c) = Ok r /\
    pushGraphicsStateContentStreamRef (snd (getPush c)) = Some r /\
    (pushGraphicsStateContentStreamRef c = None ->
     assoc_get PDFRef_eqb (indirectObjects (snd (getPush c))) r = Some pushStream).
Proof.
  rewrite getPush_run.
  destruct (pushGraphicsStateContentStreamRef c) as [r|] eqn:E.
  - exists r. cbn [fst snd]. split; [reflexivity|]. split; [exact E|discriminate].
  - eexists. cbn [fst snd]. split; [reflexivity|]. split; [reflexivity|].
    intros _. rewrite register_run. cbn [snd].
    cbn [indirectObjects set_pushRef set_largestObjectNumber set_indirectObjects].
    rewrite assoc_get_set, PDFRef_eqb_refl. reflexivity.
Qed.

Lemma getPop_result (c : Context) :
  exists r,
    fst (getPop c) = Ok r /\
    popGraphicsStateContentStreamRef (snd (getPop c)) = Some r /\
    (popGraphicsStateContentStreamRef c = None ->
     assoc_get PDFRef_eqb (indirectObjects (snd (getPop c))) r = Some popStream).
Proof.
  rewrite getPop_run.
  destruct (popGraphicsStateContentStreamRef c) as [r|] eqn:E.
  - exists r. cbn [fst snd]. split; [reflexivity|]. split; [exact E|discriminate].
  - eexists. cbn [fst snd]. split; [reflexivity|]. split; [reflexivity|].
    intros _. rewrite register_run. cbn [snd].
    cbn [indirectObjects set_popRef set_largestObjectNumber set_indirectObjects].
    rewrite assoc_get_set, PDFRef_eqb_refl. reflexivity.
Qed.

(** X25.  The reference of the push-graphics-state stream is memoized for
    the life of the graph, whatever happens to the object: on the first
    request the reference looks up to a content stream holding the one
    operator, but after the reference is deleted, or another object is
    assigned to it, the next request still returns the same reference and
    registers nothing, so that it then looks up to [undefined] or to the
    other object.  The same holds for the pop-graphics-state stream. *)
Theorem memoized_reference_outlives_object (c : Context) (object : Object) :
  (exists r,
      fst (getPush c) = Ok r /\
      (pushGraphicsStateContentStreamRef c = None ->
       lookup (snd (getPush c)) (Some (PDFRefObject r)) [typeof_PDFStream]
       = Returned (Some pushStream)) /\
      (let c2 := snd (delete r (snd (getPush c))) in
       getPush c2 = (Ok r, c2) /\
       lookup c2 (Some (PDFRefObject r)) [] = Returned None) /\
      (let c3 := snd (assign r object (snd (getPush c))) in
       getPush c3 = (Ok r, c3) /\
       lookup c3 (Some (PDFRefObject r)) [] = Returned (Some object))) /\
  (exists r,
      fst (getPop c) = Ok r /\
      (popGraphicsStateContentStreamRef c = None ->
       lookup (snd (getPop c)) (Some (PDFRefObject r)) [typeof_PDFStream]
       = Returned (Some popStream)) /\
      (let c2 := snd (delete r (snd (getPop c))) in
       getPop c2 = (Ok r, c2) /\
       lookup c2 (Some (PDFRefObject r)) [] = Returned None) /\
      (let c3 := snd (assign r object (snd (getPop c))) in
       getPop c3 = (Ok r, c3) /\
       lookup c3 (Some (PDFRefObject r)) [] = Returned (Some object))).
Proof.
  split.
  - destruct (getPush_result c) as (r & Hr & Hmemo & Hobj).
    exists r. split; [exact Hr|]. split; [|split].
    + intros Hnone. rewrite lookup_resolved, resolved_ref, (Hobj Hnone).
      reflexivity.
    + cbv zeta. rewrite delete_run. cbn [snd]. split.
      * rewrite getPush_run. cbn [pushGraphicsStateContentStreamRef set_indirectObjects].
        rewrite Hmemo. reflexivity.
      * rewrite lookup_resolved, resolved_ref.
        cbn [indirectObjects set_indirectObjects].
        rewrite assoc_get_delete, PDFRef_eqb_refl. reflexivity.
    + cbv zeta. rewrite assign_run. cbn [snd]. split.
      * rewrite getPush_run.
        cbn [pushGraphicsStateContentStreamRef set_indirectObjects
             set_largestObjectNumber].
        rewrite Hmemo. reflexivity.
      * rewrite lookup_resolved, resolved_ref.
        cbn [indirectObjects set_indirectObjects set_largestObjectNumber].
        rewrite assoc_get_set, PDFRef_eqb_refl. reflexivity.
  - destruct (getPop_result c) as (r & Hr & Hmemo & Hobj).
    exists r. split; [exact Hr|]. split; [|split].
    + intros Hnone. rewrite lookup_resolved, resolved_ref, (Hobj Hnone).
      reflexivity.
    + cbv zeta. rewrite delete_run. cbn [snd]. split.
      * rewrite getPop_run. cbn [popGraphicsStateContentStreamRef set_indirectObjects].
        rewrite Hmemo. reflexivity.
      * rewrite lookup_resolved, resolved_ref.
        cbn [indirectObjects set_indirectObjects].
        rewrite assoc_get_delete, PDFRef_eqb_refl. reflexivity.
    + cbv zeta. rewrite assign_run. cbn [snd]. split.
      * rewrite getPop_run.
        cbn [popGraphicsStateContentStreamRef set_indirectObjects
             set_largestObjectNumber].
        rewrite Hmemo. reflexivity.
      * rewrite lookup_resolved, resolved_ref.
        cbn [indirectObjects set_indirectObjects set_largestObjectNumber].
        rewrite assoc_get_set, PDFRef_eqb_refl. reflexivity.
Qed.

End MemoProperties.

(* ================================================================== *)
(** * The further properties at concrete inputs *)
(* ================================================================== *)

Lemma CryptoJS_MD5_size : MD5_digest_size CryptoJS.MD5.
Proof.
  intros m. unfold CryptoJS.MD5. rewrite ofUint8Array_sigBytes.
  unfold CryptoJS.md5. cbv zeta.
  destruct (CryptoJS.md5Blocks _ _ _) as [[[a b] c] d].
  rewrite !length_app. unfold CryptoJS.bytesLE.
  rewrite !length_map, !length_seq. reflexivity.
Qed.

Lemma rc4Stream_length (sbox : list Z) (i j : nat) (message : list Z) :
  length (CryptoJS.rc4Stream sbox i j message) = length message.
Proof.
  revert sbox i j. induction message as [|m rest IH]; intros sbox i j;
    [reflexivity|].
  cbn [CryptoJS.rc4Stream length]. rewrite IH. reflexivity.
Qed.

Lemma CryptoJS_RC4_size : RC4_keeps_size CryptoJS.RC4_encrypt.
Proof.
  intros m key. unfold CryptoJS.RC4_encrypt, CryptoJS.rc4, CryptoJS.bytesOf.
  rewrite ofUint8Array_sigBytes, rc4Stream_length.
  apply wordArrayToBuffer_length.
Qed.

Lemma encrypt_registers_dictionary_witness :
  fst (encrypt (fun z : Z => z) hexOfBytes sampleHandlerV5
               (graphAfter hexOfBytes []))
  = Ok sampleHandlerV5.
Proof.
  exact (proj1 (encrypt_registers_dictionary
                  Z (fun z : Z => z) hexOfBytes sampleHandlerV5 sampleFileId
                  sampleEncryptionV5 [] eq_refl eq_refl eq_refl)).
Defined.

Lemma legacy_dictionary_sizes_witness :
  match fst (PDFSecurity_create CryptoJS.MD5 CryptoJS.digest32
                                CryptoJS.RC4_encrypt CryptoJS.identityCipher
                                (mkPDFHeader (JS.lit "1.7"))
                                sampleOptions (sampleWorld 0)) with
  | Ok h =>
      exists e fileId,
        encryption h = Some e /\ id h = Some fileId /\
        length fileId = 16%nat /\
        (V e <> 5 ->
         length (O e) = 32%nat /\ length (U e) = 32%nat /\
         (3 <= R e -> skipn 16 (U e) = repeat 0 16))
  | Throw _ => True
  end.
Proof.
  apply (legacy_dictionary_sizes
           CryptoJS.MD5 CryptoJS.digest32 CryptoJS.RC4_encrypt
           CryptoJS.identityCipher (mkPDFHeader (JS.lit "1.7"))
           sampleOptions (sampleWorld 0)).
  - apply CryptoJS_MD5_size.
  - apply CryptoJS_RC4_size.
Defined.

Lemma revision5_entries_validate_witness :
  exists h e,
    fst (PDFSecurity_create CryptoJS.MD5 CryptoJS.digest32
                            CryptoJS.RC4_encrypt CryptoJS.identityCipher
                            (mkPDFHeader (JS.lit "1.7ext3"))
                            sampleOptions (sampleWorld 0)) = Ok h /\
    encryption h = Some e /\
    skipn 32 (U e)
    = wordArrayToBuffer (userValidationSalt (sampleWorld 0))
      ++ wordArrayToBuffer (userKeySalt (sampleWorld 0)).
Proof.
  destruct (revision5_entries_validate
              CryptoJS.MD5 CryptoJS.digest32 CryptoJS.RC4_encrypt
              CryptoJS.identityCipher sampleOptions (sampleWorld 0)
              digest32_size eq_refl)
    as (h & e & ue & oe & Hh & He & _ & _ & _ & _ & _ & _ & _ & Hu & _).
  exists h, e. split; [exact Hh|]. split; [exact He|exact Hu].
Defined.

Lemma revision5_permission_block_witness :
  exists h e perms,
    fst (PDFSecurity_create CryptoJS.MD5 CryptoJS.digest32
                            CryptoJS.RC4_encrypt CryptoJS.identityCipher
                            (mkPDFHeader (JS.lit "1.7ext3"))
                            sampleOptions (sampleWorld 0)) = Ok h /\
    encryption h = Some e /\ Perms e = Some perms /\
    P e = getPermissionsR3 (permissions sampleOptions).
Proof.
  destruct (revision5_permission_block
              CryptoJS.MD5 CryptoJS.digest32 CryptoJS.RC4_encrypt
              CryptoJS.identityCipher sampleOptions (sampleWorld 0) eq_refl)
    as (h & e & perms & block & Hh & He & Hp & HP & _).
  exists h, e, perms. repeat split; assumption.
Defined.

Lemma construction_failure_witness :
  fst (PDFSecurity_create CryptoJS.MD5 CryptoJS.digest32
                          CryptoJS.RC4_encrypt CryptoJS.identityCipher
                          (mkPDFHeader (JS.lit "1.7"))
                          (mkSecurityOptions None (Some [0x100]) None)
                          (sampleWorld 0))
  = Throw InvalidPasswordCharacter.
Proof.
  apply (proj1 (construction_failure
                  CryptoJS.MD5 CryptoJS.digest32 CryptoJS.RC4_encrypt
                  CryptoJS.identityCipher (mkPDFHeader (JS.lit "1.7"))
                  (mkSecurityOptions None (Some [0x100]) None)
                  (sampleWorld 0) eq_refl)).
  split; [vm_compute; discriminate|reflexivity].
Defined.

Lemma getEncryptFn_RC4_closure_witness :
  match fst (PDFSecurity_create CryptoJS.MD5 CryptoJS.digest32
                                CryptoJS.RC4_encrypt CryptoJS.identityCipher
                                (mkPDFHeader (JS.lit "1.3"))
                                sampleOptions (sampleWorld 0)) with
  | Ok h =>
      exists key,
        encryptionKey h = Some key /\
        sigBytes (rc4Key CryptoJS.MD5 40 key 7 0) = 10%nat
  | Throw _ => True
  end.
Proof.
  assert (H := getEncryptFn_RC4_closure
                 CryptoJS.MD5 CryptoJS.digest32 CryptoJS.RC4_encrypt
                 CryptoJS.identityCipher (mkPDFHeader (JS.lit "1.3"))
                 sampleOptions (sampleWorld 0) (sampleWorld 0) 7 0
                 (or_introl eq_refl)).
  destruct (fst (PDFSecurity_create _ _ _ _ _ _ _)) as [h|err]; [|exact I].
  destruct H as (key & Hkey & _ & Hsize & _).
  exists key. split; [exact Hkey|exact Hsize].
Defined.

Lemma getEncryptFn_AES_closure_witness :
  encryption sampleHandlerV5 = Some sampleEncryptionV5 /\
  (V sampleEncryptionV5 = 4 \/ V sampleEncryptionV5 = 5) /\
  encryptionKey sampleHandlerV5 = Some sampleKeyV5 /\
  exists f1 f2,
    getEncryptFn CryptoJS.MD5 CryptoJS.RC4_encrypt CryptoJS.identityCipher 1 0
                 (sampleHandlerV5, sampleWorld 0)
    = (Ok f1, (sampleHandlerV5, afterDraw 16 (sampleWorld 0))) /\
    getEncryptFn CryptoJS.MD5 CryptoJS.RC4_encrypt CryptoJS.identityCipher 1 0
                 (sampleHandlerV5, afterDraw 16 (sampleWorld 0))
    = (Ok f2, (sampleHandlerV5, afterDraw 16 (afterDraw 16 (sampleWorld 0)))) /\
    (forall w',
        f1 [1; 2; 3] w'
        = (Ok (wordArrayToBuffer (drawnWords 16 (sampleWorld 0))
               ++ wordArrayToBuffer
                    (CryptoJS.identityCipher
                       (WordArray.ofUint8Array [1; 2; 3]) sampleKeyV5
                       (mkCipherOptions CBC Pkcs7
                                        (Some (drawnWords 16 (sampleWorld 0)))))),
           w')) /\
    (forall w', f1 [1; 2; 3] (snd (f1 [1; 2; 3] w')) = f1 [1; 2; 3] w').
Proof.
  split; [reflexivity|]. split; [right; reflexivity|]. split; [reflexivity|].
  destruct (getEncryptFn_AES_closure
              CryptoJS.MD5 CryptoJS.RC4_encrypt CryptoJS.identityCipher
              sampleHandlerV5 sampleEncryptionV5 sampleKeyV5
              1 0 (sampleWorld 0) [1; 2; 3]
              eq_refl (or_intror eq_refl) eq_refl)
    as (f1 & f2 & H1 & H2 & _ & _ & Hout & _ & Hagain & _).
  exists f1, f2.
  split; [exact H1|]. split; [exact H2|]. split; [exact Hout|exact Hagain].
Defined.

Lemma register_then_lookup_witness :
  largestObjectNumber (graphAfter hexOfBytes
                         [OpAssign (PDFRef_of 7) (PDFNull (number := Z));
                          OpDelete (PDFRef_of 7)]) < 2 ^ 53 /\
  exists ref,
    fst (register PDFNull
           (graphAfter hexOfBytes
              [OpAssign (PDFRef_of 7) (PDFNull (number := Z));
               OpDelete (PDFRef_of 7)])) = Ok ref /\
    1 <= objectNumber ref /\ generationNumber ref = 0.
Proof.
  assert (Hs : largestObjectNumber
                 (graphAfter hexOfBytes
                    [OpAssign (PDFRef_of 7) (PDFNull (number := Z));
                     OpDelete (PDFRef_of 7)]) < 2 ^ 53) by reflexivity.
  split; [exact Hs|].
  destruct (register_then_lookup
              Z hexOfBytes
              [OpAssign (PDFRef_of 7) PDFNull; OpDelete (PDFRef_of 7)]
              PDFNull Hs)
    as (ref & Href & Hone & Hgen & _).
  exists ref. split; [exact Href|]. split; [exact Hone|exact Hgen].
Defined.

Lemma register_in_sequence_witness :
  Z.of_nat (length [PDFNull (number := Z); PDFBool true]) <= 2 ^ 53 /\
  fst (history hexOfBytes (map OpRegister [PDFNull (number := Z); PDFBool true])
               PDFContext_create)
  = [PDFRef_of 1; PDFRef_of 2].
Proof.
  assert (Hcount : Z.of_nat (length [PDFNull (number := Z); PDFBool true])
                   <= 2 ^ 53) by (vm_compute; discriminate).
  split; [exact Hcount|].
  exact (proj1 (register_in_sequence Z hexOfBytes [PDFNull; PDFBool true] Hcount)).
Defined.
